(** * Collection and synchronisation engine of the Bitable TikTok plugin

    Shallow embedding of the TypeScript sources:
    - [src/utils/helpTip.ts]            : [normalizeUrlKey], [normalizeAccountKey],
                                          [extractAccountName]
    - [src/services/commerceDetection.ts]: product parsing, [dedupeProducts],
                                          [pickProductLink], [isHttpUrl],
                                          [translateCommerceReason],
                                          [commerceFromAweme]
    - [src/services/bitableApi.ts]      : [fillEmptyRecords], [addRecordsInBatches],
                                          [isCellValueEmpty], [isRecordEmpty],
                                          [getEmptyRecords], [extractTextFromCell],
                                          [collectExistingKeys]
    - [src/hooks/useQuota.ts]           : [handle429Error]
    - the collection component: the keyword loop of [writeKeywordTikTokData],
      [buildVideoShareLink], [ensureRequiredSelections] and
      [applyQuotaConsumption].

    Strings are Stdlib [string]s (bytes).  [toLowerCase] and [trim] are
    modelled on their ASCII behaviour; [normalizeUrlKey_with] also takes
    them as parameters, for statements about the platform's own. *)

From Stdlib Require Import List String Ascii Bool Arith ZArith Lia QArith Permutation.
From Stdlib Require Import DecimalString DecimalNat.
Import ListNotations.
Set Warnings "-register-all".
Open Scope nat_scope.
Open Scope list_scope.
Open Scope string_scope.

(* ================================================================== *)
(** ** JavaScript string helpers *)

Module Str.

(** [String.prototype.toLowerCase] on ASCII letters. *)
Definition lower_ascii (c : ascii) : ascii :=
  let n := nat_of_ascii c in
  if Nat.leb 65 n && Nat.leb n 90 then ascii_of_nat (n + 32) else c.

Fixpoint toLowerCase (s : string) : string :=
  match s with
  | EmptyString => EmptyString
  | String c s' => String (lower_ascii c) (toLowerCase s')
  end.

(** White space removed by [String.prototype.trim] (ASCII part). *)
Definition is_ws (c : ascii) : bool :=
  let n := nat_of_ascii c in
  Nat.eqb n 32 || (Nat.leb 9 n && Nat.leb n 13).

Fixpoint trim_start (s : string) : string :=
  match s with
  | EmptyString => EmptyString
  | String c s' => if is_ws c then trim_start s' else s
  end.

Definition rev_str (s : string) : string :=
  string_of_list_ascii (rev (list_ascii_of_string s)).

Definition trim (s : string) : string :=
  rev_str (trim_start (rev_str (trim_start s))).

Fixpoint starts_with (p s : string) : bool :=
  match p, s with
  | EmptyString, _ => true
  | String a p', String b s' => Ascii.eqb a b && starts_with p' s'
  | String _ _, EmptyString => false
  end.

(** [String.prototype.includes]. *)
Fixpoint includes (hay needle : string) : bool :=
  starts_with needle hay ||
  match hay with
  | EmptyString => false
  | String _ hay' => includes hay' needle
  end.

(** Template-literal rendering of a non-negative integer, [`${idx}`]. *)
Definition of_nat (n : nat) : string :=
  NilEmpty.string_of_uint (Nat.to_uint n).

Fixpoint has_char (c : ascii) (s : string) : bool :=
  match s with
  | EmptyString => false
  | String d s' => Ascii.eqb c d || has_char c s'
  end.

(** [s] with every single quote replaced by a double quote: writes JSON
    text in examples. *)
Fixpoint jq (s : string) : string :=
  match s with
  | EmptyString => EmptyString
  | String "'" s' => String "034" (jq s')
  | String c s' => String c (jq s')
  end.

End Str.

(* ================================================================== *)
(** ** [normalizeUrlKey] (src/utils/helpTip.ts) *)

Module Url.

(** The components of a WHATWG [URL] object that the code reads. *)
Record URL := mkURL {
  protocol : string;   (* scheme followed by ":" *)
  host : string;
  pathname : string;
  search : string;
  hash : string
}.

Section NormalizeUrlKey.

(** [normalizeUrlKey] over the platform's [String.prototype.trim] and
    [String.prototype.toLowerCase]. *)
Variables (trim toLowerCase : string -> string).
(** The platform constructor [new URL(s)]: [None] when it throws. *)
Variable url_parse : string -> option URL.

Definition normalizeUrlKey_with (raw : string) : string :=
  if String.eqb raw "" then ""
  else
    match url_parse (trim raw) with
    | Some url =>
        toLowerCase (protocol url ++ "//" ++ host url ++ pathname url)
    | None => toLowerCase (trim raw)
    end.

End NormalizeUrlKey.

(** With the ASCII [trim] and [toLowerCase] of [Str]. *)
Definition normalizeUrlKey (url_parse : string -> option URL) (raw : string) : string :=
  normalizeUrlKey_with Str.trim Str.toLowerCase url_parse raw.

(** A basic instance of the URL parser for absolute hierarchical URLs
    [scheme://host/path?query#fragment] (scheme and host lower-cased, as
    the WHATWG parser does for special schemes); used in the examples. *)
Fixpoint split_at_any (stops : string) (s : string) : string * string :=
  match s with
  | EmptyString => ("", "")
  | String c s' =>
      if Str.has_char c stops then ("", s)
      else let '(a, b) := split_at_any stops s' in (String c a, b)
  end.

Definition parse_basic (s : string) : option URL :=
  let '(scheme, rest) := split_at_any ":" s in
  match rest with
  | String _ (String "/" (String "/" after)) =>
      if String.eqb scheme "" then None else
      let '(h, rest1) := split_at_any "/?#" after in
      if String.eqb h "" then None else
      let '(p, rest2) := split_at_any "?#" rest1 in
      let '(q, f) := split_at_any "#" rest2 in
      Some (mkURL (Str.toLowerCase scheme ++ ":") (Str.toLowerCase h)
                  (if String.eqb p "" then "/" else p) q f)
  | _ => None
  end.

End Url.

(* ================================================================== *)
(** ** JavaScript values *)

Module Js.

(** The values reaching the detection code after [JSON.parse]: a JSON
    number is the rational it denotes ([JSON.parse] never yields NaN or
    infinities); objects are association lists in key order. *)
Inductive value :=
| Undef
| Null
| Bool (b : bool)
| Num (q : Q)
| Str (s : string)
| Arr (xs : list value)
| Obj (kvs : list (string * value)).

(** Platform functions the code calls: [JSON.parse] ([None] when it throws),
    [String(n)] on numbers and [Number(v)] ([None] when not finite). *)
Class Runtime := {
  json_parse : string -> option value;
  number_to_string : Q -> string;
  to_number : value -> option Q
}.

Definition truthy (v : value) : bool :=
  match v with
  | Undef | Null => false
  | Bool b => b
  | Num q => negb (Qeq_bool q 0)
  | Str s => negb (String.eqb s "")
  | Arr _ | Obj _ => true
  end.

(** [typeof v === 'object'] for a non-null value. *)
Definition is_object (v : value) : bool :=
  match v with Arr _ | Obj _ => true | _ => false end.

(** [a ?? b] *)
Definition nullish_or (a b : value) : value :=
  match a with Undef | Null => b | _ => a end.

(** [a || b] *)
Definition or_ (a b : value) : value := if truthy a then a else b.

Fixpoint assoc (kvs : list (string * value)) (k : string) : value :=
  match kvs with
  | [] => Undef
  | (k', v) :: r => if String.eqb k k' then v else assoc r k
  end.

(** Property read [v.k] / [v?.k] for the data keys the code reads. *)
Definition get (v : value) (k : string) : value :=
  match v with Obj kvs => assoc kvs k | _ => Undef end.

(** [obj.k = v] *)
Fixpoint set (kvs : list (string * value)) (k : string) (v : value)
  : list (string * value) :=
  match kvs with
  | [] => [(k, v)]
  | (k', v') :: r =>
      if String.eqb k k' then (k', v) :: r else (k', v') :: set r k v
  end.

(** Own enumerable entries, as spread by [{ ...v }]. *)
Definition entries (v : value) : list (string * value) :=
  match v with
  | Obj kvs => kvs
  | Arr xs => combine (map Str.of_nat (seq 0 (List.length xs))) xs
  | _ => []
  end.

(** [{ ...a, ...b }] given the entries of both. *)
Definition merge (a b : list (string * value)) : list (string * value) :=
  fold_left (fun acc kv => set acc (fst kv) (snd kv)) b a.

Section ToString.
Context `{Runtime}.

Fixpoint join_comma (xs : list string) : string :=
  match xs with
  | [] => ""
  | [x] => x
  | x :: r => x ++ "," ++ join_comma r
  end.

(** [String(v)] *)
Fixpoint to_string (v : value) : string :=
  match v with
  | Undef => "undefined"
  | Null => "null"
  | Bool b => if b then "true" else "false"
  | Num q => number_to_string q
  | Str s => s
  | Arr xs =>
      join_comma
        (map (fun x => match x with Undef | Null => "" | _ => to_string x end) xs)
  | Obj _ => "[object Object]"
  end.

End ToString.

End Js.

(** An example runtime used to run the definitions on concrete inputs:
    [JSON.parse] for the JSON subset whose string escapes are a backslash
    followed by a double quote, a backslash or a slash, and whose numbers
    have no exponent (numbers read exactly); integers printed in decimal. *)
Module BasicRuntime.
Import Js.

Fixpoint skip_ws (s : string) : string :=
  match s with
  | String c s' => if Str.is_ws c then skip_ws s' else s
  | EmptyString => EmptyString
  end.

Definition digit_val (c : ascii) : option nat :=
  let n := nat_of_ascii c in
  if Nat.leb 48 n && Nat.leb n 57 then Some (n - 48) else None.

(** Reads the digits at the head of [s]: (value, number of digits, rest). *)
Fixpoint read_digits (s : string) (acc : Z) (k : nat) : Z * nat * string :=
  match s with
  | String c s' =>
      match digit_val c with
      | Some d => read_digits s' (10 * acc + Z.of_nat d)%Z (S k)
      | None => (acc, k, s)
      end
  | EmptyString => (acc, k, s)
  end.

Definition read_number (s : string) : option (value * string) :=
  let '(neg, s1) := match s with String "-" r => (true, r) | _ => (false, s) end in
  let '(ip, k, s2) := read_digits s1 0%Z 0 in
  if Nat.eqb k 0 then None else
  let '(num, den, s3) :=
    match s2 with
    | String "." r =>
        let '(fp, k', r') := read_digits r ip 0 in (fp, Z.pow 10 (Z.of_nat k'), r')
    | _ => (ip, 1%Z, s2)
    end in
  Some (Num (Qmake (if neg then Z.opp num else num) (Z.to_pos den)), s3).

Fixpoint read_string (s : string) : option (string * string) :=
  match s with
  | String "034" r => Some ("", r)
  | String "092" (String c r) =>
      if Str.has_char c (String "034" "\/") then
        match read_string r with Some (a, b) => Some (String c a, b) | None => None end
      else None
  | String c r =>
      match read_string r with Some (a, b) => Some (String c a, b) | None => None end
  | EmptyString => None
  end.

Fixpoint parse_value (fuel : nat) (s : string) : option (value * string) :=
  match fuel with
  | O => None
  | S f =>
      match skip_ws s with
      | String "{" r =>
          match skip_ws r with
          | String "}" r' => Some (Obj [], r')
          | r1 => parse_members f r1 []
          end
      | String "[" r =>
          match skip_ws r with
          | String "]" r' => Some (Arr [], r')
          | r1 => parse_elements f r1 []
          end
      | String "034" r =>
          match read_string r with Some (a, b) => Some (Str a, b) | None => None end
      | String "t" (String "r" (String "u" (String "e" r))) => Some (Bool true, r)
      | String "f" (String "a" (String "l" (String "s" (String "e" r)))) =>
          Some (Bool false, r)
      | String "n" (String "u" (String "l" (String "l" r))) => Some (Null, r)
      | r => read_number r
      end
  end
with parse_members (fuel : nat) (s : string) (acc : list (string * value))
  : option (value * string) :=
  match fuel with
  | O => None
  | S f =>
      match skip_ws s with
      | String "034" r =>
          match read_string r with
          | Some (k, r1) =>
              match skip_ws r1 with
              | String ":" r2 =>
                  match parse_value f r2 with
                  | Some (v, r3) =>
                      let acc' := set acc k v in
                      match skip_ws r3 with
                      | String "," r4 => parse_members f r4 acc'
                      | String "}" r4 => Some (Obj acc', r4)
                      | _ => None
                      end
                  | None => None
                  end
              | _ => None
              end
          | None => None
          end
      | _ => None
      end
  end
with parse_elements (fuel : nat) (s : string) (acc : list value)
  : option (value * string) :=
  match fuel with
  | O => None
  | S f =>
      match parse_value f s with
      | Some (v, r3) =>
          match skip_ws r3 with
          | String "," r4 => parse_elements f r4 (app acc [v])
          | String "]" r4 => Some (Arr (app acc [v]), r4)
          | _ => None
          end
      | None => None
      end
  end.

Definition json_parse_basic (s : string) : option value :=
  match parse_value (String.length s + 1) s with
  | Some (v, rest) => if String.eqb (skip_ws rest) "" then Some v else None
  | None => None
  end.

Definition number_to_string_basic (q : Q) : string :=
  if Z.eqb (Zpos (Qden q)) 1 then NilEmpty.string_of_int (Z.to_int (Qnum q))
  else "NaN".

Definition to_number_basic (v : value) : option Q :=
  match v with
  | Num q => Some q
  | Bool b => Some (if b then 1%Q else 0%Q)
  | Null => Some 0%Q
  | _ => None
  end.

#[export] Instance runtime : Runtime := {
  json_parse := json_parse_basic;
  number_to_string := number_to_string_basic;
  to_number := to_number_basic
}.

End BasicRuntime.

(* ================================================================== *)
(** ** Commerce detection (src/services/commerceDetection.ts) *)

Module Commerce.
Import Js.

Record CommerceProduct := mkProduct {
  productId : option string;
  title : option string;
  price : option Q;
  currency : option string;
  link : option string;
  source : option string;
  adLabel : option string
}.

Record CommerceResult := mkResult {
  isCommerce : bool;
  reasons : list string;
  products : list CommerceProduct;
  productsTotal : nat;
  firstProduct : option CommerceProduct;
  productsText : string
}.

(** Truthiness of an optional string field. *)
Definition present (o : option string) : bool :=
  match o with Some s => negb (String.eqb s "") | None => false end.

(** *** [extractProductIdFromJson]: the regular expression
    [/"product_id"\s*:\s*(\d{15,})/] and its first match. *)

Definition product_id_key : string := String "034" ("product_id" ++ String "034" "").

Fixpoint skip_ws (s : string) : string :=
  match s with
  | String c s' => if Str.is_ws c then skip_ws s' else s
  | EmptyString => EmptyString
  end.

Definition is_digit (c : ascii) : bool :=
  Nat.leb 48 (nat_of_ascii c) && Nat.leb (nat_of_ascii c) 57.

Fixpoint take_digits (s : string) : string :=
  match s with
  | String c s' => if is_digit c then String c (take_digits s') else EmptyString
  | EmptyString => EmptyString
  end.

(** The regular expression anchored at the start of [s]: capture group 1. *)
Definition match_at (s : string) : option string :=
  if Str.starts_with product_id_key s then
    match skip_ws (substring (String.length product_id_key)
                             (String.length s) s) with
    | String ":" s3 =>
        let d := take_digits (skip_ws s3) in
        if Nat.leb 15 (String.length d) then Some d else None
    | _ => None
    end
  else None.

(** [String.prototype.match] without the global flag: leftmost match. *)
Fixpoint first_match (s : string) : option string :=
  match match_at s with
  | Some d => Some d
  | None =>
      match s with
      | EmptyString => None
      | String _ s' => first_match s'
      end
  end.

Definition extractProductIdFromJson (jsonStr : string) : option string :=
  first_match jsonStr.

Section Detection.
Context `{Runtime}.

(** [safeJsonParse] on a string argument. *)
Definition safeJsonParse (raw : string) : option value :=
  if String.eqb raw "" then None else json_parse raw.

Definition parsePrice (raw : value) : option Q :=
  match raw with Undef | Null => None | _ => to_number raw end.

Definition toOptionalString (v : value) : option string :=
  if truthy v then Some (to_string v) else None.

Definition normalizeProduct (raw : value) : CommerceProduct :=
  let price := parsePrice (nullish_or (get raw "price")
                 (nullish_or (get raw "sale_price") (get raw "market_price"))) in
  let currencyObj := get raw "currency_format" in
  let currency := toOptionalString (nullish_or (get raw "currency")
                                     (get currencyObj "currency_symbol")) in
  let link := toOptionalString
      (nullish_or (get raw "schema")
        (nullish_or (get raw "detail_url")
          (nullish_or (get raw "final_url") (get raw "short_url")))) in
  let extraObj := get raw "extra" in
  let adLabel := toOptionalString (nullish_or (get raw "ad_label_name")
                                    (get extraObj "ad_label_name")) in
  {| productId := toOptionalString (nullish_or (get raw "product_id") (get raw "id"));
     title := toOptionalString (nullish_or (get raw "title")
                (nullish_or (get raw "elastic_title") (get raw "keyword")));
     price := price;
     currency := currency;
     link := link;
     source := toOptionalString (nullish_or (get raw "source") (get raw "source_from"));
     adLabel := adLabel |}.

Definition keep_product (p : CommerceProduct) : bool :=
  present (productId p) || present (title p) || present (link p).

(** The body of the [for (const item of arr)] loop of [parseAnchorProducts]. *)
Definition anchor_item_product (item : value) : option CommerceProduct :=
  if truthy item && is_object item then
    let merged0 := entries item in
    let merged :=
      match get item "extra" with
      | Str s =>
          let realProductId := extractProductIdFromJson s in
          match safeJsonParse s with
          | Some nested =>
              if truthy nested && is_object nested then
                let m := merge (entries nested) merged0 in
                match realProductId with
                | Some pid => set m "product_id" (Str pid)
                | None => m
                end
              else merged0
          | None => merged0
          end
      | ex => if truthy ex && is_object ex then merge (entries ex) merged0
              else merged0
      end in
    let prod := normalizeProduct (Obj merged) in
    if keep_product prod then Some prod else None
  else None.

Definition parseAnchorProducts (anchor : value) : list CommerceProduct :=
  let extraRaw := get anchor "extra" in
  let arr :=
    match extraRaw with
    | Str s =>
        match safeJsonParse s with
        | Some (Arr xs) => xs
        | Some parsed => if truthy parsed && is_object parsed then [parsed] else []
        | None => []
        end
    | Arr xs => xs
    | Obj _ => [extraRaw]
    | _ => []
    end in
  flat_map (fun item => match anchor_item_product item with
                        | Some p => [p] | None => [] end) arr.

Definition parseProductList (list_ : value) : list CommerceProduct :=
  match list_ with
  | Arr xs =>
      filter keep_product
        (flat_map (fun item => if truthy item && is_object item
                               then [normalizeProduct item] else []) xs)
  | _ => []
  end.

(** *** [dedupeProducts]: a [Map] keyed by [p.productId || `${p.title || ''}#${idx}`],
    first occurrence kept, values in insertion order. *)

Definition dedupe_key (p : CommerceProduct) (idx : nat) : string :=
  let fallback :=
    match title p with Some t => t | None => "" end ++ "#" ++ Str.of_nat idx in
  match productId p with
  | Some s => if String.eqb s "" then fallback else s
  | None => fallback
  end.

Fixpoint map_has (k : string) (seen : list (string * CommerceProduct)) : bool :=
  match seen with
  | [] => false
  | (k', _) :: r => String.eqb k k' || map_has k r
  end.

Fixpoint dedupe_loop (ps : list CommerceProduct) (idx : nat)
    (seen : list (string * CommerceProduct)) : list (string * CommerceProduct) :=
  match ps with
  | [] => seen
  | p :: r =>
      let key := dedupe_key p idx in
      dedupe_loop r (S idx) (if map_has key seen then seen else app seen [(key, p)])
  end.

Definition dedupeProducts (ps : list CommerceProduct) : list CommerceProduct :=
  map snd (dedupe_loop ps 0 []).

(** [Array.from(new Set(xs))]: first occurrences in order. *)
Fixpoint set_insert_all (xs seen : list string) : list string :=
  match xs with
  | [] => seen
  | x :: r =>
      set_insert_all r (if existsb (String.eqb x) seen then seen else app seen [x])
  end.

Definition array_from_set (xs : list string) : list string := set_insert_all xs [].

Definition formatProductSummary (product : CommerceProduct) (index : nat) : string :=
  let parts :=
    app ["[" ++ Str.of_nat index ++ "]"]
    (app (match title product with
          | Some t => if present (Some t) then [t] else []
          | None => [] end)
    (app (match price product, currency product with
          | Some q, Some c =>
              if negb (Qle_bool q 0) && present (Some c)
              then ["- " ++ c ++ number_to_string q] else []
          | _, _ => [] end)
         (match source product with
          | Some src => if present (Some src) then ["(" ++ src ++ ")"] else []
          | None => [] end))) in
  String.concat " " parts.

Fixpoint format_all (ps : list CommerceProduct) (index : nat) : list string :=
  match ps with
  | [] => []
  | p :: r => formatProductSummary p index :: format_all r (S index)
  end.

Definition newline : string := String (ascii_of_nat 10) "".

(** One iteration of the [for (const anchor of anchors)] loop. *)
Definition anchor_step (acc : list CommerceProduct * list string) (anchor : value)
  : list CommerceProduct * list string :=
  let '(products, reasons) := acc in
  let ck := get anchor "component_key" in
  let compKey := Str.toLowerCase (to_string (or_ ck (Str ""))) in
  let isCommerceAnchor :=
    Str.includes compKey "shop" || Str.includes compKey "product"
    || Str.includes compKey "commerce" in
  if negb isCommerceAnchor then acc
  else (app products (parseAnchorProducts anchor),
        app reasons [if truthy ck then "anchor:" ++ to_string ck else "anchor"]).

(** Steps 2-4: a product list field that, when non-empty, contributes its
    products and a reason code. *)
Definition list_step (field : string) (v : value)
    (acc : list CommerceProduct * list string) : list CommerceProduct * list string :=
  let '(products, reasons) := acc in
  let found := parseProductList (get v field) in
  if Nat.ltb 0 (List.length found)
  then (app products found, app reasons [field])
  else acc.

(** Step 5: [Boolean(v.has_commerce_goods || v.existed_commerce_goods || v.ecommerce_goods)]. *)
Definition hasGoodsFlag (v : value) : bool :=
  truthy (or_ (get v "has_commerce_goods")
            (or_ (get v "existed_commerce_goods") (get v "ecommerce_goods"))).

(** Step 6: [commerce_info] markers. *)
Definition commerceInfo (v : value) : value := or_ (get v "commerce_info") (Obj []).

Definition commissionText (v : value) : string :=
  Str.toLowerCase (to_string (or_ (get (commerceInfo v) "bc_label_test_text") (Str ""))).

Definition brandedType (v : value) : value := get (commerceInfo v) "branded_content_type".

Definition commission (v : value) : bool := Str.includes (commissionText v) "commission".

Definition branded (v : value) : bool :=
  match brandedType v with Num q => negb (Qle_bool q 0) | b => truthy b end.

Definition commerceFromAweme (v : value) : CommerceResult :=
  let anchors :=
    match get v "anchors" with
    | Arr xs => xs
    | _ => match get v "anchor_info" with Arr xs => xs | _ => [] end
    end in
  let acc1 := fold_left anchor_step anchors ([], []) in
  let acc2 := list_step "bottom_products" v acc1 in
  let acc3 := list_step "products_info" v acc2 in
  let '(products, reasons4) := list_step "right_products" v acc3 in
  let hasGoodsFlag := hasGoodsFlag v in
  let reasons5 := if hasGoodsFlag then app reasons4 ["commerce_goods_flag"] else reasons4 in
  let brandedType := brandedType v in
  let commission := commission v in
  let branded := branded v in
  let reasons6 := if commission then app reasons5 ["commerce_info_commission"] else reasons5 in
  let reasons := if branded
                 then app reasons6 ["commerce_info_branded_type:" ++ to_string brandedType]
                 else reasons6 in
  let uniqueProducts := dedupeProducts products in
  let isCommerce :=
    Nat.ltb 0 (List.length uniqueProducts) || hasGoodsFlag || commission || branded
    || Nat.ltb 0 (List.length reasons) in
  {| isCommerce := isCommerce;
     reasons := array_from_set reasons;
     products := uniqueProducts;
     productsTotal := List.length uniqueProducts;
     firstProduct := hd_error uniqueProducts;
     productsText := String.concat newline (format_all uniqueProducts 1) |}.

End Detection.

End Commerce.

(* ================================================================== *)
(** ** Batched write-back (src/services/bitableApi.ts) *)

Module Bitable.

(** What [table.addRecords] / [table.addRecord] return for one record:
    a string id, an object with an optional [recordId], or anything else. *)
Inductive IdEntry :=
| IdString (s : string)
| IdRecord (recordId : option string)
| IdOther.

(** [addRecords] resolves to an array of ids or to nothing. *)
Inductive BatchResult :=
| BatchVoid
| BatchArray (ids : list IdEntry).

(** The [ITable] methods the write-back calls, over a world [W] holding the
    table and everything else the awaited calls may change (in particular
    the [current] value of the stop flags).  A method that rejects returns
    [None] ([setCellValue] reports rejection with [false] and the world
    reached so far). *)
Class Table (W : Type) (Cell : Type) := {
  setCellValue : W -> string -> string -> Cell -> W * bool;
  addRecords : option (W -> list (list (string * Cell)) -> option (W * BatchResult));
  addRecord : W -> list (string * Cell) -> option (W * IdEntry)
}.

Section WriteBack.
Context {W Cell : Type} `{Table W Cell}.

Definition Fields := list (string * Cell).
(** [{ index, fields }] *)
Definition Pending := (nat * Fields)%type.

(** [recordIdsByIndex[i] = id]; the indices written are always below the
    array length. *)
Fixpoint set_nth (l : list string) (i : nat) (x : string) : list string :=
  match l, i with
  | [], _ => []
  | _ :: r, O => x :: r
  | y :: r, S i' => y :: set_nth r i' x
  end.

(** The inner [for (const [fieldId, value] of Object.entries(nextRecord.fields))]
    loop: [false] when a [setCellValue] call rejects. *)
Fixpoint write_fields (stop : W -> bool) (w : W) (recordId : string) (fields : Fields)
  : W * bool :=
  match fields with
  | [] => (w, true)
  | (fieldId, value) :: rest =>
      if stop w then (w, true)
      else
        let '(w', ok) := setCellValue w fieldId recordId value in
        if ok then write_fields stop w' recordId rest else (w', false)
  end.

Record FillResult := mkFill {
  filledCount : nat;
  remainingRecords : list Pending;
  filledRecordIds : list (nat * string)
}.

(** The [for (const recordId of emptyRecordIds)] loop of [fillEmptyRecords]. *)
Fixpoint fill_loop (stop : W -> bool) (w : W) (emptyRecordIds : list string)
    (remaining : list Pending) (filled : nat) (filledIds : list (nat * string))
  : W * FillResult :=
  match emptyRecordIds with
  | [] => (w, mkFill filled remaining filledIds)
  | recordId :: ids =>
      if stop w then (w, mkFill filled remaining filledIds)
      else
        match remaining with
        | [] => (w, mkFill filled remaining filledIds)
        | nextRecord :: rest =>
            let '(w', ok) := write_fields stop w recordId (snd nextRecord) in
            if ok
            then fill_loop stop w' ids rest (S filled)
                   (app filledIds [(fst nextRecord, recordId)])
            else fill_loop stop w' ids (app rest [nextRecord]) filled filledIds
        end
  end.

Definition fillEmptyRecords (w : W) (emptyRecordIds : list string)
    (records : list Pending) (stop : W -> bool) : W * FillResult :=
  fill_loop stop w emptyRecordIds records 0 [].

(** [for (let i = 0; i < n; i += batchSize) chunks.push(slice(i, i + batchSize))]
    for a positive [batchSize]. *)
Fixpoint chunks_of (fuel batchSize : nat) (l : list Pending) : list (list Pending) :=
  match fuel with
  | O => []
  | S f =>
      match l with
      | [] => []
      | _ => firstn batchSize l :: chunks_of f batchSize (skipn batchSize l)
      end
  end.

(** [res.forEach((id, idx) => ...)] after a batch append. *)
Fixpoint record_batch_ids (chunk : list Pending) (res : list IdEntry)
    (ids : list string) : list string :=
  match res, chunk with
  | [], _ => ids
  | _, [] => ids
  | e :: res', target :: chunk' =>
      let ids' :=
        match e with
        | IdString s => if String.eqb s "" then ids else set_nth ids (fst target) s
        | IdRecord (Some s) => set_nth ids (fst target) s
        | _ => ids
        end in
      record_batch_ids chunk' res' ids'
  end.

(** The fallback [for (const record of chunk)] loop with [addRecord]. *)
Fixpoint add_one_by_one (w : W) (chunk : list Pending) (ids : list string)
  : option (W * list string) :=
  match chunk with
  | [] => Some (w, ids)
  | record :: rest =>
      match addRecord w (snd record) with
      | None => None
      | Some (w', res) =>
          let ids' :=
            match res with
            | IdString s => set_nth ids (fst record) s
            | IdRecord (Some s) => set_nth ids (fst record) s
            | _ => ids
            end in
          add_one_by_one w' rest ids'
      end
  end.

(** The [for (const chunk of chunks)] loop: [None] when a call rejects. *)
Fixpoint append_chunks (stopRef : option (W -> bool)) (w : W)
    (chunks : list (list Pending)) (appended : nat) (ids : list string)
  : option (W * nat * list string) :=
  match chunks with
  | [] => Some (w, appended, ids)
  | chunk :: rest =>
      if match stopRef with Some stop => stop w | None => false end
      then Some (w, appended, ids)
      else
        let payload := map snd chunk in
        match addRecords with
        | Some addRecords_fn =>
            match addRecords_fn w payload with
            | None => None
            | Some (w', BatchArray res) =>
                append_chunks stopRef w' rest (appended + List.length chunk)
                  (record_batch_ids chunk res ids)
            | Some (w', BatchVoid) =>
                append_chunks stopRef w' rest (appended + List.length chunk) ids
            end
        | None =>
            match add_one_by_one w chunk ids with
            | None => None
            | Some (w', ids') =>
                append_chunks stopRef w' rest (appended + List.length chunk) ids'
            end
        end
  end.

Record AddResult := mkAdd {
  res_filledCount : nat;
  appendedCount : nat;
  recordIds : list string
}.

Definition indexed (records : list Fields) : list Pending :=
  combine (seq 0 (List.length records)) records.

(** [addRecordsInBatches]: the resulting world, the result, and the
    caller's [emptyRecordIds] array after [splice]; [None] when a call
    rejects or, for [batchSize = 0], when the chunking loop never ends. *)
Definition addRecordsInBatches (w : W) (records : list Fields) (batchSize : nat)
    (emptyRecordIds : option (list string)) (stopRef : option (W -> bool))
  : option (W * AddResult * option (list string)) :=
  let recordIdsByIndex := repeat "" (List.length records) in
  let remaining0 := indexed records in
  let '(w1, filled, remaining, ids1, empty1) :=
    match emptyRecordIds, stopRef with
    | Some empty, Some stop =>
        if Nat.ltb 0 (List.length empty) then
          let idsToUse := firstn (List.length remaining0) empty in
          let empty' := skipn (List.length remaining0) empty in
          if Nat.ltb 0 (List.length idsToUse) then
            let '(w', res) := fillEmptyRecords w idsToUse remaining0 stop in
            (w', filledCount res, remainingRecords res,
             fold_left (fun ids ir => set_nth ids (fst ir) (snd ir))
                       (filledRecordIds res) recordIdsByIndex,
             Some empty')
          else (w, 0, remaining0, recordIdsByIndex, Some empty')
        else (w, 0, remaining0, recordIdsByIndex, emptyRecordIds)
    | _, _ => (w, 0, remaining0, recordIdsByIndex, emptyRecordIds)
    end in
  if Nat.ltb 0 (List.length remaining)
     && negb (match stopRef with Some stop => stop w1 | None => false end) then
    if Nat.eqb batchSize 0 then None else
    match append_chunks stopRef w1 (chunks_of (List.length remaining) batchSize remaining)
            0 ids1 with
    | None => None
    | Some (w2, appended, ids2) => Some (w2, mkAdd filled appended ids2, empty1)
    end
  else Some (w1, mkAdd filled 0 ids1, empty1).

End WriteBack.

End Bitable.

(* ================================================================== *)
(** ** Helpers of the collection component (src/unnamed/part_006) *)

Module Helpers.
Import Js.

(** *** [buildVideoShareLink] *)

(** [normalizeLink]: [None] is an absent url. *)
Definition normalizeLink (url : option string) : string :=
  match url with
  | None => ""
  | Some u =>
      if String.eqb u "" then "" else
      let trimmed := Str.trim u in
      if String.eqb trimmed "" then "" else fst (Url.split_at_any "?" trimmed)
  end.

Definition buildVideoShareLink (shareUrl shareInfoUrl awemeId authorId : option string)
  : string :=
  let rootLink := normalizeLink shareUrl in
  if negb (String.eqb rootLink "") then rootLink else
  let shareInfoLink := normalizeLink shareInfoUrl in
  if negb (String.eqb shareInfoLink "") then shareInfoLink else
  match awemeId, authorId with
  | Some a, Some u =>
      if Commerce.present (Some a) && Commerce.present (Some u)
      then "https://www.tiktok.com/@" ++ u ++ "/video/" ++ a
      else ""
  | _, _ => ""
  end.

(** *** [ensureRequiredSelections] *)

Fixpoint obj_set {A} (kvs : list (string * A)) (k : string) (v : A) : list (string * A) :=
  match kvs with
  | [] => [(k, v)]
  | (k', v') :: r => if String.eqb k k' then (k', v) :: r else (k', v') :: obj_set r k v
  end.

Fixpoint obj_get {A} (kvs : list (string * A)) (k : string) : option A :=
  match kvs with
  | [] => None
  | (k', v) :: r => if String.eqb k k' then Some v else obj_get r k
  end.

(** [selectedFields] as its own entries, [requiredFields] as the elements
    of the [Set] in insertion order. *)
Definition ensureRequiredSelections (selectedFields : list (string * bool))
    (requiredFields : list string) : list (string * bool) :=
  if Nat.eqb (List.length requiredFields) 0 then selectedFields
  else fold_left (fun normalized fieldName => obj_set normalized fieldName true)
         requiredFields selectedFields.

(** *** [applyQuotaConsumption] *)

(** The members of the object [useQuota] returns
    (src/hooks/useQuota.ts, lines 244-250), all functions or state. *)
Definition useQuota_members : list string :=
  ["quotaInfo"; "quotaDetailsOpen"; "setQuotaDetailsOpen"; "handleQuotaHeaders";
   "handle429Error"].

(** What a name bound by destructuring the hook's result holds. *)
Inductive Binding :=
| Undefined
| Member.

Definition destructure (members : list string) (k : string) : Binding :=
  if existsb (String.eqb k) members then Member else Undefined.

(** [consumeQuotaPoints] as the component binds it. *)
Definition consumeQuotaPoints : Binding := destructure useQuota_members "consumeQuotaPoints".

(** [Math.max(x, 0)] *)
Definition max0 (x : Q) : Q := if Qle_bool 0 x then x else 0%Q.

(** [applyQuotaConsumption] with the counts passed to [consumeQuotaPoints]
    so far; [None] when the call throws ([consumeQuotaPoints] is not a
    function). [currentRemaining] is [None] for [null]. *)
Definition applyQuotaConsumption (consume : Binding) (calls : list Q)
    (currentRemaining : option Q) (count : Q) : option (option Q * list Q) :=
  if Qeq_bool count 0 || Qle_bool count 0 then Some (currentRemaining, calls)
  else
    match consume with
    | Undefined => None
    | Member =>
        let calls' := app calls [count] in
        match currentRemaining with
        | None => Some (None, calls')
        | Some r => Some (Some (max0 (r - count)), calls')
        end
    end.

End Helpers.

(* ================================================================== *)
(** ** Quota governor and the keyword collection loop *)

(** [handle429Error] of [src/hooks/useQuota.ts] and the [mainLoop] of
    [writeKeywordTikTokData] (src/unnamed/part_006, lines 904-1197, the
    loop at lines 970-1176). *)
Module Collect.
Import Js.

(** A UI message: a literal text ([setMessage(text)]) or a translation
    key with its numeric parameters ([setMessage(tr(key, params))]); the
    text parameters [table] and [remaining] are left out. *)
Inductive Message :=
| Text (s : string)
| Tr (key : string) (params : list (string * nat)).

(** The state shared by all runs: the [quotaInfo] state, the three stop
    refs and the message state. *)
Record Gov := mkGov {
  remaining : value;
  quota : value;
  keywordStop : bool;
  accountStop : bool;
  audioStop : bool;
  message : Message
}.

Definition set_message (g : Gov) (m : Message) : Gov :=
  mkGov (remaining g) (quota g) (keywordStop g) (accountStop g) (audioStop g) m.

(** A [Response]: its status, the result of [response.json()] ([None]
    when the body is not JSON), and the [X-RateLimit-Remaining] /
    [X-RateLimit-Limit] headers as [handleQuotaHeaders] reads them: [Some]
    when both are present and [parseInt] gives a number for each. *)
Record Response := mkResponse {
  status : nat;
  body : option value;
  rateLimit : option (Z * Z)
}.

Definition ok (r : Response) : bool := Nat.leb 200 (status r) && Nat.ltb (status r) 300.

Definition reset_hint : string := "次日00:00（UTC）".

(** How the [await handle429Error(response)] of the loop ends. *)
Inductive Quota429 :=
| NotQuota                (* resolves to [false] *)
| QuotaHandled (g : Gov)  (* resolves to [true], with the new shared state *)
| QuotaThrows (g : Gov).  (* rejects, with the shared state reached *)

(** [handleQuotaHeaders(response)]: [setQuotaInfo] from the headers. *)
Definition handleQuotaHeaders (g : Gov) (response : Response) : Gov :=
  match rateLimit response with
  | Some (r, l) =>
      mkGov (Num (inject_Z r)) (Num (inject_Z l)) (keywordStop g) (accountStop g)
            (audioStop g) (message g)
  | None => g
  end.

Section Governor.
Context `{Runtime}.

(** [handle429Error].  [errorData] is the JSON body, or [{}] when
    [response.json()] rejects; reading [errorData.remaining] throws when the
    body is JSON [null].  Otherwise the [setQuotaInfo] that follows
    [handleQuotaHeaders] in the same update batch fixes the [quotaInfo]
    state; [quota g] is [quotaInfo?.quota]. *)
Definition handle429Error (g : Gov) (response : Response) : Quota429 :=
  if Nat.eqb (status response) 429 then
    match body response with
    | Some Null => QuotaThrows (handleQuotaHeaders g response)
    | b =>
    let errorData := match b with Some v => v | None => Obj [] end in
    let remaining' := nullish_or (get errorData "remaining") (Num 0) in
    let quota' := nullish_or (get errorData "quota") (nullish_or (quota g) Null) in
    let fallbackQuota := nullish_or (get errorData "quota") (quota g) in
    let fallbackRemaining := nullish_or (get errorData "remaining") (Num 0) in
    let messageText :=
      if truthy (get errorData "message") then to_string (get errorData "message")
      else match fallbackQuota with
           | Num _ =>
               "今日数据点已用完（" ++ to_string fallbackRemaining ++ "/"
                 ++ to_string fallbackQuota ++ "个），将于次日00:00（UTC）自动重置"
           | _ => "今日数据点已用完，将于次日00:00（UTC）自动重置"
           end in
    QuotaHandled (mkGov remaining' quota' true true true (Text messageText))
    end
  else NotQuota.

End Governor.

(** The guards in front of each fetch of the three run kinds: the
    [while] of the keyword and account loops, and the check at the top of
    each attempt of [fetchAudioTranscript]. *)
Definition maxPages := 100.

Definition keyword_may_fetch (g : Gov) (hasMore : bool) (pageCount : nat) : bool :=
  hasMore && negb (keywordStop g) && Nat.ltb pageCount maxPages.

Definition account_may_fetch (g : Gov) (hasMore : bool) (pageCount : nat) : bool :=
  hasMore && negb (accountStop g) && Nat.ltb pageCount maxPages.

Definition audio_may_fetch (g : Gov) (aborted : bool) : bool :=
  negb (audioStop g || aborted).

(** The local variables of the keyword loop; [fetched] logs the [offset]
    of every [fetchKeywordVideos] call, in order. *)
Record KLoop := mkKLoop {
  hasMore : bool;
  offset : string;
  pageCount : nat;
  missingNextCursorOffset : option string;
  totalWritten : nat;
  existingLinks : list string;
  fetched : list string
}.

(** How one iteration of [mainLoop] ends. *)
Inductive Step :=
| Continue (g : Gov) (st : KLoop)
| Break (g : Gov) (st : KLoop)
| Throw (g : Gov) (st : KLoop).

Section Keyword.
Context `{Runtime}.

(** [new URL(s)] *)
Variable url_parse : string -> option Url.URL.
(** [buildVideoShareLink] on an item's [aweme_info]. *)
Variable shareLink : value -> string.
(** Whether [buildKeywordRecord] resolves to a record for an item. *)
Variable buildRecord : value -> bool.
(** [appendedCount + filledCount] of [addRecordsInBatches] on [n] records. *)
Variable writeBatch : nat -> nat.
(** [keywordTargetTable === 'new'] *)
Variable toNewTable : bool.
(** The search API: the response to the [k]-th call, made with [offset]. *)
Variable server : nat -> string -> Response.

Definition valid_item (item : value) : bool :=
  truthy item && truthy (get item "aweme_info")
  && truthy (get (get item "aweme_info") "author").

(** The [for (const item of validItems)] loop: the links seen so far, the
    number of records to insert, and whether it left by [break mainLoop]. *)
Fixpoint item_loop (g : Gov) (items : list value) (existing : list string) (n : nat)
  : list string * nat * bool :=
  match items with
  | [] => (existing, n, false)
  | item :: rest =>
      if keywordStop g then (existing, n, true)
      else
        let linkKey := Url.normalizeUrlKey url_parse (shareLink (get item "aweme_info")) in
        if String.eqb linkKey "" || existsb (String.eqb linkKey) existing
        then item_loop g rest existing n
        else
          let existing' := linkKey :: existing in
          if buildRecord item then item_loop g rest existing' (S n)
          else item_loop g rest existing' n
  end.

(** [nextCursorText] *)
Definition cursor_text (data : value) : string :=
  match nullish_or (get data "max_cursor") (get data "cursor") with
  | Undef | Null => ""
  | c => Str.trim (to_string c)
  end.

(** The [has_more] branch at the end of a data page. *)
Definition advance (g : Gov) (st : KLoop) (data : value) : Gov * KLoop :=
  if truthy (get data "has_more") then
    let nextCursorText := cursor_text data in
    let isMissingNextCursor :=
      String.eqb nextCursorText "" || String.eqb nextCursorText (offset st) in
    if isMissingNextCursor then
      match missingNextCursorOffset st with
      | Some o =>
          if String.eqb o (offset st) then
            (set_message g (Tr "仍未获得下一批起点，已结束当前关键词" []),
             mkKLoop false (offset st) (pageCount st) (missingNextCursorOffset st)
                     (totalWritten st) (existingLinks st) (fetched st))
          else
            (set_message g (Tr "还有更多但没有下一批起点，已重试当前批次" []),
             mkKLoop (hasMore st) (offset st) (pageCount st) (Some (offset st))
                     (totalWritten st) (existingLinks st) (fetched st))
      | None =>
          (set_message g (Tr "还有更多但没有下一批起点，已重试当前批次" []),
           mkKLoop (hasMore st) (offset st) (pageCount st) (Some (offset st))
                   (totalWritten st) (existingLinks st) (fetched st))
      end
    else
      (set_message g (Tr "已获取第 {{page}} 页数据，共 {{total}} 条"
                        [("page", S (pageCount st)); ("total", totalWritten st)]),
       mkKLoop (hasMore st) nextCursorText (S (pageCount st)) None
               (totalWritten st) (existingLinks st) (fetched st))
  else (g, mkKLoop false (offset st) (pageCount st) (missingNextCursorOffset st)
                   (totalWritten st) (existingLinks st) (fetched st)).

(** [Number] of a record count. *)
Definition count_q (n : nat) : Q := inject_Z (Z.of_nat n).

(** One iteration of [mainLoop], entered with the guard true.  After a
    batch write, [applyQuotaConsumption(remainingAfterWrite, writtenCount)]
    runs with the [consumeQuotaPoints] the component destructures from
    [useQuota()]; [remainingAfterWrite] only feeds the [remaining] text
    parameter of the messages, which [Message] leaves out, and whether the
    call throws does not depend on it. *)
Definition step (g : Gov) (st0 : KLoop) : Step :=
  let response := server (List.length (fetched st0)) (offset st0) in
  let st := mkKLoop (hasMore st0) (offset st0) (pageCount st0)
              (missingNextCursorOffset st0) (totalWritten st0) (existingLinks st0)
              (app (fetched st0) [offset st0]) in
  match handle429Error g response with
  | QuotaHandled g' => Break g' st
  | QuotaThrows g' => Throw g' st
  | NotQuota =>
      if negb (ok response) then Throw g st else
      match body response with
      | None => Throw g st
      | Some data =>
          match get data "search_item_list" with
          | Arr xs =>
              let validItems := filter valid_item xs in
              let '(existing', n, stopped) :=
                match validItems with
                | [] => (existingLinks st, 0, false)
                | _ => item_loop g validItems (existingLinks st) 0
                end in
              if stopped then
                Break g (mkKLoop (hasMore st) (offset st) (pageCount st)
                           (missingNextCursorOffset st) (totalWritten st) existing'
                           (fetched st))
              else
                let written := if Nat.eqb n 0 then 0 else writeBatch n in
                let quotaCall :=
                  if Nat.eqb n 0 then Some (None, [])
                  else Helpers.applyQuotaConsumption Helpers.consumeQuotaPoints [] None
                         (count_q written) in
                match quotaCall with
                | None =>
                    Throw g (mkKLoop (hasMore st) (offset st) (pageCount st)
                               (missingNextCursorOffset st) (totalWritten st) existing'
                               (fetched st))
                | Some _ =>
                let total := totalWritten st + written in
                let g1 :=
                  if Nat.eqb n 0 then g
                  else set_message g
                         (Tr (if toNewTable then "已写入新表 {{table}} 共 {{count}} 条"
                              else "已写入 {{count}} 条数据") [("count", total); ("used", total)]) in
                let st1 := mkKLoop (hasMore st) (offset st) (pageCount st)
                             (missingNextCursorOffset st) total existing' (fetched st) in
                if keywordStop g1 then Break g1 st1 else
                let '(g2, st2) := advance g1 st1 data in
                if keywordStop g2 then Break g2 st2 else Continue g2 st2
                end
          | _ => Break (set_message g (Tr "API 返回数据格式错误" [])) st
          end
      end
  end.

(** [mainLoop] with a bound on the number of iterations: each iteration
    either advances [pageCount], which stops the loop at [maxPages], or
    records a missing cursor, which the next iteration either clears by
    advancing or turns into the end of the loop; [2 * maxPages + 1]
    iterations therefore always suffice.  The flag tells whether the loop
    left by an exception. *)
Fixpoint main_loop (fuel : nat) (g : Gov) (st : KLoop) : Gov * KLoop * bool :=
  match fuel with
  | O => (g, st, false)
  | S f =>
      if keyword_may_fetch g (hasMore st) (pageCount st) then
        match step g st with
        | Continue g' st' => main_loop f g' st'
        | Break g' st' => (g', st', false)
        | Throw g' st' => (g', st', true)
        end
      else (g, st, false)
  end.

(** From [let totalWritten = 0] to the end of the [try] block, and its
    [catch]: the loop, then the final [setMessage]. *)
Definition run_from (fuel : nat) (g : Gov) (st : KLoop) : Gov * KLoop :=
  let '(g', st', threw) := main_loop fuel g st in
  if threw then (set_message g' (Tr "写入数据失败: {{error}}" []), st')
  else
    (set_message g'
       (Tr (if keywordStop g' then "已停止采集，成功写入 {{count}} 条数据"
            else "成功写入 {{count}} 条数据") [("count", totalWritten st'); ("used", totalWritten st')]),
     st').

Definition writeKeywordTikTokData (g : Gov) (existing : list string) : Gov * KLoop :=
  run_from (2 * maxPages + 1) g (mkKLoop true "0" 0 None 0 existing []).

End Keyword.

End Collect.

(* ================================================================== *)
(** ** Notions the statements are phrased with *)

Module Specs.
Import Js Commerce Bitable.

(** The keys a pass of [dedupeProducts] computes, from index [idx] on. *)
Fixpoint keys_from (ps : list CommerceProduct) (idx : nat) : list string :=
  match ps with
  | [] => []
  | p :: r => dedupe_key p idx :: keys_from r (S idx)
  end.

(** The product id a product is keyed by, if any. *)
Definition id_of (p : CommerceProduct) : list string :=
  match productId p with
  | Some s => if String.eqb s "" then [] else [s]
  | None => []
  end.

Definition ids (ps : list CommerceProduct) : list string := flat_map id_of ps.

(** The product id, if any, holds no [#]. *)
Definition no_hash_id (p : CommerceProduct) : bool :=
  match productId p with Some s => negb (Str.has_char "#" s) | None => true end.

(** Invariant of the [Map] built by [dedupe_loop]. *)
Definition seen_ok (seen : list (string * CommerceProduct)) : Prop :=
  NoDup (map fst seen) /\ Forall (fun kp => id_of (snd kp) = [] \/ id_of (snd kp) = [fst kp]) seen.

Section Tables.
Context {W Cell : Type} `{Table W Cell}.

(** The record-id array [ids'] differs from [ids] only at the positions [P],
    which all hold an id. *)
Definition upd (ids ids' : list string) (P : list nat) : Prop :=
  List.length ids' = List.length ids /\
  (forall j, In j P -> nth j ids' "" <> "") /\
  (forall j, ~ In j P -> nth j ids' "" = nth j ids "").

Definition id_ok (e : IdEntry) : Prop :=
  match e with
  | IdString s => s <> ""
  | IdRecord (Some s) => s <> ""
  | _ => False
  end.

(** Every append call of the table resolves, with an id for each record. *)
Definition appends_ok : Prop :=
  match addRecords with
  | Some fn => forall w payload, exists w' res,
      fn w payload = Some (w', BatchArray res) /\
      List.length res = List.length payload /\ Forall id_ok res
  | None => forall w fs, exists w' e, addRecord w fs = Some (w', e) /\ id_ok e
  end.

End Tables.

(** The dedup key the keyword loop computes for an item. *)
Definition link_key (url_parse : string -> option Url.URL) (shareLink : value -> string)
    (item : value) : string :=
  Url.normalizeUrlKey url_parse (shareLink (get item "aweme_info")).

(** The keys of [items], in order, that are not in [ex]. *)
Definition fresh_keys (url_parse : string -> option Url.URL) (shareLink : value -> string)
    (ex : list string) (items : list value) : list string :=
  filter (fun k => negb (existsb (String.eqb k) ex)) (map (link_key url_parse shareLink) items).

End Specs.

(* ================================================================== *)
(** ** Concrete inputs *)

Module Examples.
Import Js Commerce Bitable Collect.

(** A table whose cell writes and appends always succeed; the world
    counts the rows appended so far. *)
Definition demo_table : Table nat unit := {|
  setCellValue := fun w _ _ _ => (w, true);
  addRecords := Some (fun w payload =>
    Some (w + List.length payload,
          BatchArray (map (fun i => IdString ("rec" ++ Str.of_nat i))
                          (seq w (List.length payload)))));
  addRecord := fun w _ => Some (S w, IdString ("rec" ++ Str.of_nat w))
|}.

(** A table whose cell write rejects the value [false]. *)
Definition flaky_table : Table nat bool := {|
  setCellValue := fun w _ _ v => (S w, v);
  addRecords := None;
  addRecord := fun w _ => Some (S w, IdString ("rec" ++ Str.of_nat w))
|}.

Definition no_stop : nat -> bool := fun _ => false.

Definition pA := mkProduct (Some "a") None None None None None None.
Definition pT := mkProduct None (Some "t") None None None None None.
Definition pX := mkProduct (Some "t#1") None None None None None None.

(** [extra] of an anchor item, with an 18-digit [product_id]. *)
Definition long_id_json : string := "{" ++ product_id_key ++ ":123456789012345678}".
Definition long_id_item : value := Obj [("extra", Str long_id_json)].

(** The share link of an item: its [share_url]. *)
Definition demo_share (aweme : value) : string :=
  match get aweme "share_url" with Str s => s | _ => "" end.

Definition demo_gov : Gov := mkGov (Num 100) (Num 1000) false false false (Text "").

Definition demo_start : KLoop := mkKLoop true "0" 0 None 0 [] [].

(** A page with more data announced but no next cursor. *)
Definition stall_page : value :=
  Obj [("search_item_list", Arr []); ("has_more", Bool true)].

Definition stall_server (k : nat) (off : string) : Response := mkResponse 200 (Some stall_page) None.

(** The quota is exhausted: status 429 with an empty body. *)
Definition quota_server (k : nat) (off : string) : Response := mkResponse 429 (Some (Obj [])) None.

(** Status 429 with the JSON body [null] and rate-limit headers. *)
Definition quota_null_server (k : nat) (off : string) : Response :=
  mkResponse 429 (Some Null) (Some (0%Z, 1000%Z)).

Definition demo_item (i : nat) : value :=
  Obj [("aweme_info",
        Obj [("author", Obj [("uid", Str "u")]);
             ("share_url", Str ("https://www.tiktok.com/@u/video/" ++ Str.of_nat i ++ "?lang=en"))])].

Definition page1_items : list value := map demo_item (seq 0 15).

Definition page1 : value :=
  Obj [("search_item_list", Arr page1_items); ("has_more", Bool true); ("cursor", Str "10")].

Definition page2 : value := Obj [("search_item_list", Arr []); ("has_more", Bool false)].

Definition two_page_server (k : nat) (off : string) : Response :=
  match k with 0 => mkResponse 200 (Some page1) None | _ => mkResponse 200 (Some page2) None end.

(** The keys of the first five items of [page1], already in the table. *)
Definition seen_keys : list string :=
  map (Specs.link_key Url.parse_basic demo_share) (firstn 5 page1_items).

End Examples.

(* ================================================================== *)
(** ** Product links and reason labels (src/services/commerceDetection.ts) *)

Module CommerceLabels.
Import Js Commerce.

(** A line terminator at the head of a string: LF, CR, or U+2028/U+2029
    in their UTF-8 encoding; [.] in a regular expression matches any
    code point but these. *)
Definition line_terminator_at (s : string) : bool :=
  match s with
  | String c r =>
      Nat.eqb (nat_of_ascii c) 10 || Nat.eqb (nat_of_ascii c) 13 ||
      (Nat.eqb (nat_of_ascii c) 226 &&
       match r with
       | String c1 (String c2 _) =>
           Nat.eqb (nat_of_ascii c1) 128 &&
           (Nat.eqb (nat_of_ascii c2) 168 || Nat.eqb (nat_of_ascii c2) 169)
       | _ => false
       end)
  | EmptyString => false
  end.

(** [.] matches at the head of [s]. *)
Definition any_char_at (s : string) : bool :=
  match s with
  | EmptyString => false
  | _ => negb (line_terminator_at s)
  end.

(** [/^https?:\/\/.+/.test(str)] *)
Definition isHttpUrl (str : string) : bool :=
  (Str.starts_with "https://" str && any_char_at (substring 8 (String.length str) str))
  || (Str.starts_with "http://" str && any_char_at (substring 7 (String.length str) str)).

Definition buildProductLink (productId : string) : string :=
  "https://www.tiktok.com/shop/pdp/" ++ productId.

Definition pickProductLink (product : CommerceProduct) : string :=
  match link product with
  | Some l => if present (Some l) && isHttpUrl l then l else
      match productId product with
      | Some p => if present (Some p) then buildProductLink p else ""
      | None => ""
      end
  | None =>
      match productId product with
      | Some p => if present (Some p) then buildProductLink p else ""
      | None => ""
      end
  end.

(** The [translations] object literal of [translateCommerceReason]. *)
Definition translations : list (string * string) :=
  [("anchor:anchor_complex_shop", "商品锚点(复合店铺)");
   ("anchor:anchor_shop", "商品锚点(店铺)");
   ("anchor:anchor_product", "商品锚点(产品)");
   ("anchor:anchor_commerce", "商品锚点(电商)");
   ("bottom_products", "底部商品栏");
   ("products_info", "商品信息列表");
   ("right_products", "右侧商品栏");
   ("commerce_goods_flag", "电商商品标记");
   ("commerce_info_commission", "佣金信息")].

(** The members an object literal inherits from [Object.prototype]. *)
Definition object_prototype_members : list string :=
  ["constructor"; "__proto__"; "hasOwnProperty"; "isPrototypeOf";
   "propertyIsEnumerable"; "toString"; "valueOf"; "toLocaleString";
   "__defineGetter__"; "__defineSetter__"; "__lookupGetter__"; "__lookupSetter__"].

(** [translations[reason]]: an own string, an inherited member (a
    function, hence truthy), or [undefined]. *)
Inductive Lookup :=
| Own (s : string)
| Inherited (member : string)
| Missing.

Fixpoint assoc_str (kvs : list (string * string)) (k : string) : option string :=
  match kvs with
  | [] => None
  | (k', v) :: r => if String.eqb k k' then Some v else assoc_str r k
  end.

Definition lookup_translation (reason : string) : Lookup :=
  match assoc_str translations reason with
  | Some s => Own s
  | None =>
      if existsb (String.eqb reason) object_prototype_members then Inherited reason
      else Missing
  end.

(** What [translateCommerceReason] returns: a string, or the inherited
    [Object.prototype] member [translations[reason]] when that is what
    [translations[reason] || ...] evaluates to. *)
Inductive Translation :=
| TText (s : string)
| TInherited (member : string).

Definition translateCommerceReason (reason : string) : Translation :=
  if Str.starts_with "commerce_info_branded_type:" reason then TText "品牌内容标记"
  else if Str.starts_with "anchor:" reason then
    let anchorType := substring 7 (String.length reason) reason in
    match lookup_translation reason with
    | Own s => if String.eqb s "" then TText ("商品锚点(" ++ anchorType ++ ")") else TText s
    | Inherited m => TInherited m
    | Missing => TText ("商品锚点(" ++ anchorType ++ ")")
    end
  else
    match lookup_translation reason with
    | Own s => if String.eqb s "" then TText reason else TText s
    | Inherited m => TInherited m
    | Missing => TText reason
    end.

End CommerceLabels.

(* ================================================================== *)
(** ** Cell values and table scans (src/services/bitableApi.ts) *)

Module Cells.
Import Js.

(** ['k' in obj] for an object with own keys [kvs]: no key the code asks
    for ([link], [text]) is inherited by objects or arrays. *)
Definition has_key (kvs : list (string * value)) (k : string) : bool :=
  existsb (fun kv => String.eqb (fst kv) k) kvs.

(** [!v || (typeof v === 'string' && v.trim() === '')] *)
Definition blank (v : value) : bool :=
  negb (truthy v) || match v with Str s => String.eqb (Str.trim s) "" | _ => false end.

(** The [link] / [text] checks on an object: [None] when it has neither key. *)
Definition link_text_empty (kvs : list (string * value)) : option bool :=
  if has_key kvs "link" then Some (blank (assoc kvs "link"))
  else if has_key kvs "text" then Some (blank (assoc kvs "text"))
  else None.

(** [isCellValueEmpty]; an array has no own [link] or [text] key, so the
    check on [value] itself only applies to plain objects. *)
Definition isCellValueEmpty (v : value) : bool :=
  match v with
  | Undef | Null => true
  | Str s => String.eqb (Str.trim s) ""
  | Arr [] => true
  | Arr (Obj kvs :: _) =>
      match link_text_empty kvs with Some b => b | None => false end
  | Arr _ => false
  | Obj kvs =>
      match link_text_empty kvs with Some b => b | None => false end
  | Bool _ | Num _ => false
  end.

(** [isRecordEmpty]: [None] is an absent [fields] object. *)
Definition isRecordEmpty (fields : option (list (string * value))) : bool :=
  match fields with
  | None => true
  | Some kvs => forallb (fun kv => isCellValueEmpty (snd kv)) kvs
  end.

Section Text.
Context `{Runtime}.

(** [extractTextFromCell]: a string, except for a plain object whose
    [text] (or [link]) is a truthy non-string, which [obj.text || obj.link || '']
    returns as it is. *)
Definition extractTextFromCell (cellValue : value) : value :=
  if negb (truthy cellValue) then Str "" else
  match cellValue with
  | Str s => Str s
  | Num q => Str (number_to_string q)
  | Arr (first :: _) =>
      match first with
      | Obj kvs =>
          match assoc kvs "text" with
          | Str t => if has_key kvs "text" then Str t else Str (to_string first)
          | _ =>
              match assoc kvs "link" with
              | Str l => if has_key kvs "link" then Str l else Str (to_string first)
              | _ => Str (to_string first)
              end
          end
      | _ => Str (to_string first)
      end
  | Arr [] => or_ Undef (or_ Undef (Str ""))
  | Obj kvs => or_ (assoc kvs "text") (or_ (assoc kvs "link") (Str ""))
  | _ => Str ""
  end.

End Text.

End Cells.

Module Scan.
Import Js Cells.

(** An [IRecord] as [getRecords] lists it. *)
Record RecordItem := mkRecordItem {
  recordId : string;
  fields : option (list (string * value))
}.

(** What [table.getRecords] resolves to. *)
Record Page := mkPage {
  records : option (list RecordItem);
  hasMore : bool;
  pageToken : option string
}.

Record FieldMeta := mkFieldMeta {
  id : string;
  name : string
}.

(** How an [async] scan ends: resolved with the world reached and a
    value, rejected, or still looping after the given number of
    iterations. *)
Inductive Outcome (W A : Type) :=
| Done (w : W) (a : A)
| Rejected
| OutOfFuel.
Arguments Done {W A} w a.
Arguments Rejected {W A}.
Arguments OutOfFuel {W A}.

Definition pageSize : nat := 200.

Definition page_records (result : Page) : list RecordItem :=
  match records result with Some rs => rs | None => [] end.

(** [record.fields?.[fid]] *)
Definition cell_of (record : RecordItem) (fid : string) : value :=
  match fields record with Some kvs => assoc kvs fid | None => Undef end.

(** [keys.add(key)] on a [Set] in insertion order. *)
Definition set_add (k : string) (keys : list string) : list string :=
  if existsb (String.eqb k) keys then keys else app keys [k].

Section Scans.
Context {W : Type}.
(** [table.getRecords({ pageSize, pageToken })]: [None] when it rejects. *)
Variable getRecords : W -> nat -> option string -> option (W * Page).
(** [table.getFieldMetaList()] *)
Variable getFieldMetaList : W -> option (W * list FieldMeta).

(** The [while (hasMore)] loop of [getEmptyRecords], entered with
    [hasMore = true]. *)
Fixpoint empty_loop (fuel : nat) (stop : W -> bool) (maxScan : nat) (w : W)
    (pageToken : option string) (scanned : nat) (emptyRecordIds : list string)
  : Outcome W (list string) :=
  match fuel with
  | O => OutOfFuel
  | S f =>
      if stop w then Done w emptyRecordIds else
      match getRecords w pageSize pageToken with
      | None => Rejected
      | Some (w', result) =>
          let currentRecords := page_records result in
          let scanned' := scanned + List.length currentRecords in
          let emptyRecordIds' :=
            app emptyRecordIds
              (map recordId (filter (fun r => isRecordEmpty (fields r)) currentRecords)) in
          if hasMore result && Nat.ltb scanned' maxScan
          then empty_loop f stop maxScan w' (Scan.pageToken result) scanned' emptyRecordIds'
          else Done w' emptyRecordIds'
      end
  end.

Definition getEmptyRecords (fuel : nat) (w : W) (stopRef : option (W -> bool))
    (maxScan : option nat) : Outcome W (list string) :=
  let maxScan := match maxScan with Some m => m | None => 500 end in
  let stop := match stopRef with Some s => s | None => fun _ => false end in
  empty_loop fuel stop maxScan w None 0 [].

Context `{Runtime}.
(** The [normalizer] applied to what [extractTextFromCell] returns: [None]
    when it throws. *)
Variable normalizer : value -> option string.

(** The [for (const record of records)] loop of [collectExistingKeys]. *)
Fixpoint add_keys (fid : string) (rs : list RecordItem) (keys : list string)
  : option (list string) :=
  match rs with
  | [] => Some keys
  | record :: rest =>
      match normalizer (extractTextFromCell (cell_of record fid)) with
      | None => None
      | Some key =>
          add_keys fid rest (if String.eqb key "" then keys else set_add key keys)
      end
  end.

(** The [while (hasMore && scanned < maxScan)] loop of [collectExistingKeys]. *)
Fixpoint keys_loop (fuel : nat) (fid : string) (maxScan : nat) (w : W) (more : bool)
    (pageToken : option string) (scanned : nat) (keys : list string)
  : Outcome W (list string) :=
  match fuel with
  | O => OutOfFuel
  | S f =>
      if more && Nat.ltb scanned maxScan then
        match getRecords w pageSize pageToken with
        | None => Rejected
        | Some (w', result) =>
            let rs := page_records result in
            let scanned' := scanned + List.length rs in
            match add_keys fid rs keys with
            | None => Rejected
            | Some keys' =>
                keys_loop f fid maxScan w' (hasMore result && Nat.ltb scanned' maxScan)
                  (Scan.pageToken result) scanned' keys'
            end
        end
      else Done w keys
  end.

Definition collectExistingKeys (fuel : nat) (w : W) (fieldName : string)
    (maxScan : option nat) : Outcome W (list string) :=
  let maxScan := match maxScan with Some m => m | None => 5000 end in
  match getFieldMetaList w with
  | None => Rejected
  | Some (w1, fieldMetaList) =>
      match find (fun meta => String.eqb (name meta) fieldName) fieldMetaList with
      | None => Done w1 []
      | Some targetMeta => keys_loop fuel (id targetMeta) maxScan w1 true None 0 []
      end
  end.

End Scans.

End Scan.


(* ================================================================== *)
(** ** Account keys (src/utils/helpTip.ts) *)

Module Account.

(** [url.hostname]: the host without its port ([[...]] for IPv6). *)
Fixpoint through_bracket (s : string) : string :=
  match s with
  | EmptyString => EmptyString
  | String c r => if Ascii.eqb c "]" then String c EmptyString else String c (through_bracket r)
  end.

Definition hostname (u : Url.URL) : string :=
  match Url.host u with
  | String "[" _ => through_bracket (Url.host u)
  | h => fst (Url.split_at_any ":" h)
  end.

(** [s.replace(/^@/, '')] *)
Definition strip_at (s : string) : string :=
  match s with String "@" r => r | _ => s end.

(** [s.replace(/^https?:\/\//, '')] *)
Definition strip_http (s : string) : string :=
  if Str.starts_with "https://" s then substring 8 (String.length s) s
  else if Str.starts_with "http://" s then substring 7 (String.length s) s
  else s.

Fixpoint take_non_slash (s : string) : string :=
  match s with
  | String c r => if Ascii.eqb c "/" then EmptyString else String c (take_non_slash r)
  | EmptyString => EmptyString
  end.

(** [s.match(/@([^/]+)/)?.[1]]: the leftmost [@] followed by a character
    other than [/], and the longest run of such characters after it. *)
Fixpoint at_capture (s : string) : option string :=
  match s with
  | EmptyString => None
  | String c r =>
      if Ascii.eqb c "@" then
        match take_non_slash r with
        | EmptyString => at_capture r
        | cap => Some cap
        end
      else at_capture r
  end.

Definition account_prefix : string := "https://www.tiktok.com/@".

Section Keys.
(** [new URL(s)]: [None] when it throws. *)
Variable url_parse : string -> option Url.URL.

Definition toAccountUrl (username : string) : string :=
  Str.toLowerCase (account_prefix ++ username).

Definition normalizeAccountKey (raw : string) : string :=
  let input := Str.trim raw in
  if String.eqb input "" then "" else
  let cleaned := strip_at input in
  let parsed :=
    if Str.includes cleaned "tiktok.com/" then
      match url_parse cleaned with
      | Some u => Some u
      | None => url_parse ("https://" ++ strip_http cleaned)
      end
    else None in
  match parsed with
  | Some u =>
      if Str.includes (Str.toLowerCase (hostname u)) "tiktok.com" then
        match at_capture (Url.pathname u) with
        | Some m => toAccountUrl m
        | None => ""
        end
      else
        let name := strip_at cleaned in
        if String.eqb name "" then "" else toAccountUrl name
  | None =>
      let name := strip_at cleaned in
      if String.eqb name "" then "" else toAccountUrl name
  end.

Definition extractAccountName (raw : string) : string :=
  let normalized := normalizeAccountKey raw in
  if String.eqb normalized "" then "" else
  match url_parse normalized with
  | Some url => match at_capture (Url.pathname url) with Some m => m | None => "" end
  | None => ""
  end.

End Keys.

End Account.

(* ================================================================== *)
(** ** Auxiliary predicates of the proofs *)

Module ExtraSpecs.
Import Js Commerce Specs Collect.

(** *** Product ids and detection reasons *)

(** A string of decimal digits. *)
Definition all_digits (d : string) : Prop :=
  Forall (fun c => is_digit c = true) (list_ascii_of_string d).

Fixpoint digits_only (d : string) : bool :=
  match d with
  | EmptyString => true
  | String c r => is_digit c && digits_only r
  end.

Section Aweme.
Context `{Runtime}.

(** Every product gathered so far passes the [prod.productId || prod.title
    || prod.link] filter. *)
Definition acc_ok (acc : list CommerceProduct * list string) : Prop :=
  Forall (fun p => keep_product p = true) (fst acc).

(** The reason codes the detection pushes. *)
Definition reason_shape (r : string) : Prop :=
  (exists x, r = "anchor:" ++ x) \/
  In r ["bottom_products"; "products_info"; "right_products"; "commerce_goods_flag";
        "commerce_info_commission"] \/
  (exists x, r = "commerce_info_branded_type:" ++ x).

Definition reasons_ok (acc : list CommerceProduct * list string) : Prop :=
  Forall reason_shape (snd acc).

End Aweme.

(** Every key of the dedup map is the product's own id or a fallback key,
    which holds a [#]. *)
Definition key_inv (seen : list (string * CommerceProduct)) : Prop :=
  Forall (fun kp => id_of (snd kp) = [fst kp] \/ Str.has_char "#" (fst kp) = true) seen.

(** *** The keyword loop *)

(** The loop state an iteration ends in. *)
Definition step_state (s : Step) : KLoop :=
  match s with Continue _ st | Break _ st | Throw _ st => st end.

(** [ex'] is [ex] with non-empty links in front, and stays duplicate-free. *)
Definition grows (ex ex' : list string) : Prop :=
  exists added, ex' = app added ex /\ ~ In "" added /\ (NoDup ex -> NoDup ex').

(** Whether the current offset may still stall once before the loop ends. *)
Definition stall_credit (st : KLoop) : nat :=
  match missingNextCursorOffset st with
  | Some o => if String.eqb o (offset st) then 0 else 1
  | None => 1
  end.

(** Iterations the keyword loop may still run: two per page left, and
    one more unless the current offset has already stalled once. *)
Definition budget (g : Gov) (st : KLoop) : nat :=
  if keyword_may_fetch g (hasMore st) (pageCount st)
  then 2 * (maxPages - pageCount st) + stall_credit st else 0.

(** *** Account handles *)

(** Characters of a TikTok handle: ASCII letters, digits, [_] and [.]. *)
Definition is_handle_char (c : ascii) : bool :=
  let n := nat_of_ascii c in
  (Nat.leb 48 n && Nat.leb n 57) || (Nat.leb 65 n && Nat.leb n 90)
  || (Nat.leb 97 n && Nat.leb n 122) || Nat.eqb n 95 || Nat.eqb n 46.

Fixpoint all_handle (s : string) : bool :=
  match s with
  | EmptyString => true
  | String c r => is_handle_char c && all_handle r
  end.

(** Strings without white space. *)
Fixpoint no_ws (s : string) : bool :=
  match s with
  | EmptyString => true
  | String c r => negb (Str.is_ws c) && no_ws r
  end.

End ExtraSpecs.

Module ExtraExamples.
Import Js Cells Scan.

(** A table of records [r0], [r1], ...: page [w] holds the record [rw],
    whose [fid] cell is empty for even [w] and the text [kw] for odd [w];
    [hasMore] is always true. *)
Definition scan_pages (w : nat) (size : nat) (tok : option string) : option (nat * Page) :=
  Some (S w,
        mkPage (Some [mkRecordItem ("r" ++ Str.of_nat w)
                        (Some (if Nat.even w then []
                               else [("fid", Str ("k" ++ Str.of_nat w))]))])
               true None).

(** A table whose pages are all empty while announcing more data. *)
Definition empty_pages (w : nat) (size : nat) (tok : option string) : option (nat * Page) :=
  Some (w, mkPage (Some []) true None).

(** One field, [link], with id [fid]. *)
Definition scan_meta (w : nat) : option (nat * list FieldMeta) :=
  Some (w, [mkFieldMeta "fid" "link"]).

(** A key normalizer that lower-cases text and throws on anything else. *)
Definition scan_normalizer (v : value) : option string :=
  match v with Str s => Some (Str.toLowerCase s) | _ => None end.

(** An item flagged with [has_commerce_goods]. *)
Definition goods_aweme : value := Obj [("has_commerce_goods", Bool true)].

End ExtraExamples.

Module CommerceFacts.
Import Js Commerce Specs.

Lemma has_char_app c a b :
  Str.has_char c (a ++ b) = Str.has_char c a || Str.has_char c b.
Proof.
  induction a as [|d a IH]; simpl; [reflexivity|].
  rewrite IH. apply orb_assoc.
Qed.

Lemma of_nat_no_hash n : Str.has_char "#" (Str.of_nat n) = false.
Proof.
  unfold Str.of_nat. generalize (Nat.to_uint n) as u.
  induction u; simpl; try rewrite IHu; reflexivity.
Qed.

Lemma of_nat_inj i j : Str.of_nat i = Str.of_nat j -> i = j.
Proof.
  unfold Str.of_nat. intro E.
  apply (f_equal NilEmpty.uint_of_string) in E.
  rewrite !NilEmpty.usu in E. injection E as E.
  now apply DecimalNat.Unsigned.to_uint_inj.
Qed.

(** The text after the last [#] of a fallback key is its index. *)
Lemma hash_suffix_inj t1 t2 d1 d2 :
  Str.has_char "#" d1 = false -> Str.has_char "#" d2 = false ->
  t1 ++ String "#" d1 = t2 ++ String "#" d2 -> d1 = d2.
Proof.
  intros H1 H2. revert t2.
  induction t1 as [|c t1 IH]; intros [|c' t2] E; simpl in E.
  - now injection E.
  - injection E as <- E. subst d1. rewrite has_char_app in H1. simpl in H1.
    now rewrite orb_true_r in H1.
  - injection E as -> E. subst d2. rewrite has_char_app in H2. simpl in H2.
    now rewrite orb_true_r in H2.
  - injection E as _ E. now apply (IH t2).
Qed.

Lemma map_has_app k a b : map_has k (a ++ b) = map_has k a || map_has k b.
Proof.
  induction a as [|[k' p] a IH]; simpl; [reflexivity|].
  rewrite IH. apply orb_assoc.
Qed.

Lemma map_has_In k s : map_has k s = true <-> In k (map fst s).
Proof.
  induction s as [|[k' p] s IH]; simpl; [split; easy|].
  rewrite orb_true_iff, String.eqb_eq, IH. split; intros [H|H]; auto.
Qed.

Lemma loop_all_fresh ps idx seen :
  (forall k, In k (keys_from ps idx) -> map_has k seen = false) ->
  NoDup (keys_from ps idx) ->
  map snd (dedupe_loop ps idx seen) = app (map snd seen) ps.
Proof.
  revert idx seen. induction ps as [|p r IH]; intros idx seen Hf Hn; simpl.
  - now rewrite app_nil_r.
  - simpl in Hf, Hn. inversion Hn as [|? ? Hnotin Hn']; subst.
    rewrite (Hf _ (or_introl eq_refl)).
    rewrite IH; auto.
    + rewrite map_app, <- app_assoc. reflexivity.
    + intros k Hk. rewrite map_has_app, Hf by auto. simpl.
      destruct (String.eqb k (dedupe_key p idx)) eqn:E; [|reflexivity].
      apply String.eqb_eq in E. subst. contradiction.
Qed.

Lemma in_keys_from k ps idx :
  In k (keys_from ps idx) ->
  In k (ids ps) \/ exists t j, idx <= j /\ k = t ++ String "#" (Str.of_nat j).
Proof.
  revert idx. induction ps as [|p r IH]; intros idx H; simpl in H; [contradiction|].
  destruct H as [<-|H].
  - unfold dedupe_key, ids; simpl. unfold id_of.
    destruct (productId p) as [s|]; [destruct (String.eqb s "")|];
      try (right; eexists _, idx; split; [lia|reflexivity]).
    left. now left.
  - destruct (IH _ H) as [Hi|(t & j & Hj & ->)].
    + left. unfold ids in *; simpl. apply in_or_app. now right.
    + right. exists t, j. split; [lia|reflexivity].
Qed.

Lemma ids_no_hash k ps :
  Forall (fun p => no_hash_id p = true) ps -> In k (ids ps) ->
  Str.has_char "#" k = false.
Proof.
  intros HF Hk. unfold ids in Hk. apply in_flat_map in Hk as (p & Hp & Hk).
  rewrite Forall_forall in HF. specialize (HF p Hp).
  unfold id_of, no_hash_id in *. destruct (productId p) as [s|]; [|contradiction].
  destruct (String.eqb s ""); [contradiction|]. destruct Hk as [<-|[]].
  now apply negb_true_iff.
Qed.

Lemma keys_from_nodup ps idx :
  NoDup (ids ps) -> Forall (fun p => no_hash_id p = true) ps ->
  NoDup (keys_from ps idx).
Proof.
  revert idx. induction ps as [|p r IH]; intros idx Hn HF; simpl; [constructor|].
  inversion HF as [|? ? Hp HF']; subst.
  assert (Hr : NoDup (ids r)).
  { unfold ids in Hn; simpl in Hn. now apply NoDup_app_remove_l in Hn. }
  constructor; [|now apply IH].
  intro Hin. apply in_keys_from in Hin as [Hi|(t & j & Hj & E)].
  - unfold dedupe_key in Hi. unfold ids in Hn; simpl in Hn. unfold id_of in Hn.
    destruct (productId p) as [s|] eqn:Ep; [destruct (String.eqb s "")|].
    + pose proof (ids_no_hash _ _ HF' Hi) as Hh.
      rewrite has_char_app in Hh. simpl in Hh. now rewrite orb_true_r in Hh.
    + simpl in Hn. inversion Hn; subst. contradiction.
    + pose proof (ids_no_hash _ _ HF' Hi) as Hh.
      rewrite has_char_app in Hh. simpl in Hh. now rewrite orb_true_r in Hh.
  - unfold dedupe_key in E. unfold no_hash_id in Hp.
    assert (Hfb : forall t0, t0 ++ String "#" (Str.of_nat idx) =
                             t ++ String "#" (Str.of_nat j) -> False).
    { intros t0 E0. apply hash_suffix_inj in E0; try apply of_nat_no_hash.
      apply of_nat_inj in E0. lia. }
    destruct (productId p) as [s|]; [destruct (String.eqb s "")|].
    + exact (Hfb _ E).
    + subst s. rewrite has_char_app in Hp. simpl in Hp.
      rewrite orb_true_r in Hp. discriminate.
    + exact (Hfb _ E).
Qed.

Lemma dedupe_loop_ok ps idx seen : seen_ok seen -> seen_ok (dedupe_loop ps idx seen).
Proof.
  revert idx seen. induction ps as [|p r IH]; intros idx seen [Hn HF]; simpl; [now split|].
  apply IH. destruct (map_has (dedupe_key p idx) seen) eqn:E; [now split|].
  split.
  - rewrite map_app. simpl. apply NoDup_app; auto using NoDup_cons, NoDup_nil.
    + intros x Hx [<-|[]]. apply map_has_In in Hx. congruence.
  - apply Forall_app. split; [exact HF|]. constructor; [|constructor]. simpl.
    unfold id_of, dedupe_key. destruct (productId p) as [s|]; auto.
    destruct (String.eqb s ""); auto.
Qed.

Lemma seen_ok_ids seen : seen_ok seen -> NoDup (ids (map snd seen)).
Proof.
  induction seen as [|[k p] s IH]; intros [Hn HF]; simpl; [constructor|].
  inversion Hn as [|? ? Hk Hn']; subst. inversion HF as [|? ? Hp HF']; subst.
  unfold ids in *; simpl. simpl in Hp.
  assert (Hsub : forall x, In x (flat_map id_of (map snd s)) -> In x (map fst s)).
  { clear - HF'. induction s as [|[k' p'] s IH]; simpl; [easy|].
    inversion HF' as [|? ? Hp' HF'']; subst. simpl in Hp'.
    intros x Hx. apply in_app_or in Hx as [Hx|Hx].
    - destruct Hp' as [E|E]; rewrite E in Hx; [contradiction|].
      destruct Hx as [<-|[]]. now left.
    - right. now apply IH. }
  destruct Hp as [-> | ->]; simpl.
  - now apply IH.
  - constructor; [|now apply IH]. intro Hx. apply Hk, Hsub, Hx.
Qed.

Lemma dedupe_loop_sub p ps idx seen :
  In p (map snd (dedupe_loop ps idx seen)) -> In p (map snd seen) \/ In p ps.
Proof.
  revert idx seen. induction ps as [|q r IH]; intros idx seen H; simpl in *; auto.
  destruct (IH _ _ H) as [H'|H']; [|auto].
  destruct (map_has (dedupe_key q idx) seen); auto.
  rewrite map_app in H'. apply in_app_or in H' as [H'|[<-|[]]]; auto.
Qed.

Lemma set_insert_all_nil xs seen : set_insert_all xs seen = [] <-> xs = [] /\ seen = [].
Proof.
  revert seen. induction xs as [|x r IH]; intro seen; simpl; [tauto|].
  rewrite IH. split; [|intros [? _]; discriminate].
  intros [_ E]. destruct (existsb (String.eqb x) seen) eqn:Ex.
  - subst. discriminate.
  - destruct seen; discriminate.
Qed.

Lemma ltb_length_nonnil {A} (l : list A) : Nat.ltb 0 (List.length l) = true <-> l <> [].
Proof. destruct l; simpl; split; congruence || easy. Qed.

End CommerceFacts.

Module BitableFacts.
Import Bitable Specs.

Section Facts.
Context {W Cell : Type} `{Table W Cell}.

Lemma set_nth_length l i x : List.length (set_nth l i x) = List.length l.
Proof. revert i; induction l; intros [|i]; simpl; auto. Qed.

Lemma nth_set_nth l i x j :
  i < List.length l -> nth j (set_nth l i x) "" = if Nat.eqb i j then x else nth j l "".
Proof.
  revert i j; induction l as [|y l IH]; intros [|i] [|j] Hi; simpl in *; try lia; auto.
  rewrite IH by lia. reflexivity.
Qed.

Lemma write_fields_ok stop w r fs :
  (forall w, stop w = false) ->
  (forall w f r v, snd (setCellValue w f r v) = true) ->
  exists w', write_fields stop w r fs = (w', true).
Proof.
  intros Hs Hc. revert w. induction fs as [|[f v] fs IH]; intro w; simpl; eauto.
  rewrite Hs. specialize (Hc w f r v). destruct (setCellValue w f r v) as [w' ok].
  simpl in Hc. subst. apply IH.
Qed.

Lemma fill_loop_all_ok stop w ids rem filled fids :
  (forall w, stop w = false) ->
  (forall w f r v, snd (setCellValue w f r v) = true) ->
  List.length ids <= List.length rem ->
  exists w', fill_loop stop w ids rem filled fids =
    (w', mkFill (filled + List.length ids) (skipn (List.length ids) rem)
           (app fids (combine (map fst (firstn (List.length ids) rem)) ids))).
Proof.
  intros Hs Hc. revert w rem filled fids.
  induction ids as [|id ids IH]; intros w rem filled fids Hl; simpl.
  - rewrite Nat.add_0_r, app_nil_r. eauto.
  - rewrite Hs. destruct rem as [|r rem]; simpl in Hl; [lia|].
    destruct (write_fields_ok stop w id (snd r) Hs Hc) as [w' ->].
    destruct (IH w' rem (S filled) (app fids [(fst r, id)])) as [w'' E]; [lia|].
    exists w''. rewrite E. simpl. rewrite <- app_assoc, Nat.add_succ_r. reflexivity.
Qed.

Lemma firstn_indexed {A} k a (l : list A) :
  k <= List.length l ->
  firstn k (combine (seq a (List.length l)) l) = combine (seq a k) (firstn k l).
Proof.
  revert a l; induction k as [|k IH]; intros a [|x l] Hk; simpl in *; try lia; auto.
  f_equal. apply IH. lia.
Qed.

Lemma skipn_indexed {A} k a (l : list A) :
  k <= List.length l ->
  skipn k (combine (seq a (List.length l)) l) =
  combine (seq (a + k) (List.length l - k)) (skipn k l).
Proof.
  revert a l; induction k as [|k IH]; intros a [|x l] Hk; simpl in *; try lia.
  - reflexivity.
  - now rewrite Nat.add_0_r.
  - rewrite IH by lia. f_equal. f_equal. lia.
Qed.

Lemma map_fst_combine_seq {A} a n (l : list A) :
  List.length l = n -> map fst (combine (seq a n) l) = seq a n.
Proof.
  revert a l; induction n as [|n IH]; intros a [|x l] Hl; simpl in *; try lia; auto.
  f_equal. apply IH. lia.
Qed.

Lemma fold_set_nth a xs l :
  a + List.length xs <= List.length l ->
  let r := fold_left (fun ids ir => set_nth ids (fst ir) (snd ir))
             (combine (seq a (List.length xs)) xs) l in
  List.length r = List.length l /\
  forall j, nth j r "" =
    if Nat.leb a j && Nat.ltb j (a + List.length xs) then nth (j - a) xs "" else nth j l "".
Proof.
  revert a l; induction xs as [|x xs IH]; intros a l Hl; simpl.
  - split; [reflexivity|]. intro j. rewrite Nat.add_0_r.
    destruct (Nat.leb_spec a j), (Nat.ltb_spec j a); simpl; try reflexivity; lia.
  - simpl in Hl. destruct (IH (S a) (set_nth l a x)) as [IHl IHn];
      [rewrite set_nth_length; lia|].
    split; [now rewrite IHl, set_nth_length|].
    intro j. rewrite IHn, nth_set_nth by lia.
    destruct (Nat.eqb_spec a j) as [->|Hne].
    + destruct (Nat.leb_spec (S j) j); [lia|].
      rewrite Nat.leb_refl, Nat.sub_diag.
      destruct (Nat.ltb_spec j (j + S (List.length xs))); [|lia]. reflexivity.
    + destruct (Nat.leb_spec (S a) j), (Nat.leb_spec a j); try lia;
        cbn [andb].
      * replace (j - a) with (S (j - S a)) by lia.
        replace (S a + List.length xs) with (a + S (List.length xs)) by lia.
        destruct (Nat.ltb j (a + S (List.length xs))); reflexivity.
      * reflexivity.
Qed.


Lemma upd_refl ids : upd ids ids [].
Proof. split; [reflexivity|split; [intros j []|reflexivity]]. Qed.

Lemma upd_trans a b c S1 S2 : upd a b S1 -> upd b c S2 -> upd a c (app S1 S2).
Proof.
  intros (L1 & N1 & U1) (L2 & N2 & U2). split; [congruence|]. split.
  - intros j Hj. destruct (in_dec Nat.eq_dec j S2) as [H2|H2]; [now apply N2|].
    rewrite U2 by assumption. apply N1. apply in_app_or in Hj as [?|?]; tauto.
  - intros j Hj. rewrite U2, U1; auto; intro; apply Hj, in_or_app; auto.
Qed.

Lemma upd_set ids i s : i < List.length ids -> s <> "" -> upd ids (set_nth ids i s) [i].
Proof.
  intros Hi Hs. split; [apply set_nth_length|]. split.
  - intros j [<-|[]]. rewrite nth_set_nth, Nat.eqb_refl; auto.
  - intros j Hj. rewrite nth_set_nth by auto.
    destruct (Nat.eqb_spec i j); [subst; exfalso; apply Hj; now left|reflexivity].
Qed.



Lemma record_batch_ids_upd (chunk : list (@Pending Cell)) res ids :
  List.length res = List.length chunk -> Forall id_ok res ->
  Forall (fun p => fst p < List.length ids) chunk ->
  upd ids (record_batch_ids chunk res ids) (map fst chunk).
Proof.
  revert res ids. induction chunk as [|t chunk IH]; intros [|e res] ids Hl Hok Hi;
    simpl in *; try lia; [apply upd_refl|].
  inversion Hok as [|? ? He Hok']; subst. inversion Hi as [|? ? Ht Hi']; subst.
  assert (Hset : forall s, s <> "" -> upd ids (set_nth ids (fst t) s) [fst t])
    by (intros; now apply upd_set).
  assert (Hcase : exists s, s <> "" /\
     (match e with
      | IdString s0 => if String.eqb s0 "" then ids else set_nth ids (fst t) s0
      | IdRecord (Some s0) => set_nth ids (fst t) s0
      | _ => ids end) = set_nth ids (fst t) s).
  { unfold id_ok in He. destruct e as [s| [s|] |]; try contradiction; exists s;
      [rewrite (proj2 (String.eqb_neq s "") He)|]; auto. }
  destruct Hcase as (s & Hs & ->).
  change (fst t :: map fst chunk) with (app [fst t] (map fst chunk)).
  apply upd_trans with (b := set_nth ids (fst t) s); [now apply Hset|].
  apply IH; auto; try lia.
  eapply Forall_impl; [|exact Hi']; intros; simpl; rewrite set_nth_length; auto.
Qed.

Lemma add_one_by_one_upd w (chunk : list (@Pending Cell)) ids :
  addRecords = None -> appends_ok ->
  Forall (fun p => fst p < List.length ids) chunk ->
  exists w' ids', add_one_by_one w chunk ids = Some (w', ids') /\
                  upd ids ids' (map fst chunk).
Proof.
  intros Hn Hok. unfold appends_ok in Hok. rewrite Hn in Hok.
  revert w ids. induction chunk as [|t chunk IH]; intros w ids Hi; simpl.
  - eauto using upd_refl.
  - inversion Hi as [|? ? Ht Hi']; subst.
    destruct (Hok w (snd t)) as (w' & e & -> & He).
    assert (Hcase : exists s, s <> "" /\
       (match e with
        | IdString s0 => set_nth ids (fst t) s0
        | IdRecord (Some s0) => set_nth ids (fst t) s0
        | _ => ids end) = set_nth ids (fst t) s).
    { unfold id_ok in He. destruct e as [s| [s|] |]; try contradiction; eauto. }
    destruct Hcase as (s & Hs & ->).
    destruct (IH w' (set_nth ids (fst t) s)) as (w'' & ids'' & E & U).
    { eapply Forall_impl; [|exact Hi']; intros; simpl; rewrite set_nth_length; auto. }
    exists w'', ids''. split; [exact E|].
    change (fst t :: map fst chunk) with (app [fst t] (map fst chunk)).
    apply upd_trans with (b := set_nth ids (fst t) s); [now apply upd_set|exact U].
Qed.

Lemma chunks_of_concat fuel bs (l : list (@Pending Cell)) :
  0 < bs -> List.length l <= fuel -> List.concat (chunks_of fuel bs l) = l.
Proof.
  revert l; induction fuel as [|f IH]; intros l Hb Hl; simpl.
  - destruct l; simpl in *; [reflexivity|lia].
  - destruct l as [|x l']; [reflexivity|]. simpl.
    rewrite IH; [apply firstn_skipn|assumption|].
    rewrite length_skipn. change (List.length (x :: l')) with (S (List.length l')) in *. lia.
Qed.

Lemma append_chunks_upd stop w (chunks : list (list (@Pending Cell))) appended ids :
  (forall w, stop w = false) -> appends_ok ->
  Forall (fun p => fst p < List.length ids) (List.concat chunks) ->
  exists w' ids',
    append_chunks (Some stop) w chunks appended ids =
      Some (w', appended + List.length (List.concat chunks), ids') /\
    upd ids ids' (map fst (List.concat chunks)).
Proof.
  intros Hs Hok. revert w appended ids.
  induction chunks as [|c cs IH]; intros w appended ids Hi; simpl.
  - rewrite Nat.add_0_r. eauto using upd_refl.
  - rewrite Hs. simpl in Hi. apply Forall_app in Hi as [Hc Hcs].
    rewrite length_app, map_app.
    destruct addRecords as [fn|] eqn:Ea.
    + pose proof Hok as Hok'. unfold appends_ok in Hok'. rewrite Ea in Hok'.
      destruct (Hok' w (map snd c)) as (w' & res & -> & Hl & Hf).
      rewrite length_map in Hl.
      pose proof (record_batch_ids_upd c res ids Hl Hf Hc) as U1.
      destruct (IH w' (appended + List.length c) (record_batch_ids c res ids))
        as (w'' & ids'' & E & U2).
      { destruct U1 as (L1 & _). rewrite L1. exact Hcs. }
      exists w'', ids''. rewrite E, Nat.add_assoc. split; [reflexivity|].
      eapply upd_trans; eassumption.
    + destruct (add_one_by_one_upd w c ids Ea Hok Hc) as (w' & ids' & -> & U1).
      destruct (IH w' (appended + List.length c) ids') as (w'' & ids'' & E & U2).
      { destruct U1 as (L1 & _). rewrite L1. exact Hcs. }
      exists w'', ids''. rewrite E, Nat.add_assoc. split; [reflexivity|].
      eapply upd_trans; eassumption.
Qed.

Lemma append_phase stop w1 ids1 N (records : list Fields) bs :
  (forall w, stop w = false) -> appends_ok -> 0 < bs ->
  N < List.length records -> List.length ids1 = List.length records ->
  exists w2 ids2,
    append_chunks (Some stop) w1
      (chunks_of (List.length records - N) bs
         (combine (seq N (List.length records - N)) (skipn N records))) 0 ids1
      = Some (w2, List.length records - N, ids2) /\
    upd ids1 ids2 (seq N (List.length records - N)).
Proof.
  intros Hs Hok Hb HN Hl.
  set (remaining := combine (seq N (List.length records - N)) (skipn N records)).
  assert (Hlen : List.length (skipn N records) = List.length records - N)
    by apply length_skipn.
  assert (Lc : List.length remaining = List.length records - N)
    by (unfold remaining; rewrite length_combine, length_seq, Hlen; apply Nat.min_id).
  destruct (append_chunks_upd stop w1 (chunks_of (List.length remaining) bs remaining) 0 ids1
              Hs Hok) as (w2 & ids2 & E & U).
  { rewrite chunks_of_concat by (auto; lia). apply Forall_forall. intros [i f] Hin.
    apply in_combine_l, in_seq in Hin. simpl. lia. }
  rewrite chunks_of_concat in E, U by (auto; lia).
  exists w2, ids2. split.
  - rewrite <- Lc at 1. rewrite E. cbn [Nat.add].
    exact (f_equal (fun x => Some (w2, x, ids2)) Lc).
  - unfold remaining in U. rewrite map_fst_combine_seq in U by exact Hlen. exact U.
Qed.

Lemma append_chunks_no_stop stop w cs a ids :
  (forall w, stop w = false) -> append_chunks (Some stop) w cs a ids = append_chunks None w cs a ids.
Proof.
  intros Hs. revert w a ids. induction cs as [|c cs IH]; intros w a ids; [reflexivity|].
  cbn [append_chunks]. rewrite Hs.
  destruct addRecords as [fn|].
  - destruct (fn w (map snd c)) as [[w' []]|]; rewrite ?IH; reflexivity.
  - destruct (add_one_by_one w c ids) as [[w' ids']|]; rewrite ?IH; reflexivity.
Qed.

Lemma length_indexed (records : list (@Fields Cell)) :
  @List.length (@Pending Cell) (indexed records) = List.length records.
Proof. unfold indexed, Pending. rewrite length_combine, length_seq. apply Nat.min_id. Qed.

Lemma fill_loop_conserve stop w ids (rem : list (@Pending Cell)) filled fids :
  let '(_, res) := fill_loop stop w ids rem filled fids in
  Permutation (app (map fst (remainingRecords res)) (map fst (filledRecordIds res)))
              (app (map fst rem) (map fst fids)) /\
  filledCount res + List.length fids = filled + List.length (filledRecordIds res).
Proof.
  revert w rem filled fids.
  induction ids as [|id ids IH]; intros w rem filled fids; cbn [fill_loop].
  - cbn. split; [reflexivity|lia].
  - destruct (stop w); [cbn; split; [reflexivity|lia]|].
    destruct rem as [|r rest]; [cbn; split; [reflexivity|lia]|].
    destruct (write_fields stop w id (snd r)) as [w' ok]. destruct ok.
    + specialize (IH w' rest (S filled) (app fids [(fst r, id)])).
      destruct (fill_loop _ _ _ _ _ _) as [w2 res]. destruct IH as [P C].
      split.
      * rewrite P, map_app. cbn [map]. rewrite app_assoc.
        symmetry. apply Permutation_cons_append.
      * rewrite length_app in C. cbn [List.length] in C. lia.
    + specialize (IH w' (app rest [r]) filled fids).
      destruct (fill_loop _ _ _ _ _ _) as [w2 res]. destruct IH as [P C].
      split; [|exact C].
      rewrite P, map_app. cbn [map]. simpl.
      rewrite <- app_assoc. cbn [app]. symmetry. apply Permutation_middle.
Qed.

End Facts.
End BitableFacts.

Module CollectFacts.
Import Js Collect Specs.
Section Facts.
Context `{Runtime}.
Variable url_parse : string -> option Url.URL.
Variable shareLink : value -> string.
Variable buildRecord : value -> bool.
Variable writeBatch : nat -> nat.
Variable toNewTable : bool.
Variable server : nat -> string -> Response.

Lemma handle429Error_other g r : Nat.eqb (status r) 429 = false -> handle429Error g r = NotQuota.
Proof. intros E. unfold handle429Error. rewrite E. reflexivity. Qed.

(** Every write of a positive number of records makes
    [applyQuotaConsumption] call [consumeQuotaPoints], which is [undefined]. *)
Lemma quota_call_throws k :
  0 < k -> Helpers.applyQuotaConsumption Helpers.consumeQuotaPoints [] None (count_q k) = None.
Proof.
  intros Hk. unfold Helpers.applyQuotaConsumption.
  assert (E1 : Qeq_bool (count_q k) 0 = false).
  { destruct (Qeq_bool _ _) eqn:E; [|reflexivity]. apply Qeq_bool_iff in E.
    unfold count_q, Qeq in E. simpl in E. lia. }
  assert (E2 : Qle_bool (count_q k) 0 = false).
  { destruct (Qle_bool _ _) eqn:E; [|reflexivity]. apply Qle_bool_iff in E.
    unfold count_q, Qle in E. simpl in E. lia. }
  rewrite E1, E2. reflexivity.
Qed.

Lemma ok_not_429 r : ok r = true -> Nat.eqb (status r) 429 = false.
Proof.
  unfold ok. intros E. apply andb_true_iff in E as [_ E]. apply Nat.ltb_lt in E.
  apply Nat.eqb_neq. lia.
Qed.

Lemma item_loop_no_stop g items ex n :
  keywordStop g = false -> exists ex' n', item_loop url_parse shareLink buildRecord g items ex n = (ex', n', false).
Proof.
  intros Hs. revert ex n. induction items as [|it items IH]; intros ex n; simpl; eauto.
  rewrite Hs. destruct (_ || _); [apply IH|]. destruct (buildRecord it); apply IH.
Qed.

(** The iteration on a data page, up to the [has_more] branch. *)
Lemma step_page g st r data xs :
  keywordStop g = false ->
  server (List.length (fetched st)) (offset st) = r ->
  ok r = true -> body r = Some data -> get data "search_item_list" = Arr xs ->
  filter valid_item xs = [] ->
  exists g1 st1,
    step url_parse shareLink buildRecord writeBatch toNewTable server g st =
      (let '(g2, st2) := advance g1 st1 data in
       if keywordStop g2 then Break g2 st2 else Continue g2 st2) /\
    keywordStop g1 = false /\ hasMore st1 = hasMore st /\ offset st1 = offset st /\
    pageCount st1 = pageCount st /\
    missingNextCursorOffset st1 = missingNextCursorOffset st /\
    fetched st1 = app (fetched st) [offset st].
Proof.
  intros Hs Hr Hok Hb Hx Ef. unfold step. rewrite Hr, handle429Error_other by (apply ok_not_429; exact Hok).
  rewrite Hok, Hb. cbn [negb]. rewrite Hx, Ef.
  eexists _, _. cbn. rewrite Hs. split; [reflexivity|]. repeat split; auto.
Qed.
Lemma advance_first_stall g st data :
  truthy (get data "has_more") = true ->
  (cursor_text data = "" \/ cursor_text data = offset st) ->
  missingNextCursorOffset st <> Some (offset st) ->
  advance g st data =
    (set_message g (Tr "还有更多但没有下一批起点，已重试当前批次" []),
     mkKLoop (hasMore st) (offset st) (pageCount st) (Some (offset st))
             (totalWritten st) (existingLinks st) (fetched st)).
Proof.
  intros Hm Hc Hn. unfold advance. rewrite Hm.
  assert (Hmiss : (String.eqb (cursor_text data) "" || String.eqb (cursor_text data) (offset st))%bool = true)
    by (destruct Hc as [-> | ->]; rewrite String.eqb_refl; [reflexivity|apply orb_true_r]).
  rewrite Hmiss. destruct (missingNextCursorOffset st) as [o|]; [|reflexivity].
  destruct (String.eqb_spec o (offset st)); [subst; congruence|reflexivity].
Qed.

Lemma advance_second_stall g st data :
  truthy (get data "has_more") = true ->
  (cursor_text data = "" \/ cursor_text data = offset st) ->
  missingNextCursorOffset st = Some (offset st) ->
  advance g st data =
    (set_message g (Tr "仍未获得下一批起点，已结束当前关键词" []),
     mkKLoop false (offset st) (pageCount st) (missingNextCursorOffset st)
             (totalWritten st) (existingLinks st) (fetched st)).
Proof.
  intros Hm Hc Hn. unfold advance. rewrite Hm.
  assert (Hmiss : (String.eqb (cursor_text data) "" || String.eqb (cursor_text data) (offset st))%bool = true)
    by (destruct Hc as [-> | ->]; rewrite String.eqb_refl; [reflexivity|apply orb_true_r]).
  rewrite Hmiss, Hn, String.eqb_refl. reflexivity.
Qed.

Lemma main_loop_halted fuel g st :
  hasMore st = false -> main_loop url_parse shareLink buildRecord writeBatch toNewTable server fuel g st = (g, st, false).
Proof. intros Hm. destruct fuel; simpl; [reflexivity|]. unfold keyword_may_fetch. rewrite Hm. reflexivity. Qed.

Lemma fresh_keys_cons_ex k ex items :
  ~ In k (fresh_keys url_parse shareLink ex items) -> fresh_keys url_parse shareLink (k :: ex) items = fresh_keys url_parse shareLink ex items.
Proof.
  unfold fresh_keys. induction items as [|it items IH]; intros Hk; simpl in *; [reflexivity|].
  destruct (existsb (String.eqb (link_key url_parse shareLink it)) ex) eqn:E; simpl in *.
  - rewrite orb_true_r. apply IH, Hk.
  - destruct (String.eqb_spec (link_key url_parse shareLink it) k) as [e|e]; simpl.
    + exfalso. apply Hk. left. exact e.
    + f_equal. apply IH. intro. apply Hk. right. assumption.
Qed.

Lemma item_loop_count g items ex n :
  keywordStop g = false -> (forall it, buildRecord it = true) ->
  NoDup (fresh_keys url_parse shareLink ex items) -> ~ In "" (fresh_keys url_parse shareLink ex items) ->
  exists ex', item_loop url_parse shareLink buildRecord g items ex n
                = (ex', n + List.length (fresh_keys url_parse shareLink ex items), false).
Proof using url_parse shareLink buildRecord.
  intros Hs Hb. revert ex n. induction items as [|it items IH]; intros ex n Hd He.
  - exists ex. simpl. rewrite Nat.add_0_r. reflexivity.
  - simpl. rewrite Hs. fold (link_key url_parse shareLink it).
    unfold fresh_keys in Hd, He |- *. simpl in Hd, He |- *. fold (fresh_keys url_parse shareLink ex items) in *.
    destruct (existsb (String.eqb (link_key url_parse shareLink it)) ex) eqn:E; simpl in Hd, He |- *.
    + rewrite orb_true_r. apply IH; assumption.
    + destruct (String.eqb_spec (link_key url_parse shareLink it) "") as [e|e].
      * exfalso. apply He. left. exact e.
      * simpl. rewrite Hb. apply NoDup_cons_iff in Hd as [Hni Hd'].
        destruct (IH (link_key url_parse shareLink it :: ex) (S n)) as [ex' Ex];
          rewrite ?fresh_keys_cons_ex by assumption; [assumption|intro Hin; apply He; right; exact Hin|].
        exists ex'. rewrite Ex, fresh_keys_cons_ex by assumption. rewrite Nat.add_succ_r. reflexivity.
Qed.

Lemma filter_all {A} (f : A -> bool) l : forallb f l = true -> filter f l = l.
Proof.
  induction l as [|x l IH]; simpl; [reflexivity|]. intros E.
  apply andb_true_iff in E as [-> E]. f_equal. apply IH, E.
Qed.

Lemma length_filter_split {A} (f : A -> bool) l :
  List.length (filter f l) + List.length (filter (fun x => negb (f x)) l) = List.length l.
Proof. induction l as [|x l IH]; simpl; [reflexivity|]. destruct (f x); simpl; lia. Qed.

End Facts.

Lemma includes_app_r a b n : Str.includes b n = true -> Str.includes (a ++ b) n = true.
Proof. induction a as [|c a IH]; intros Hb; simpl; [exact Hb|]. rewrite IH by exact Hb. apply orb_true_r. Qed.

Lemma handle429Error_null `{Runtime} g r :
  status r = 429 -> body r = Some Null -> handle429Error g r = QuotaThrows (handleQuotaHeaders g r).
Proof. intros Hs Hb. unfold handle429Error. rewrite Hs, Hb. reflexivity. Qed.

Lemma handleQuotaHeaders_flags g r :
  keywordStop (handleQuotaHeaders g r) = keywordStop g /\
  accountStop (handleQuotaHeaders g r) = accountStop g /\
  audioStop (handleQuotaHeaders g r) = audioStop g.
Proof. unfold handleQuotaHeaders. destruct (rateLimit r) as [[]|]; repeat split. Qed.

Lemma keyword_may_fetch_stop g hm pc : keyword_may_fetch g hm pc = true -> keywordStop g = false.
Proof. unfold keyword_may_fetch. destruct hm, (keywordStop g); simpl; congruence. Qed.

Lemma handle429Error_429 `{Runtime} g r :
  status r = 429 -> body r <> Some Null ->
  let errorData := match body r with Some v => v | None => Obj [] end in
  exists g', handle429Error g r = QuotaHandled g' /\
    remaining g' = nullish_or (get errorData "remaining") (Num 0) /\
    keywordStop g' = true /\ accountStop g' = true /\ audioStop g' = true /\
    (truthy (get errorData "message") = false ->
       exists t, message g' = Text t /\ Str.includes t reset_hint = true).
Proof.
  intros Hst Hn errorData. unfold handle429Error. rewrite Hst. cbn [Nat.eqb].
  subst errorData. destruct (body r) as [[]|]; try congruence;
  (eexists; split; [reflexivity|]; repeat split;
   intros Hm; rewrite Hm; eexists; split; [reflexivity|];
   match goal with |- context [match ?q with Num _ => _ | _ => _ end] => destruct q end;
   try reflexivity; repeat apply includes_app_r; reflexivity).
Qed.

End CollectFacts.

Module UrlFacts.

Lemma toLowerCase_app a b : Str.toLowerCase (a ++ b) = Str.toLowerCase a ++ Str.toLowerCase b.
Proof. induction a as [|c a IH]; simpl; [reflexivity|]. now rewrite IH. Qed.

Lemma toLowerCase_length s : String.length (Str.toLowerCase s) = String.length s.
Proof. induction s as [|c s IH]; simpl; auto. Qed.

End UrlFacts.

Module ExtractFacts.
Import Js Commerce.

Lemma str_length_app a b : String.length (a ++ b) = String.length a + String.length b.
Proof. induction a as [|c a IH]; simpl; auto. Qed.

Lemma str_app_nil_r s : s ++ "" = s.
Proof. induction s as [|c s IH]; simpl; [reflexivity|now rewrite IH]. Qed.

Lemma skip_ws_app ws x : Commerce.skip_ws ws = "" -> Commerce.skip_ws (ws ++ x) = Commerce.skip_ws x.
Proof.
  induction ws as [|c ws IH]; simpl; [reflexivity|].
  destruct (Str.is_ws c); [exact IH|discriminate].
Qed.

Lemma starts_with_app p x : Str.starts_with p (p ++ x) = true.
Proof. induction p as [|c p IH]; simpl; [reflexivity|]. now rewrite Ascii.eqb_refl. Qed.

Lemma substring_all n s : String.length s <= n -> substring 0 n s = s.
Proof.
  revert n. induction s as [|c s IH]; intros [|n] Hn; simpl in *; try reflexivity; [lia|].
  f_equal. apply IH. lia.
Qed.

Lemma substring_skip a b m : substring (String.length a) m (a ++ b) = substring 0 m b.
Proof. induction a as [|c a IH]; simpl; [reflexivity|exact IH]. Qed.

Lemma substring_suffix a b :
  substring (String.length a) (String.length (a ++ b)) (a ++ b) = b.
Proof. rewrite substring_skip. apply substring_all. rewrite str_length_app. lia. Qed.

Lemma take_digits_app d r :
  take_digits d = d -> take_digits (d ++ r) = d ++ take_digits r.
Proof.
  induction d as [|c d IH]; simpl; [reflexivity|].
  destruct (is_digit c); [|discriminate]. intros E. injection E as E. now rewrite IH.
Qed.

Lemma skip_ws_digit c s : is_digit c = true -> Commerce.skip_ws (String c s) = String c s.
Proof.
  intros Hd. simpl. unfold is_digit, Str.is_ws in *.
  apply andb_true_iff in Hd as [H1 H2]. apply Nat.leb_le in H1, H2.
  destruct (Nat.eqb_spec (nat_of_ascii c) 32); [lia|].
  destruct (Nat.leb_spec 9 (nat_of_ascii c)), (Nat.leb_spec (nat_of_ascii c) 13);
    simpl; try reflexivity; lia.
Qed.

(** The regular expression at the start of a [product_id] entry captures
    its whole digit run. *)
Lemma match_at_literal ws1 ws2 digits rest :
  Commerce.skip_ws ws1 = "" -> Commerce.skip_ws ws2 = "" ->
  take_digits digits = digits -> 15 <= String.length digits -> take_digits rest = "" ->
  match_at (product_id_key ++ ws1 ++ ":" ++ ws2 ++ digits ++ rest) = Some digits.
Proof.
  intros W1 W2 D L R. unfold match_at. rewrite starts_with_app, substring_suffix.
  rewrite skip_ws_app by exact W1. cbn [append Commerce.skip_ws Str.is_ws].
  replace (Str.is_ws ":") with false by reflexivity.
  rewrite skip_ws_app by exact W2.
  destruct digits as [|c d']; [simpl in L; lia|].
  assert (Hc : is_digit c = true).
  { simpl in D. destruct (is_digit c); [reflexivity|discriminate]. }
  change (String c d' ++ rest) with (String c (d' ++ rest)).
  rewrite skip_ws_digit by exact Hc.
  change (String c (d' ++ rest)) with (String c d' ++ rest).
  rewrite (take_digits_app (String c d')) by exact D. rewrite R, str_app_nil_r.
  apply Nat.leb_le in L. rewrite L. reflexivity.
Qed.

Lemma first_match_prefix pre t :
  (forall p1 p2, pre = p1 ++ p2 -> p2 <> "" -> match_at (p2 ++ t) = None) ->
  first_match (pre ++ t) = first_match t.
Proof.
  induction pre as [|c pre IH]; intros Hno; [reflexivity|].
  assert (H0 : match_at (String c (pre ++ t)) = None)
    by exact (Hno "" (String c pre) eq_refl ltac:(discriminate)).
  change (String c pre ++ t) with (String c (pre ++ t)). simpl. rewrite H0.
  apply IH. intros p1 p2 E Hp. apply (Hno (String c p1) p2); [now rewrite E|exact Hp].
Qed.

Lemma first_match_at s d : match_at s = Some d -> first_match s = Some d.
Proof.
  intros E. assert (U : first_match s = match match_at s with
    | Some d => Some d | None => match s with EmptyString => None
    | String _ s' => first_match s' end end) by (destruct s; reflexivity).
  rewrite U, E. reflexivity.
Qed.

Lemma assoc_set kvs k v : assoc (set kvs k v) k = v.
Proof.
  induction kvs as [|[k' v'] kvs IH]; simpl.
  - now rewrite String.eqb_refl.
  - destruct (String.eqb_spec k k'); simpl.
    + subst. now rewrite String.eqb_refl.
    + apply String.eqb_neq in n. now rewrite n.
Qed.

End ExtractFacts.

Module ExamplesFacts.
Import Bitable Specs Examples.

Lemma demo_appends_ok : @appends_ok nat unit demo_table.
Proof.
  unfold appends_ok. cbn. intros w payload. eexists _, _. split; [reflexivity|]. split.
  - rewrite length_map, length_seq. reflexivity.
  - apply Forall_forall. intros x Hx. apply in_map_iff in Hx as (i & <- & _).
    cbn. discriminate.
Qed.

End ExamplesFacts.

(* ================================================================== *)
(** ** The claims *)

Module Claims.
Import Js Url Commerce Bitable Collect Specs Examples.
Import CommerceFacts BitableFacts CollectFacts UrlFacts ExtractFacts.


(** C1: [isCommerce] of [commerceFromAweme] is true if and only if the
    deduplicated product list is non-empty, or one of the three goods flags
    is set, or the commission or branded-content marker is present, or the
    list of reasons is non-empty. *)
Theorem commerceFromAweme_isCommerce_iff `{Runtime} (v : value) :
  isCommerce (commerceFromAweme v) = true <->
  products (commerceFromAweme v) <> [] \/ hasGoodsFlag v = true \/
  (commission v = true \/ branded v = true) \/ reasons (commerceFromAweme v) <> [].
Proof.
  unfold commerceFromAweme. cbv zeta.
  destruct (list_step "right_products" v _) as [prods r4]. cbn [isCommerce products reasons].
  unfold array_from_set.
  rewrite !orb_true_iff, !ltb_length_nonnil, set_insert_all_nil. tauto.
Qed.

(** C2: a keyword run whose pages keep announcing more data without a new
    cursor, and hold no valid item, fetches the stalled cursor exactly twice
    and then ends; the run then reports the plain success message "成功写入 {{count}} 条数据", not the
    stalled-cursor message (which the final [setMessage] overwrites). *)
Theorem keyword_stall_reported_as_success `{Runtime} url_parse shareLink buildRecord
    writeBatch toNewTable server f g st :
  keywordStop g = false -> hasMore st = true -> pageCount st < maxPages ->
  missingNextCursorOffset st <> Some (offset st) ->
  (forall j, j = List.length (fetched st) \/ j = S (List.length (fetched st)) ->
     exists data xs,
       ok (server j (offset st)) = true /\ body (server j (offset st)) = Some data /\
       get data "search_item_list" = Arr xs /\ filter valid_item xs = [] /\
       truthy (get data "has_more") = true /\
       (cursor_text data = "" \/ cursor_text data = offset st)) ->
  let '(g', st') :=
    run_from url_parse shareLink buildRecord writeBatch toNewTable server (S (S f)) g st in
  fetched st' = app (fetched st) [offset st; offset st] /\ hasMore st' = false /\
  offset st' = offset st /\ pageCount st' = pageCount st /\
  message g' = Tr "成功写入 {{count}} 条数据" [("count", totalWritten st'); ("used", totalWritten st')].
Proof.
  intros Hs Hm Hp Hn Hpages.
  destruct (Hpages (List.length (fetched st)) (or_introl eq_refl))
    as (d1 & x1 & Ok1 & B1 & X1 & V1 & M1 & C1).
  destruct (step_page url_parse shareLink buildRecord writeBatch toNewTable server g st _ d1 x1
              Hs eq_refl Ok1 B1 X1 V1) as (g1 & st1 & E1 & S1 & Hm1 & O1 & P1 & N1 & F1).
  rewrite advance_first_stall in E1;
    [| exact M1 | rewrite O1; exact C1 | rewrite O1, N1; exact Hn].
  unfold run_from. cbn [main_loop]. unfold keyword_may_fetch at 1. rewrite Hs, Hm.
  destruct (Nat.ltb_spec (pageCount st) maxPages); [|lia]. cbn [andb negb]. rewrite E1.
  cbn [keywordStop set_message]. rewrite S1.
  set (st2 := mkKLoop _ _ _ _ _ _ _).
  destruct (Hpages (S (List.length (fetched st))) (or_intror eq_refl))
    as (d2 & x2 & Ok2 & B2 & X2 & V2 & M2 & C2).
  assert (L2 : List.length (fetched st2) = S (List.length (fetched st))).
  { simpl. rewrite F1, length_app. simpl. lia. }
  assert (O2 : offset st2 = offset st) by (simpl; congruence).
  rewrite <- O2 in Ok2, B2, C2. rewrite <- L2 in Ok2, B2.
  cbn [main_loop]. unfold keyword_may_fetch at 1.
  set (g2 := set_message g1 _).
  assert (S2 : keywordStop g2 = false) by exact S1.
  rewrite S2. cbn [hasMore pageCount st2]. rewrite Hm1, Hm, P1.
  destruct (Nat.ltb_spec (pageCount st) maxPages); [|lia]. cbn [andb negb].
  destruct (step_page url_parse shareLink buildRecord writeBatch toNewTable server g2 st2 _ d2 x2
              S2 eq_refl Ok2 B2 X2 V2) as (g3 & st3 & E3 & S3 & Hm3 & O3 & P3 & N3 & F3).
  rewrite advance_second_stall in E3;
    [| exact M2 | rewrite O3; exact C2 | rewrite O3, N3; reflexivity].
  rewrite E3. cbn [keywordStop set_message]. rewrite S3.
  rewrite main_loop_halted by reflexivity.
  cbn [keywordStop set_message totalWritten fetched hasMore offset pageCount]. rewrite S3.
  rewrite F3. cbn [fetched st2]. rewrite F1, <- app_assoc. cbn [app].
  rewrite O3, P3. cbn [st2 offset pageCount]. rewrite O1, P1.
  repeat split; reflexivity.
Qed.

Section BatchedWrite.
Context {W Cell : Type} `{Table W Cell}.

(** The write with a stop flag that stays down. *)
Lemma fill_then_append_stop (w : W) (records : list Fields)
    (batchSize : nat) (empty : list string) (stop : W -> bool) :
  (forall w, stop w = false) ->
  (forall w f r v, snd (setCellValue w f r v) = true) ->
  appends_ok -> 0 < batchSize -> List.length empty < List.length records ->
  exists w' ids,
    addRecordsInBatches w records batchSize (Some empty) (Some stop)
      = Some (w', mkAdd (List.length empty) (List.length records - List.length empty) ids,
              Some []) /\
    List.length ids = List.length records /\
    (forall i, i < List.length empty -> nth i ids "" = nth i empty "") /\
    (forall i, List.length empty <= i < List.length records -> nth i ids "" <> "").
Proof.
  intros Hs Hc Hok Hb HN.
  unfold addRecordsInBatches. cbv zeta. rewrite length_indexed.
  destruct empty as [|e0 es] eqn:Ee.
  - cbn [List.length Nat.ltb Nat.leb]. rewrite length_indexed.
    destruct (append_phase stop w (repeat "" (List.length records)) 0 records batchSize
                Hs Hok Hb HN (repeat_length _ _)) as (w2 & ids2 & E & U).
    rewrite Nat.sub_0_r in E, U. cbn [skipn] in E.
    unfold indexed. rewrite Hs. destruct (List.length records) as [|M] eqn:EM; [simpl in HN; lia|].
    cbn [andb negb]. destruct (Nat.eqb_spec batchSize 0); [lia|]. rewrite E.
    exists w2, ids2. split; [rewrite Nat.sub_0_r; reflexivity|].
    destruct U as (L & Nz & _). rewrite repeat_length in L.
    split; [exact L|]. split; [intros i Hi; simpl in Hi; lia|].
    intros i Hi. apply Nz, in_seq. lia.
  - rewrite <- Ee in *.
    assert (Hp : Nat.ltb 0 (List.length empty) = true) by (rewrite Ee; reflexivity).
    rewrite Hp. rewrite (firstn_all2 (n := List.length records) empty) by lia.
    rewrite Hp, skipn_all2 by lia. unfold fillEmptyRecords.
    destruct (fill_loop_all_ok stop w empty (indexed records) 0 [] Hs Hc) as [w' Ef];
      [rewrite length_indexed; lia|].
    rewrite Ef. cbn [filledCount remainingRecords filledRecordIds app Nat.add].
    unfold indexed, Pending. rewrite skipn_indexed, firstn_indexed by lia.
    rewrite map_fst_combine_seq by (rewrite length_firstn; lia).
    rewrite Nat.add_0_l, length_combine, length_seq, length_skipn, Nat.min_id.
    destruct (fold_set_nth 0 empty (repeat "" (List.length records))) as [L1 N1];
      [rewrite repeat_length; lia|].
    set (ids1 := fold_left _ _ _) in *.
    destruct (append_phase stop w' ids1 (List.length empty) records batchSize
                Hs Hok Hb HN) as (w2 & ids2 & E & U); [rewrite L1, repeat_length; reflexivity|].
    rewrite Hs. destruct (Nat.ltb_spec 0 (List.length records - List.length empty));
      [|lia]. cbn [andb negb]. destruct (Nat.eqb_spec batchSize 0); [lia|]. rewrite E.
    exists w2, ids2. split; [reflexivity|].
    destruct U as (L & Nz & Un). rewrite L, L1, repeat_length.
    split; [reflexivity|]. split.
    + intros i Hi. rewrite Un by (rewrite in_seq; lia). rewrite N1.
      destruct (Nat.leb_spec 0 i), (Nat.ltb_spec i (0 + List.length empty)); try lia.
      cbn [andb]. rewrite Nat.sub_0_r. reflexivity.
    + intros i Hi. apply Nz, in_seq. lia.
Qed.

(** The write without a stop flag: no fill phase, every record appended. *)
Lemma append_all_no_stopRef (w : W) (records : list Fields) (batchSize : nat)
    (empty : list string) :
  appends_ok -> 0 < batchSize -> 0 < List.length records ->
  exists w' ids,
    addRecordsInBatches w records batchSize (Some empty) None
      = Some (w', mkAdd 0 (List.length records) ids, Some empty) /\
    List.length ids = List.length records /\
    (forall i, i < List.length records -> nth i ids "" <> "").
Proof.
  intros Hok Hb Hr.
  destruct (append_phase (fun _ => false) w (repeat "" (List.length records)) 0 records batchSize
              (fun _ => eq_refl) Hok Hb Hr (repeat_length _ _)) as (w2 & ids2 & E & U).
  rewrite append_chunks_no_stop in E by (intros; reflexivity).
  rewrite Nat.sub_0_r in E, U. cbn [skipn] in E.
  unfold addRecordsInBatches. cbv zeta. cbn [negb]. rewrite length_indexed.
  destruct (Nat.ltb_spec 0 (List.length records)); [|lia]. cbn [andb negb].
  destruct (Nat.eqb_spec batchSize 0); [lia|]. unfold indexed. rewrite E.
  exists w2, ids2. split; [reflexivity|].
  destruct U as (L & Nz & _). rewrite repeat_length in L. split; [exact L|].
  intros i Hi. apply Nz, in_seq. lia.
Qed.

(** C3: with cell writes that succeed, appends that return an id per
    record, a positive batch size and [N] empty rows for [M > N] records:
    when a stop flag is supplied and never raised, [addRecordsInBatches]
    fills [N] records and appends [M - N]; the id array has length [M],
    holds the [N] empty-row ids at positions [0 .. N-1] and an id at every
    other position, and the caller's empty-row list is emptied.  Without a
    stop flag the fill phase is skipped: all [M] records are appended, each
    gets an id, and the empty-row list is left as it was. *)
Theorem addRecordsInBatches_fill_then_append (w : W) (records : list Fields)
    (batchSize : nat) (empty : list string) :
  (forall w f r v, snd (setCellValue w f r v) = true) ->
  appends_ok -> 0 < batchSize -> List.length empty < List.length records ->
  (forall stop : W -> bool, (forall w, stop w = false) ->
   exists w' ids,
     addRecordsInBatches w records batchSize (Some empty) (Some stop)
       = Some (w', mkAdd (List.length empty) (List.length records - List.length empty) ids,
               Some []) /\
     List.length ids = List.length records /\
     (forall i, i < List.length empty -> nth i ids "" = nth i empty "") /\
     (forall i, List.length empty <= i < List.length records -> nth i ids "" <> "")) /\
  (exists w' ids,
     addRecordsInBatches w records batchSize (Some empty) None
       = Some (w', mkAdd 0 (List.length records) ids, Some empty) /\
     List.length ids = List.length records /\
     (forall i, i < List.length records -> nth i ids "" <> "")).
Proof.
  intros Hc Hok Hb HN. split.
  - intros stop Hs. exact (fill_then_append_stop w records batchSize empty stop Hs Hc Hok Hb HN).
  - apply append_all_no_stopRef; [exact Hok | exact Hb | lia].
Qed.

End BatchedWrite.

(** C3 (counterexample): without a stop flag the fill phase is skipped:
    with one empty row and two records, both records are appended and none
    is filled, and the caller's empty-row list is left untouched. *)
Lemma addRecordsInBatches_no_stopRef_skips_fill :
  @addRecordsInBatches nat unit demo_table 0 [[]; []] 10 (Some ["e1"]) None
    = Some (2, mkAdd 0 2 ["rec0"; "rec1"], Some ["e1"]).
Proof. vm_compute. reflexivity. Qed.

(** C4: on a 429 response to a keyword fetch whose body is not JSON
    [null], [handle429Error] sets [remaining] to the body's value (or 0) and
    raises the three stop flags, so the guards of all three run kinds refuse
    any further fetch; its message carries the next-UTC-midnight hint when
    the body has none, but the run then replaces it by
    "已停止采集，成功写入 {{count}} 条数据".  When the body is JSON [null],
    reading [errorData.remaining] throws after [handleQuotaHeaders]: no stop
    flag is raised and the run ends with "写入数据失败: {{error}}". *)
Theorem quota_exhausted_run_message `{Runtime} url_parse shareLink buildRecord
    writeBatch toNewTable server f g st :
  keyword_may_fetch g (hasMore st) (pageCount st) = true ->
  status (server (List.length (fetched st)) (offset st)) = 429 ->
  let response := server (List.length (fetched st)) (offset st) in
  let errorData := match body response with Some v => v | None => Obj [] end in
  (body response <> Some Null ->
   exists g429,
     handle429Error g response = QuotaHandled g429 /\
     (truthy (get errorData "message") = false ->
        exists t, message g429 = Text t /\ Str.includes t reset_hint = true) /\
     let '(g', st') :=
       run_from url_parse shareLink buildRecord writeBatch toNewTable server (S f) g st in
     remaining g' = nullish_or (get errorData "remaining") (Num 0) /\
     (forall hm pc, keyword_may_fetch g' hm pc = false) /\
     (forall hm pc, account_may_fetch g' hm pc = false) /\
     (forall aborted, audio_may_fetch g' aborted = false) /\
     fetched st' = app (fetched st) [offset st] /\
     g' = set_message g429
            (Tr "已停止采集，成功写入 {{count}} 条数据" [("count", totalWritten st'); ("used", totalWritten st')])) /\
  (body response = Some Null ->
   let '(g', st') :=
     run_from url_parse shareLink buildRecord writeBatch toNewTable server (S f) g st in
   g' = set_message (handleQuotaHeaders g response) (Tr "写入数据失败: {{error}}" []) /\
   keywordStop g' = false /\ accountStop g' = accountStop g /\ audioStop g' = audioStop g /\
   fetched st' = app (fetched st) [offset st]).
Proof.
  intros Hg Hst. cbv zeta. split.
  - intros Hn.
    destruct (handle429Error_429 g _ Hst Hn) as (g' & E & R & K & A & U & M).
    exists g'. split; [exact E|]. split; [exact M|].
    unfold run_from. cbn [main_loop]. rewrite Hg. unfold step. rewrite E.
    cbn [keywordStop set_message]. destruct g' as [r q k a u m]. cbn in K, A, U, R |- *.
    subst. repeat split; try reflexivity; intros; unfold keyword_may_fetch, account_may_fetch,
      audio_may_fetch; cbn; rewrite ?andb_false_r; reflexivity.
  - intros Hn.
    unfold run_from. cbn [main_loop]. rewrite Hg. unfold step.
    rewrite (handle429Error_null g _ Hst Hn).
    destruct (handleQuotaHeaders_flags g (server (List.length (fetched st)) (offset st)))
      as (K & A & U).
    cbn [keywordStop accountStop audioStop set_message fetched offset].
    rewrite K, A, U, (keyword_may_fetch_stop _ _ _ Hg). repeat split; reflexivity.
Qed.

(** C5: with 15 valid items on page 1 of which 5 have keys already seen,
    [has_more] and cursor "10", and an empty last page 2, the keyword run
    does not complete: the batch write of the 10 new records goes through,
    but [applyQuotaConsumption] then calls [consumeQuotaPoints], which
    [useQuota] does not return, and the [TypeError] ends the run in the
    outer [catch] with "写入数据失败: {{error}}", after the first fetch only,
    with [totalWritten] and [pageCount] still 0. *)
Theorem keyword_two_page_run_throws `{Runtime} url_parse shareLink buildRecord writeBatch
    toNewTable server g existing data1 data2 items1 :
  keywordStop g = false -> (forall n, writeBatch n = n) -> (forall it, buildRecord it = true) ->
  server 0 "0" = mkResponse 200 (Some data1) None ->
  server 1 "10" = mkResponse 200 (Some data2) None ->
  get data1 "search_item_list" = Arr items1 -> List.length items1 = 15 ->
  forallb valid_item items1 = true ->
  truthy (get data1 "has_more") = true -> cursor_text data1 = "10" ->
  List.length (filter (fun k => existsb (String.eqb k) existing)
                 (map (link_key url_parse shareLink) items1)) = 5 ->
  NoDup (fresh_keys url_parse shareLink existing items1) ->
  ~ In "" (fresh_keys url_parse shareLink existing items1) ->
  get data2 "search_item_list" = Arr [] -> truthy (get data2 "has_more") = false ->
  let '(g', st') :=
    writeKeywordTikTokData url_parse shareLink buildRecord writeBatch toNewTable server
      g existing in
  fetched st' = ["0"] /\ totalWritten st' = 0 /\ pageCount st' = 0 /\
  keywordStop g' = false /\ message g' = Tr "写入数据失败: {{error}}" [].
Proof.
  intros Hs Hw Hb S1 S2 X1 L1 V1 M1 C1 D1 N1 E1 X2 M2.
  assert (Lf : List.length (fresh_keys url_parse shareLink existing items1) = 10).
  { unfold fresh_keys.
    pose proof (length_filter_split (fun k => existsb (String.eqb k) existing)
                  (map (link_key url_parse shareLink) items1)) as Hsp.
    rewrite length_map, L1, D1 in Hsp. lia. }
  destruct (item_loop_count url_parse shareLink buildRecord g items1 existing 0 Hs Hb N1 E1)
    as [ex1 I1].
  rewrite Lf in I1.
  unfold writeKeywordTikTokData, run_from.
  change (2 * maxPages + 1) with (S 200). cbn [main_loop]. unfold keyword_may_fetch at 1.
  rewrite Hs. unfold step. cbn [fetched offset List.length].
  rewrite S1. simpl. rewrite X1, filter_all by exact V1.
  destruct items1 as [|it0 items0]; [discriminate|].
  rewrite I1. simpl. rewrite Hw, quota_call_throws by lia. simpl.
  rewrite Hs. repeat split; reflexivity.
Qed.

(** C6: two raw links that parse to URLs with the same scheme, host and
    path up to letter case get the same key: the lower-cased
    scheme, host and path, without query or fragment. *)
Theorem normalizeUrlKey_same_canonical url_parse raw1 raw2 u1 u2 :
  raw1 <> "" -> raw2 <> "" ->
  url_parse (Str.trim raw1) = Some u1 -> url_parse (Str.trim raw2) = Some u2 ->
  Str.toLowerCase (protocol u1) = Str.toLowerCase (protocol u2) ->
  Str.toLowerCase (host u1) = Str.toLowerCase (host u2) ->
  Str.toLowerCase (pathname u1) = Str.toLowerCase (pathname u2) ->
  normalizeUrlKey url_parse raw1 = normalizeUrlKey url_parse raw2 /\
  normalizeUrlKey url_parse raw1 =
    Str.toLowerCase (protocol u1 ++ "//" ++ host u1 ++ pathname u1).
Proof.
  intros N1 N2 P1 P2 Ep Eh Ea. unfold normalizeUrlKey, normalizeUrlKey_with.
  apply String.eqb_neq in N1, N2. rewrite N1, N2, P1, P2.
  split; [|reflexivity]. rewrite !toLowerCase_app, Ep, Eh, Ea. reflexivity.
Qed.

(** C7: in the fill phase, a record whose cell write fails is put at the
    back of the pending queue and the loop goes on with the next empty row;
    at the end every record is either filled or still pending, and only the
    filled ones are counted. *)
Theorem fill_loop_failed_write_requeued {W Cell : Type} `{Table W Cell} stop w id ids (r : @Pending Cell) rest filled fids w' :
  stop w = false -> write_fields stop w id (snd r) = (w', false) ->
  fill_loop stop w (id :: ids) (r :: rest) filled fids
    = fill_loop stop w' ids (app rest [r]) filled fids /\
  (let '(_, res) := fill_loop stop w (id :: ids) (r :: rest) filled fids in
   Permutation (app (map fst (remainingRecords res)) (map fst (filledRecordIds res)))
               (app (map fst (r :: rest)) (map fst fids)) /\
   filledCount res + List.length fids = filled + List.length (filledRecordIds res)).
Proof.
  intros Hs Hw.
  assert (E : fill_loop stop w (id :: ids) (r :: rest) filled fids
              = fill_loop stop w' ids (app rest [r]) filled fids)
    by (cbn [fill_loop]; rewrite Hs, Hw; reflexivity).
  split; [exact E|]. apply fill_loop_conserve.
Qed.

(** C8: an anchor item whose [extra] is a JSON string holding
    ["product_id"] followed by 15 or more digits gets the literal digit
    string as its [productId] (the first match in the text), whatever the
    JSON parser makes of the number. *)
Theorem anchor_item_product_id_literal `{Runtime} item s nested pre ws1 ws2 digits rest :
  is_object item = true -> get item "extra" = Str s ->
  safeJsonParse s = Some nested -> is_object nested = true ->
  s = pre ++ product_id_key ++ ws1 ++ ":" ++ ws2 ++ digits ++ rest ->
  (forall p1 p2, pre = p1 ++ p2 -> p2 <> "" ->
     match_at (p2 ++ product_id_key ++ ws1 ++ ":" ++ ws2 ++ digits ++ rest) = None) ->
  Commerce.skip_ws ws1 = "" -> Commerce.skip_ws ws2 = "" ->
  take_digits digits = digits -> 15 <= String.length digits -> take_digits rest = "" ->
  extractProductIdFromJson s = Some digits /\
  exists p, anchor_item_product item = Some p /\ productId p = Some digits.
Proof.
  intros Ho Hx Hp Hn Hs Hno W1 W2 D L R.
  assert (Ex : extractProductIdFromJson s = Some digits).
  { unfold extractProductIdFromJson. rewrite Hs, first_match_prefix by exact Hno.
    apply first_match_at, match_at_literal; assumption. }
  split; [exact Ex|].
  assert (Ht : forall v, is_object v = true -> truthy v = true)
    by (intros [] E; try discriminate; reflexivity).
  assert (Hd : String.eqb digits "" = false).
  { destruct digits; [simpl in L; lia|reflexivity]. }
  unfold anchor_item_product. rewrite Ho, (Ht item Ho). cbn [andb]. rewrite Hx, Ex, Hp.
  rewrite Hn, (Ht nested Hn). cbn [andb].
  set (m := set _ _ _).
  assert (Pid : productId (normalizeProduct (Obj m)) = Some digits).
  { unfold normalizeProduct. cbn [productId get]. unfold m. rewrite assoc_set.
    cbn [nullish_or]. unfold toOptionalString. cbn [truthy to_string]. rewrite Hd.
    reflexivity. }
  assert (K : keep_product (normalizeProduct (Obj m)) = true).
  { unfold keep_product. rewrite Pid. cbn [present]. rewrite Hd. reflexivity. }
  rewrite K. eexists. split; [reflexivity|exact Pid].
Qed.

(** C9: [dedupeProducts] is idempotent on lists whose product ids hold no
    [#]. *)
Theorem dedupeProducts_idempotent_no_hash (ps : list CommerceProduct) :
  Forall (fun p => no_hash_id p = true) ps ->
  dedupeProducts (dedupeProducts ps) = dedupeProducts ps.
Proof.
  intro HF. unfold dedupeProducts at 1.
  rewrite loop_all_fresh; [reflexivity| |].
  - intros k _. reflexivity.
  - apply keys_from_nodup.
    + apply seen_ok_ids, dedupe_loop_ok. split; constructor.
    + apply Forall_forall. intros p Hp.
      apply dedupe_loop_sub in Hp as [[]|Hp].
      rewrite Forall_forall in HF. now apply HF.
Qed.

(** C9 (counterexample): a product id of the form [title#index] collides,
    on the second pass, with the fallback key of a product that moved up. *)
Lemma dedupeProducts_not_idempotent :
  dedupeProducts [pA; pA; pT; pX] = [pA; pT; pX] /\
  dedupeProducts (dedupeProducts [pA; pA; pT; pX]) = [pA; pT] /\
  dedupeProducts (dedupeProducts [pA; pA; pT; pX]) <> dedupeProducts [pA; pA; pT; pX].
Proof.
  split; [vm_compute; reflexivity|]. split; [vm_compute; reflexivity|].
  vm_compute. discriminate.
Qed.

(** C10: for any [trim] and [toLowerCase] that keep the empty string
    empty and lower-case non-empty strings to non-empty ones (as JavaScript's
    own do), when the trimmed input does not parse as a URL the key is the
    whole trimmed input lower-cased, query text included; it is non-empty
    whenever the trimmed input is, and the empty input gives the empty key. *)
Theorem normalizeUrlKey_unparsed (trim lower : string -> string) url_parse raw :
  trim "" = "" -> (forall s, s <> "" -> lower s <> "") ->
  url_parse (trim raw) = None ->
  normalizeUrlKey_with trim lower url_parse raw
    = (if String.eqb raw "" then "" else lower (trim raw)) /\
  (trim raw <> "" -> normalizeUrlKey_with trim lower url_parse raw <> "") /\
  normalizeUrlKey_with trim lower url_parse "" = "".
Proof.
  intros T L P. unfold normalizeUrlKey_with. split; [|split].
  - destruct (String.eqb raw ""); [reflexivity|]. rewrite P. reflexivity.
  - intros Hn. destruct (String.eqb_spec raw "") as [->|_]; [congruence|].
    rewrite P. apply L, Hn.
  - reflexivity.
Qed.

End Claims.

(* ================================================================== *)
(** ** The statements on concrete inputs *)

Module Witnesses.
Import Js Url Commerce Bitable Collect Specs Examples ExamplesFacts Claims.
#[local] Existing Instance BasicRuntime.runtime.

(** [~ In x l] for a concrete list of distinct constructor terms. *)
Ltac not_in_concrete :=
  let H := fresh in
  intro H; repeat (destruct H as [H|H]; [discriminate H|]); destruct H.

Lemma keyword_stall_witness :
  let '(g', st') :=
    run_from Url.parse_basic demo_share (fun _ => true) (fun n => n) false stall_server
      2 demo_gov demo_start in
  fetched st' = ["0"; "0"] /\ hasMore st' = false /\ offset st' = "0" /\ pageCount st' = 0 /\
  message g' = Tr "成功写入 {{count}} 条数据"
                 [("count", totalWritten st'); ("used", totalWritten st')].
Proof.
  refine (keyword_stall_reported_as_success Url.parse_basic demo_share (fun _ => true)
            (fun n => n) false stall_server 0 demo_gov demo_start eq_refl eq_refl _ _ _).
  - apply Nat.ltb_lt. reflexivity.
  - discriminate.
  - intros j _. exists stall_page, []. repeat split; try reflexivity. left. reflexivity.
Defined.

Lemma addRecordsInBatches_witness :
  (forall stop : nat -> bool, (forall w, stop w = false) ->
   exists w' ids,
     @addRecordsInBatches nat unit demo_table 0 [[("f", tt)]; [("f", tt)]; [("f", tt)]] 2
       (Some ["e1"]) (Some stop) = Some (w', mkAdd 1 (3 - 1) ids, Some []) /\
     List.length ids = 3 /\
     (forall i, i < 1 -> nth i ids "" = nth i ["e1"] "") /\
     (forall i, 1 <= i < 3 -> nth i ids "" <> "")) /\
  (exists w' ids,
     @addRecordsInBatches nat unit demo_table 0 [[("f", tt)]; [("f", tt)]; [("f", tt)]] 2
       (Some ["e1"]) None = Some (w', mkAdd 0 3 ids, Some ["e1"]) /\
     List.length ids = 3 /\
     (forall i, i < 3 -> nth i ids "" <> "")).
Proof.
  refine (@addRecordsInBatches_fill_then_append nat unit demo_table 0
            [[("f", tt)]; [("f", tt)]; [("f", tt)]] 2 ["e1"]
            (fun _ _ _ _ => eq_refl) demo_appends_ok _ _).
  - apply Nat.ltb_lt. reflexivity.
  - apply Nat.ltb_lt. reflexivity.
Defined.

Lemma quota_exhausted_witness :
  (exists g429,
     handle429Error demo_gov (quota_server 0 "0") = QuotaHandled g429 /\
     (truthy (get (Obj []) "message") = false ->
        exists t, message g429 = Text t /\ Str.includes t reset_hint = true) /\
     let '(g', st') :=
       run_from Url.parse_basic demo_share (fun _ => true) (fun n => n) false quota_server
         1 demo_gov demo_start in
     remaining g' = nullish_or (get (Obj []) "remaining") (Num 0) /\
     (forall hm pc, keyword_may_fetch g' hm pc = false) /\
     (forall hm pc, account_may_fetch g' hm pc = false) /\
     (forall aborted, audio_may_fetch g' aborted = false) /\
     fetched st' = ["0"] /\
     g' = set_message g429
            (Tr "已停止采集，成功写入 {{count}} 条数据"
                [("count", totalWritten st'); ("used", totalWritten st')])) /\
  (let '(g', st') :=
     run_from Url.parse_basic demo_share (fun _ => true) (fun n => n) false quota_null_server
       1 demo_gov demo_start in
   g' = set_message (handleQuotaHeaders demo_gov (quota_null_server 0 "0"))
          (Tr "写入数据失败: {{error}}" []) /\
   keywordStop g' = false /\ accountStop g' = false /\ audioStop g' = false /\
   fetched st' = ["0"]).
Proof.
  split.
  - exact (proj1 (quota_exhausted_run_message Url.parse_basic demo_share (fun _ => true)
                    (fun n => n) false quota_server 0 demo_gov demo_start eq_refl eq_refl)
                 ltac:(discriminate)).
  - exact (proj2 (quota_exhausted_run_message Url.parse_basic demo_share (fun _ => true)
                    (fun n => n) false quota_null_server 0 demo_gov demo_start eq_refl eq_refl)
                 eq_refl).
Defined.

Lemma keyword_two_page_run_witness :
  let '(g', st') :=
    writeKeywordTikTokData Url.parse_basic demo_share (fun _ => true) (fun n => n) false
      two_page_server demo_gov seen_keys in
  fetched st' = ["0"] /\ totalWritten st' = 0 /\ pageCount st' = 0 /\
  keywordStop g' = false /\ message g' = Tr "写入数据失败: {{error}}" [].
Proof.
  refine (keyword_two_page_run_throws Url.parse_basic demo_share (fun _ => true) (fun n => n)
            false two_page_server demo_gov seen_keys page1 page2 page1_items
            eq_refl (fun _ => eq_refl) (fun _ => eq_refl) eq_refl eq_refl eq_refl
            _ _ _ _ _ _ _ eq_refl eq_refl).
  all: try (vm_compute; reflexivity).
  - vm_compute.
    repeat (apply NoDup_cons; [not_in_concrete|]). apply NoDup_nil.
  - vm_compute. not_in_concrete.
Defined.

Lemma normalizeUrlKey_same_canonical_witness :
  normalizeUrlKey Url.parse_basic "https://www.TikTok.com/@u/video/1?x=1#f"
    = normalizeUrlKey Url.parse_basic " HTTPS://www.tiktok.com/@u/video/1?y=2 " /\
  normalizeUrlKey Url.parse_basic "https://www.TikTok.com/@u/video/1?x=1#f"
    = Str.toLowerCase ("https:" ++ "//" ++ "www.tiktok.com" ++ "/@u/video/1").
Proof.
  refine (normalizeUrlKey_same_canonical Url.parse_basic _ _
            (mkURL "https:" "www.tiktok.com" "/@u/video/1" "?x=1" "#f")
            (mkURL "https:" "www.tiktok.com" "/@u/video/1" "?y=2" "") _ _ _ _ _ _ _).
  all: try discriminate.
  all: vm_compute; reflexivity.
Defined.

Lemma fill_loop_failed_write_requeued_witness :
  @fill_loop nat bool flaky_table no_stop 0 ["e1"; "e2"]
      [(0, [("f", false)]); (1, [("f", true)])] 0 []
    = @fill_loop nat bool flaky_table no_stop 1 ["e2"]
        [(1, [("f", true)]); (0, [("f", false)])] 0 [] /\
  (let '(_, res) := @fill_loop nat bool flaky_table no_stop 0 ["e1"; "e2"]
                      [(0, [("f", false)]); (1, [("f", true)])] 0 [] in
   Permutation (map fst (remainingRecords res) ++ map fst (filledRecordIds res)) [0; 1] /\
   filledCount res + 0 = 0 + List.length (filledRecordIds res)).
Proof.
  exact (@fill_loop_failed_write_requeued nat bool flaky_table no_stop 0 "e1" ["e2"]
           (0, [("f", false)]) [(1, [("f", true)])] 0 [] 1 eq_refl eq_refl).
Defined.

Lemma anchor_item_product_id_literal_witness :
  extractProductIdFromJson long_id_json = Some "123456789012345678" /\
  exists p, anchor_item_product long_id_item = Some p /\ productId p = Some "123456789012345678".
Proof.
  refine (anchor_item_product_id_literal long_id_item long_id_json
            (match safeJsonParse long_id_json with Some v => v | None => Obj [] end)
            "{" "" "" "123456789012345678" "}"
            eq_refl eq_refl _ _ eq_refl _ eq_refl eq_refl eq_refl _ eq_refl).
  - vm_compute. reflexivity.
  - vm_compute. reflexivity.
  - intros [|c [|c' p1]] p2 E Hp.
    + cbn in E. subst p2. vm_compute. reflexivity.
    + cbn in E. injection E as _ E. subst p2. exfalso. apply Hp. reflexivity.
    + discriminate E.
  - apply Nat.leb_le. reflexivity.
Defined.

Lemma dedupeProducts_idempotent_witness :
  dedupeProducts (dedupeProducts [pA; pA; pT]) = dedupeProducts [pA; pA; pT].
Proof. apply dedupeProducts_idempotent_no_hash. repeat constructor. Defined.

Lemma normalizeUrlKey_unparsed_witness :
  normalizeUrlKey Url.parse_basic " Not a URL?X=1 " = Str.toLowerCase "Not a URL?X=1" /\
  (Str.trim " Not a URL?X=1 " <> "" -> normalizeUrlKey Url.parse_basic " Not a URL?X=1 " <> "") /\
  normalizeUrlKey Url.parse_basic "" = "".
Proof.
  refine (normalizeUrlKey_unparsed Str.trim Str.toLowerCase Url.parse_basic " Not a URL?X=1 "
            eq_refl _ _).
  - intros [|c t] Hn; [congruence|]. simpl. discriminate.
  - vm_compute. reflexivity.
Defined.

End Witnesses.

(* ================================================================== *)
(** * Further properties of the modelled code *)

Module CommerceExtraFacts.
Import Js Commerce Specs CommerceLabels CommerceFacts ExtraSpecs.

Lemma take_digits_digits s : all_digits (take_digits s).
Proof.
  unfold all_digits. induction s as [|c s IH]; simpl; [constructor|].
  destruct (is_digit c) eqn:E; simpl; [constructor; auto|constructor].
Qed.

Lemma match_at_digits s d : match_at s = Some d -> 15 <= String.length d /\ all_digits d.
Proof.
  unfold match_at. destruct (Str.starts_with product_id_key s); [|discriminate].
  destruct (Commerce.skip_ws _) as [|c s3]; [discriminate|].
  destruct (Ascii.eqb c ":") eqn:Ec.
  - apply Ascii.eqb_eq in Ec. subst c.
    destruct (Nat.leb_spec 15 (String.length (take_digits (Commerce.skip_ws s3))));
      [|discriminate].
    intro E; injection E as <-. split; [assumption|apply take_digits_digits].
  - apply Ascii.eqb_neq in Ec.
    destruct c as [[] [] [] [] [] [] [] []]; try discriminate; exfalso; apply Ec; reflexivity.
Qed.

Lemma first_match_digits s d : first_match s = Some d -> 15 <= String.length d /\ all_digits d.
Proof.
  induction s as [|c s IH]; intro E.
  - discriminate.
  - assert (Eq : first_match (String c s) =
                 match match_at (String c s) with Some d => Some d | None => first_match s end)
      by reflexivity.
    rewrite Eq in E. destruct (match_at (String c s)) eqn:M.
    + injection E as ->. now apply (match_at_digits (String c s)).
    + now apply IH.
Qed.

Section Aweme.
Context `{Runtime}.

Lemma anchor_item_product_keep item p :
  anchor_item_product item = Some p -> keep_product p = true.
Proof.
  unfold anchor_item_product. destruct (truthy item && is_object item); [|discriminate].
  match goal with |- (if keep_product ?q then _ else _) = _ -> _ =>
    destruct (keep_product q) eqn:K end; [|discriminate].
  intro E; injection E as <-. exact K.
Qed.

Lemma parseAnchorProducts_keep anchor :
  Forall (fun p => keep_product p = true) (parseAnchorProducts anchor).
Proof.
  apply Forall_forall. intros p Hp. unfold parseAnchorProducts in Hp.
  apply in_flat_map in Hp as (item & _ & Hp).
  destruct (anchor_item_product item) eqn:E; [|contradiction].
  destruct Hp as [<-|[]]. now apply (anchor_item_product_keep item).
Qed.

Lemma parseProductList_keep l :
  Forall (fun p => keep_product p = true) (parseProductList l).
Proof.
  apply Forall_forall. intros p Hp. unfold parseProductList in Hp.
  destruct l; try contradiction. apply filter_In in Hp. tauto.
Qed.

Lemma anchor_steps_keep anchors acc :
  acc_ok acc -> acc_ok (fold_left anchor_step anchors acc).
Proof.
  revert acc. induction anchors as [|a r IH]; intros [ps rs] Hacc; simpl; [exact Hacc|].
  apply IH. unfold anchor_step.
  destruct (negb _); [exact Hacc|]. unfold acc_ok; simpl.
  apply Forall_app. split; [exact Hacc|apply parseAnchorProducts_keep].
Qed.

Lemma list_step_keep f v acc : acc_ok acc -> acc_ok (list_step f v acc).
Proof.
  destruct acc as [ps rs]. unfold list_step. intro Hacc.
  destruct (Nat.ltb 0 _); [|exact Hacc]. unfold acc_ok; simpl.
  apply Forall_app. split; [exact Hacc|apply parseProductList_keep].
Qed.

Lemma commerce_anchor_key ck :
  Str.includes (Str.toLowerCase (to_string (or_ ck (Str "")))) "shop"
  || Str.includes (Str.toLowerCase (to_string (or_ ck (Str "")))) "product"
  || Str.includes (Str.toLowerCase (to_string (or_ ck (Str "")))) "commerce" = true ->
  truthy ck = true.
Proof. unfold or_. destruct (truthy ck); [reflexivity|]. simpl. discriminate. Qed.

Lemma anchor_steps_reasons anchors acc :
  reasons_ok acc -> reasons_ok (fold_left anchor_step anchors acc).
Proof.
  revert acc. induction anchors as [|a r IH]; intros [ps rs] Hacc; simpl; [exact Hacc|].
  apply IH. unfold anchor_step.
  destruct (Str.includes _ "shop" || _ || _) eqn:Ek; simpl; [|exact Hacc].
  unfold reasons_ok; simpl. apply Forall_app. split; [exact Hacc|].
  rewrite (commerce_anchor_key _ Ek). constructor; [|constructor].
  left. eexists. reflexivity.
Qed.

Lemma list_step_reasons f v acc :
  In f ["bottom_products"; "products_info"; "right_products"] ->
  reasons_ok acc -> reasons_ok (list_step f v acc).
Proof.
  destruct acc as [ps rs]. unfold list_step. intros Hf Hacc.
  destruct (Nat.ltb 0 _); [|exact Hacc]. unfold reasons_ok; simpl.
  apply Forall_app. split; [exact Hacc|]. constructor; [|constructor].
  right. left. simpl in Hf |- *. tauto.
Qed.

Lemma set_insert_all_In x xs seen : In x (set_insert_all xs seen) -> In x seen \/ In x xs.
Proof.
  revert seen. induction xs as [|y r IH]; intros seen Hx; simpl in *; [auto|].
  destruct (IH _ Hx) as [H'|H']; [|auto].
  destruct (existsb (String.eqb y) seen); [auto|].
  apply in_app_or in H' as [H'|[<-|[]]]; auto.
Qed.

Lemma set_insert_all_nodup xs seen : NoDup seen -> NoDup (set_insert_all xs seen).
Proof.
  revert seen. induction xs as [|y r IH]; intros seen Hn; simpl; [exact Hn|].
  apply IH. destruct (existsb (String.eqb y) seen) eqn:E; [exact Hn|].
  apply NoDup_app; auto using NoDup_cons, NoDup_nil.
  intros x Hx [<-|[]]. assert (existsb (String.eqb y) seen = true); [|congruence].
  apply existsb_exists. exists y. split; [exact Hx|apply String.eqb_refl].
Qed.

End Aweme.

End CommerceExtraFacts.

Module CommerceExtras.
Import Js Commerce Specs CommerceLabels CommerceFacts CommerceExtraFacts ExtraSpecs.

Lemma assoc_str_In kvs k v : assoc_str kvs k = Some v -> In (k, v) kvs.
Proof.
  induction kvs as [|[k' v'] r IH]; simpl; [discriminate|].
  destruct (String.eqb_spec k k') as [->|_]; [intro E; injection E as ->; now left|].
  intro E. right. now apply IH.
Qed.

Lemma translations_differ k v : In (k, v) translations -> v <> "" /\ v <> k.
Proof.
  simpl. intro H.
  repeat (destruct H as [H|H]; [injection H as <- <-; split; discriminate|]).
  contradiction.
Qed.

Lemma translate_reason_shape r :
  reason_shape r -> exists t, translateCommerceReason r = TText t /\ t <> r.
Proof.
  intros [(x & ->)|[Hin|(x & ->)]].
  - assert (B : Str.starts_with "commerce_info_branded_type:" ("anchor:" ++ x) = false)
      by reflexivity.
    unfold translateCommerceReason. rewrite B, ExtractFacts.starts_with_app.
    unfold lookup_translation.
    destruct (assoc_str translations ("anchor:" ++ x)) as [s|] eqn:A.
    + apply assoc_str_In, translations_differ in A as [Hs Hd].
      rewrite (proj2 (String.eqb_neq s "") Hs). eexists. split; [reflexivity|exact Hd].
    + destruct (existsb (String.eqb ("anchor:" ++ x)) object_prototype_members) eqn:P.
      * exfalso. apply existsb_exists in P as (m & Hm & Em).
        apply String.eqb_eq in Em. rewrite <- Em in Hm. simpl in Hm.
        repeat (destruct Hm as [Hm|Hm]; [discriminate|]). contradiction.
      * eexists. split; [reflexivity|discriminate].
  - simpl in Hin.
    repeat (destruct Hin as [<-|Hin]; [eexists; split; [reflexivity|discriminate]|]).
    contradiction.
  - unfold translateCommerceReason. rewrite ExtractFacts.starts_with_app.
    eexists. split; [reflexivity|discriminate].
Qed.

Section Aweme.
Context `{Runtime}.

Lemma aweme_acc_ok v :
  let anchors :=
    match get v "anchors" with
    | Arr xs => xs
    | _ => match get v "anchor_info" with Arr xs => xs | _ => [] end
    end in
  let acc := list_step "right_products" v (list_step "products_info" v
               (list_step "bottom_products" v (fold_left anchor_step anchors ([], [])))) in
  acc_ok acc /\ reasons_ok acc.
Proof.
  cbv zeta. split.
  - apply list_step_keep, list_step_keep, list_step_keep, anchor_steps_keep. constructor.
  - apply list_step_reasons; [simpl; tauto|].
    apply list_step_reasons; [simpl; tauto|].
    apply list_step_reasons; [simpl; tauto|].
    apply anchor_steps_reasons. constructor.
Qed.

(** X3: every product in the detection result of [commerceFromAweme]
    has a product id, a title or a link. *)
Theorem commerceFromAweme_products_kept (v : value) :
  Forall (fun p => keep_product p = true) (products (commerceFromAweme v)).
Proof.
  pose proof (aweme_acc_ok v) as [Hk _]. revert Hk.
  unfold commerceFromAweme. cbv zeta.
  destruct (list_step "right_products" v _) as [prods r4]. intro Hk.
  cbn [products]. unfold acc_ok in Hk. simpl in Hk.
  apply Forall_forall. intros p Hp. unfold dedupeProducts in Hp.
  apply dedupe_loop_sub in Hp as [[]|Hp]. rewrite Forall_forall in Hk. now apply Hk.
Qed.

(** X4: no product id occurs twice among the products of the detection
    result. *)
Theorem commerceFromAweme_distinct_ids (v : value) :
  NoDup (ids (products (commerceFromAweme v))).
Proof.
  unfold commerceFromAweme. cbv zeta.
  destruct (list_step "right_products" v _) as [prods r4]. cbn [products].
  apply seen_ok_ids, dedupe_loop_ok. split; constructor.
Qed.

(** Both facts about the reasons of the detection result. *)
Lemma commerceFromAweme_reasons_facts (v : value) :
  NoDup (reasons (commerceFromAweme v)) /\
  forall r, In r (reasons (commerceFromAweme v)) ->
    exists t, translateCommerceReason r = TText t /\ t <> r.
Proof.
  pose proof (aweme_acc_ok v) as [_ Hr]. revert Hr.
  unfold commerceFromAweme. cbv zeta.
  destruct (list_step "right_products" v _) as [prods r4]. intro Hr.
  unfold reasons_ok in Hr. simpl in Hr. cbn [reasons]. unfold array_from_set.
  split; [apply set_insert_all_nodup; constructor|].
  intros r Hin. apply set_insert_all_In in Hin as [[]|Hin].
  apply translate_reason_shape.
  assert (Hall : Forall reason_shape
    (let reasons5 := if hasGoodsFlag v then app r4 ["commerce_goods_flag"] else r4 in
     let reasons6 := if commission v then app reasons5 ["commerce_info_commission"] else reasons5 in
     if branded v then app reasons6 ["commerce_info_branded_type:" ++ to_string (brandedType v)]
     else reasons6)).
  { cbv zeta.
    assert (H5 : Forall reason_shape (if hasGoodsFlag v then app r4 ["commerce_goods_flag"] else r4)).
    { destruct (hasGoodsFlag v); [|exact Hr]. apply Forall_app. split; [exact Hr|].
      constructor; [|constructor]. right. left. simpl. tauto. }
    assert (H6 : Forall reason_shape (if commission v then app (if hasGoodsFlag v then app r4 ["commerce_goods_flag"] else r4) ["commerce_info_commission"] else (if hasGoodsFlag v then app r4 ["commerce_goods_flag"] else r4))).
    { destruct (commission v); [|exact H5]. apply Forall_app. split; [exact H5|].
      constructor; [|constructor]. right. left. simpl. tauto. }
    destruct (branded v); [|exact H6]. apply Forall_app. split; [exact H6|].
    constructor; [|constructor]. right. right. eexists. reflexivity. }
  rewrite Forall_forall in Hall. apply Hall. exact Hin.
Qed.

(** X5: the reasons list of the detection result has no duplicates. *)
Theorem commerceFromAweme_reasons_distinct (v : value) :
  NoDup (reasons (commerceFromAweme v)).
Proof. exact (proj1 (commerceFromAweme_reasons_facts v)). Qed.

(** X6: every reason of the detection result has its own label:
    [translateCommerceReason] maps it to a text of the table, different
    from the reason code itself, and never to an inherited member. *)
Theorem commerceFromAweme_reasons_translated (v : value) :
  forall r, In r (reasons (commerceFromAweme v)) ->
    exists t, translateCommerceReason r = TText t /\ t <> r.
Proof. exact (proj2 (commerceFromAweme_reasons_facts v)). Qed.

End Aweme.
End CommerceExtras.

Module DedupeExtra.
Import Js Commerce Specs CommerceLabels CommerceFacts ExtraSpecs.

Lemma dedupe_key_shape p idx :
  id_of p = [dedupe_key p idx] \/ Str.has_char "#" (dedupe_key p idx) = true.
Proof.
  unfold id_of, dedupe_key.
  destruct (productId p) as [s|]; [destruct (String.eqb s "")|]; auto;
    right; rewrite has_char_app; simpl; rewrite orb_true_r; reflexivity.
Qed.

Lemma dedupe_loop_grows kp ps idx seen : In kp seen -> In kp (dedupe_loop ps idx seen).
Proof.
  revert idx seen. induction ps as [|p r IH]; intros idx seen Hin; simpl; [exact Hin|].
  apply IH. destruct (map_has _ seen); [exact Hin|]. apply in_or_app. now left.
Qed.

Lemma dedupe_loop_key_inv ps idx seen : key_inv seen -> key_inv (dedupe_loop ps idx seen).
Proof.
  revert idx seen. induction ps as [|p r IH]; intros idx seen Hk; simpl; [exact Hk|].
  apply IH. destruct (map_has _ seen); [exact Hk|].
  apply Forall_app. split; [exact Hk|]. constructor; [|constructor]. apply dedupe_key_shape.
Qed.

Lemma id_of_some q s : id_of q = [s] -> productId q = Some s.
Proof.
  unfold id_of. destruct (productId q) as [s'|]; [|discriminate].
  destruct (String.eqb s' ""); [discriminate|]. intro E; now injection E as ->.
Qed.

Lemma dedupe_loop_keeps_id p ps idx seen s :
  key_inv seen -> In p ps -> productId p = Some s -> s <> "" -> Str.has_char "#" s = false ->
  exists q, In (s, q) (dedupe_loop ps idx seen) /\ productId q = Some s.
Proof.
  revert idx seen. induction ps as [|p' r IH]; intros idx seen Hk Hin Hp Hs Hh;
    [contradiction|].
  destruct Hin as [->|Hin].
  - simpl. assert (Hkey : dedupe_key p idx = s).
    { unfold dedupe_key. rewrite Hp. now rewrite (proj2 (String.eqb_neq s "") Hs). }
    rewrite Hkey. destruct (map_has s seen) eqn:Em.
    + apply map_has_In, in_map_iff in Em as ([k q] & Ek & Hq). simpl in Ek. subst k.
      exists q. split; [now apply dedupe_loop_grows|].
      unfold key_inv in Hk. rewrite Forall_forall in Hk.
      destruct (Hk _ Hq) as [E|E]; simpl in E; [now apply id_of_some|congruence].
    + exists p. split; [|exact Hp].
      apply dedupe_loop_grows, in_or_app. right. now left.
  - simpl. apply IH; auto.
    destruct (map_has _ seen); [exact Hk|].
    apply Forall_app. split; [exact Hk|]. constructor; [|constructor]. apply dedupe_key_shape.
Qed.

(** X7: when no product id contains [#], every product id of the input
    list survives [dedupeProducts]: some product of the output carries it. *)
Theorem dedupeProducts_keeps_ids (ps : list CommerceProduct) (p : CommerceProduct) :
  Forall (fun q => no_hash_id q = true) ps -> In p ps -> present (productId p) = true ->
  exists q, In q (dedupeProducts ps) /\ productId q = productId p.
Proof.
  intros HF Hin Hpr. unfold present in Hpr.
  destruct (productId p) as [s|] eqn:Hp; [|discriminate].
  apply negb_true_iff, String.eqb_neq in Hpr.
  assert (Hh : Str.has_char "#" s = false).
  { rewrite Forall_forall in HF. specialize (HF p Hin). unfold no_hash_id in HF.
    rewrite Hp in HF. now apply negb_true_iff. }
  destruct (dedupe_loop_keeps_id p ps 0 [] s (Forall_nil _) Hin Hp Hpr Hh) as (q & Hq & Eq).
  exists q. split; [|exact Eq]. unfold dedupeProducts. apply in_map_iff. now exists (s, q).
Qed.

(** The built product link is an http(s) URL. *)
Lemma isHttpUrl_buildProductLink id : isHttpUrl (buildProductLink id) = true.
Proof. reflexivity. Qed.

(** X8: [pickProductLink] returns the empty string or an http(s) URL,
    and the empty string exactly when the product has no product id and
    no link that is an http(s) URL. *)
Theorem pickProductLink_http (p : CommerceProduct) :
  (pickProductLink p = "" \/ isHttpUrl (pickProductLink p) = true) /\
  (pickProductLink p = "" <->
   present (productId p) = false /\
   forall l, link p = Some l -> isHttpUrl l = false).
Proof.
  assert (Hid : forall o, (match o with
                           | Some q => if present (Some q) then buildProductLink q else ""
                           | None => "" end = "" <-> present o = false) /\
                          (match o with
                           | Some q => if present (Some q) then buildProductLink q else ""
                           | None => "" end = "" \/
                           isHttpUrl (match o with
                           | Some q => if present (Some q) then buildProductLink q else ""
                           | None => "" end) = true)).
  { intros [q|]; simpl; [|tauto]. destruct (negb (String.eqb q "")); simpl.
    - split; [split; discriminate|]. right. apply isHttpUrl_buildProductLink.
    - tauto. }
  unfold pickProductLink. destruct (link p) as [l|] eqn:El.
  - destruct (present (Some l) && isHttpUrl l) eqn:Eh.
    + apply andb_true_iff in Eh as [Hl Hh]. split; [now right|].
      split; [intro E; subst l; discriminate|].
      intros [_ Hf]. specialize (Hf l eq_refl). congruence.
    + destruct (Hid (productId p)) as [H1 H2]. split; [exact H2|].
      rewrite H1. split; [|tauto]. intros Hp; split; [exact Hp|].
      intros l' E. injection E as <-. unfold present in Eh.
      destruct (String.eqb_spec l ""); [subst; reflexivity|exact Eh].
  - destruct (Hid (productId p)) as [H1 H2]. split; [exact H2|].
    rewrite H1. split; [intro; split; [assumption|discriminate]|tauto].
Qed.

End DedupeExtra.

Module ScanExtras.
Import Js Cells Scan ExtraSpecs.

Section S.
Context {W : Type}.
Variable getRecords : W -> nat -> option string -> option (W * Page).
Variable getFieldMetaList : W -> option (W * list FieldMeta).

(** Every record of every page the table returns satisfies [P]. *)
Variable P : RecordItem -> Prop.
Hypothesis HP : forall w t w' page, getRecords w pageSize t = Some (w', page) ->
  forall r, In r (page_records page) -> P r.

Lemma empty_loop_sound fuel stop maxScan w t scanned acc w' ids :
  (forall i, In i acc -> exists r, P r /\ recordId r = i /\ isRecordEmpty (fields r) = true) ->
  empty_loop getRecords fuel stop maxScan w t scanned acc = Done w' ids ->
  forall i, In i ids -> exists r, P r /\ recordId r = i /\ isRecordEmpty (fields r) = true.
Proof.
  revert w t scanned acc. induction fuel as [|f IH]; intros w t scanned acc Hacc E;
    simpl in E; [discriminate|].
  destruct (stop w); [injection E as _ <-; exact Hacc|].
  destruct (getRecords w pageSize t) as [[w1 page]|] eqn:G; [|discriminate].
  assert (Hacc' : forall i, In i (app acc (map recordId
                    (filter (fun r => isRecordEmpty (fields r)) (page_records page)))) ->
                  exists r, P r /\ recordId r = i /\ isRecordEmpty (fields r) = true).
  { intros i Hi. apply in_app_or in Hi as [Hi|Hi]; [now apply Hacc|].
    apply in_map_iff in Hi as (r & <- & Hr). apply filter_In in Hr as [Hr He].
    exists r. split; [exact (HP _ _ _ _ G r Hr)|auto]. }
  destruct (hasMore page && _); [exact (IH _ _ _ _ Hacc' E)|].
  injection E as _ <-. exact Hacc'.
Qed.

Lemma add_keys_sound (normalizer : value -> option string) `{Runtime} fid rs keys keys' :
  add_keys normalizer fid rs keys = Some keys' ->
  (forall r, In r rs -> P r) ->
  NoDup keys -> (forall k, In k keys -> k <> "" /\ exists r, P r /\
                   normalizer (extractTextFromCell (cell_of r fid)) = Some k) ->
  NoDup keys' /\ (forall k, In k keys' -> k <> "" /\ exists r, P r /\
                   normalizer (extractTextFromCell (cell_of r fid)) = Some k).
Proof.
  revert keys. induction rs as [|r rs IH]; intros keys E Hrs Hn Hk; simpl in E.
  - injection E as <-. now split.
  - destruct (normalizer (extractTextFromCell (cell_of r fid))) as [key|] eqn:Ek;
      [|discriminate].
    apply (IH _ E); [intros; apply Hrs; now right| |].
    + destruct (String.eqb key ""); [exact Hn|]. unfold set_add.
      destruct (existsb (String.eqb key) keys) eqn:Ex; [exact Hn|].
      apply NoDup_app; auto using NoDup_cons, NoDup_nil.
      intros x Hx [<-|[]]. assert (existsb (String.eqb key) keys = true); [|congruence].
      apply existsb_exists. exists key. split; [exact Hx|apply String.eqb_refl].
    + intros k Hin. destruct (String.eqb_spec key ""); [now apply Hk|].
      unfold set_add in Hin. destruct (existsb (String.eqb key) keys); [now apply Hk|].
      apply in_app_or in Hin as [Hin|[<-|[]]]; [now apply Hk|].
      split; [assumption|]. exists r. split; [apply Hrs; now left|exact Ek].
Qed.

Lemma keys_loop_sound (normalizer : value -> option string) `{Runtime} fuel fid maxScan w more t
    scanned keys w' keys' :
  keys_loop getRecords normalizer fuel fid maxScan w more t scanned keys = Done w' keys' ->
  NoDup keys -> (forall k, In k keys -> k <> "" /\ exists r, P r /\
                   normalizer (extractTextFromCell (cell_of r fid)) = Some k) ->
  NoDup keys' /\ (forall k, In k keys' -> k <> "" /\ exists r, P r /\
                   normalizer (extractTextFromCell (cell_of r fid)) = Some k).
Proof.
  revert w more t scanned keys. induction fuel as [|f IH]; intros w more t scanned keys E Hn Hk;
    simpl in E; [discriminate|].
  destruct (more && Nat.ltb scanned maxScan); [|injection E as _ <-; now split].
  destruct (getRecords w pageSize t) as [[w1 page]|] eqn:G; [|discriminate].
  destruct (add_keys normalizer fid (page_records page) keys) as [k1|] eqn:A; [|discriminate].
  destruct (add_keys_sound normalizer fid _ _ _ A (HP _ _ _ _ G) Hn Hk) as [Hn1 Hk1].
  exact (IH _ _ _ _ _ E Hn1 Hk1).
Qed.

End S.

Section Loops.
Context {W : Type}.
Variable getRecords : W -> nat -> option string -> option (W * Page).

Lemma empty_loop_diverges fuel stop m w t acc :
  0 < m -> (forall w, stop w = false) ->
  (forall w t, exists w' page, getRecords w pageSize t = Some (w', page) /\
                 page_records page = [] /\ hasMore page = true) ->
  empty_loop getRecords fuel stop m w t 0 acc = OutOfFuel.
Proof.
  intros Hm Hs Hg. revert w t acc. induction fuel as [|f IH]; intros w t acc; [reflexivity|].
  simpl. rewrite Hs. destruct (Hg w t) as (w' & page & -> & Hr & Hh).
  rewrite Hr, Hh. simpl. destruct (Nat.ltb_spec 0 m); [|lia]. apply IH.
Qed.

Lemma keys_loop_diverges `{Runtime} normalizer fuel fid m w t keys :
  0 < m ->
  (forall w t, exists w' page, getRecords w pageSize t = Some (w', page) /\
                 page_records page = [] /\ hasMore page = true) ->
  keys_loop getRecords normalizer fuel fid m w true t 0 keys = OutOfFuel.
Proof.
  intros Hm Hg. revert w t. induction fuel as [|f IH]; intros w t; [reflexivity|].
  simpl. destruct (Nat.ltb_spec 0 m); [|lia]. destruct (Hg w t) as (w' & page & -> & Hr & Hh).
  rewrite Hr, Hh. simpl. destruct (Nat.ltb_spec 0 m); [|lia]. apply IH.
Qed.

Lemma empty_loop_bounded fuel stop m w t scanned acc :
  (forall w t w' page, getRecords w pageSize t = Some (w', page) -> page_records page <> []) ->
  Nat.max 1 (m - scanned) <= fuel ->
  empty_loop getRecords fuel stop m w t scanned acc <> OutOfFuel.
Proof.
  intros Hne. revert w t scanned acc. induction fuel as [|f IH]; intros w t scanned acc Hf;
    pose proof (Nat.le_max_l 1 (m - scanned)); pose proof (Nat.le_max_r 1 (m - scanned));
    [lia|].
  simpl. destruct (stop w); [discriminate|].
  destruct (getRecords w pageSize t) as [[w1 page]|] eqn:G; [|discriminate].
  pose proof (Hne _ _ _ _ G) as Hp. destruct (page_records page) as [|r rs] eqn:Er;
    [contradiction|].
  destruct (hasMore page && Nat.ltb (scanned + List.length (r :: rs)) m) eqn:C;
    [|discriminate].
  apply andb_true_iff in C as [_ C]. apply Nat.ltb_lt in C. simpl in C.
  assert (Hm : m - scanned <= S f) by (eapply Nat.le_trans; [|exact Hf]; apply Nat.le_max_r).
  apply IH. apply Nat.max_lub. all: clear -C Hm; simpl; lia.
Qed.

Lemma keys_loop_bounded `{Runtime} normalizer fuel fid m w more t scanned keys :
  (forall w t w' page, getRecords w pageSize t = Some (w', page) -> page_records page <> []) ->
  m - scanned + 1 <= fuel ->
  keys_loop getRecords normalizer fuel fid m w more t scanned keys <> OutOfFuel.
Proof.
  intros Hne. revert w more t scanned keys.
  induction fuel as [|f IH]; intros w more t scanned keys Hf; [lia|].
  simpl. destruct (more && Nat.ltb scanned m) eqn:C; [|discriminate].
  apply andb_true_iff in C as [_ C]. apply Nat.ltb_lt in C.
  destruct (getRecords w pageSize t) as [[w1 page]|] eqn:G; [|discriminate].
  pose proof (Hne _ _ _ _ G) as Hp.
  destruct (add_keys normalizer fid (page_records page) keys); [|discriminate].
  apply IH. destruct (page_records page) as [|r rs]; [contradiction|]. simpl. lia.
Qed.

End Loops.
End ScanExtras.

Module ScanTheorems.
Import Js Cells Scan ScanExtras ExtraSpecs.

(** X9: every id [getEmptyRecords] returns is the [recordId] of a record
    some [getRecords] page delivered, whose fields [isRecordEmpty] finds
    empty.  [P] is any property all delivered records have. *)
Theorem getEmptyRecords_only_empty {W : Type}
    (getRecords : W -> nat -> option string -> option (W * Page))
    (P : RecordItem -> Prop)
    (HP : forall w t w' page, getRecords w pageSize t = Some (w', page) ->
          forall r, In r (page_records page) -> P r)
    fuel w stopRef maxScan w' ids :
  getEmptyRecords getRecords fuel w stopRef maxScan = Done w' ids ->
  forall i, In i ids -> exists r, P r /\ recordId r = i /\ isRecordEmpty (fields r) = true.
Proof.
  unfold getEmptyRecords. intro E.
  exact (empty_loop_sound getRecords P HP _ _ _ _ _ _ _ _ _ (fun i (Hi : In i []) => False_ind _ Hi) E).
Qed.

(** X10: a record with a number, a boolean, an object cell without
    [link]/[text] content, or an array cell whose first element is not an
    object with [link]/[text] content, is not empty. *)
Theorem isRecordEmpty_content (kvs : list (string * value)) k v :
  In (k, v) kvs ->
  match v with
  | Num _ | Bool _ => True
  | Arr (x :: _) => match x with Obj kvs' => link_text_empty kvs' = None | _ => True end
  | Obj kvs' => link_text_empty kvs' = None
  | _ => False
  end ->
  isRecordEmpty (Some kvs) = false.
Proof.
  intros Hin Hv. unfold isRecordEmpty. apply not_true_iff_false. intro Hall.
  rewrite forallb_forall in Hall. specialize (Hall _ Hin). simpl in Hall.
  destruct v as [| |b|q|s|[|x xs]|kvs']; try contradiction; simpl in Hall;
    try discriminate.
  - destruct x; try discriminate. simpl in Hv. rewrite Hv in Hall. discriminate.
  - rewrite Hv in Hall. discriminate.
Qed.

(** X11: when every page comes back with no records and [hasMore] true,
    neither [getEmptyRecords] nor [collectExistingKeys] (with the field
    found) ever ends, however many iterations are allowed: [scanned] never
    grows, so the [scanned < maxScan] guard never stops the loop. *)
Theorem scans_never_end_on_empty_pages {W : Type} `{Runtime}
    (getRecords : W -> nat -> option string -> option (W * Page))
    (getFieldMetaList : W -> option (W * list FieldMeta))
    (normalizer : value -> option string)
    w stopRef m fieldName w1 metas meta :
  0 < m ->
  (forall w t, exists w' page, getRecords w pageSize t = Some (w', page) /\
                 page_records page = [] /\ hasMore page = true) ->
  (forall s w, stopRef = Some s -> s w = false) ->
  getFieldMetaList w = Some (w1, metas) ->
  find (fun meta => String.eqb (name meta) fieldName) metas = Some meta ->
  forall fuel,
    getEmptyRecords getRecords fuel w stopRef (Some m) = OutOfFuel /\
    collectExistingKeys getRecords getFieldMetaList normalizer fuel w fieldName (Some m)
      = OutOfFuel.
Proof.
  intros Hm Hg Hs Hf Hfind fuel. split.
  - unfold getEmptyRecords. apply empty_loop_diverges; auto.
    intro w0. destruct stopRef as [s|]; [now apply Hs|reflexivity].
  - unfold collectExistingKeys. rewrite Hf, Hfind. apply keys_loop_diverges; auto.
Qed.

(** X12: when every page holds at least one record, [getEmptyRecords]
    ends within [max 1 maxScan] page requests and [collectExistingKeys]
    within [maxScan + 1]. *)
Theorem scans_bounded_by_maxScan {W : Type} `{Runtime}
    (getRecords : W -> nat -> option string -> option (W * Page))
    (getFieldMetaList : W -> option (W * list FieldMeta))
    (normalizer : value -> option string) w stopRef m fieldName :
  (forall w t w' page, getRecords w pageSize t = Some (w', page) -> page_records page <> []) ->
  (forall fuel, Nat.max 1 m <= fuel ->
     getEmptyRecords getRecords fuel w stopRef (Some m) <> OutOfFuel) /\
  (forall fuel, S m <= fuel ->
     collectExistingKeys getRecords getFieldMetaList normalizer fuel w fieldName (Some m)
       <> OutOfFuel).
Proof.
  intros Hne. split; intros fuel Hf.
  - unfold getEmptyRecords. apply empty_loop_bounded; [exact Hne|]. rewrite Nat.sub_0_r. exact Hf.
  - unfold collectExistingKeys. destruct (getFieldMetaList w) as [[w1 metas]|]; [|discriminate].
    destruct (find _ metas); [|discriminate].
    apply keys_loop_bounded; [exact Hne|]. lia.
Qed.

(** X13: the keys [collectExistingKeys] returns are distinct and
    non-empty, and each is the [normalizer] of the text of the named
    field's cell in a delivered record. *)
Theorem collectExistingKeys_sound {W : Type} `{Runtime}
    (getRecords : W -> nat -> option string -> option (W * Page))
    (getFieldMetaList : W -> option (W * list FieldMeta))
    (normalizer : value -> option string)
    (P : RecordItem -> Prop)
    (HP : forall w t w' page, getRecords w pageSize t = Some (w', page) ->
          forall r, In r (page_records page) -> P r)
    fuel w fieldName maxScan w' keys :
  collectExistingKeys getRecords getFieldMetaList normalizer fuel w fieldName maxScan
    = Done w' keys ->
  NoDup keys /\
  forall k, In k keys -> k <> "" /\
    exists w1 metas meta r,
      getFieldMetaList w = Some (w1, metas) /\
      find (fun meta => String.eqb (name meta) fieldName) metas = Some meta /\
      P r /\ normalizer (extractTextFromCell (cell_of r (id meta))) = Some k.
Proof.
  unfold collectExistingKeys.
  destruct (getFieldMetaList w) as [[w1 metas]|] eqn:Gf; [|discriminate].
  destruct (find _ metas) as [meta|] eqn:Fm.
  - intro E. destruct (keys_loop_sound getRecords P HP normalizer _ _ _ _ _ _ _ _ _ _ E
                         (NoDup_nil _) (fun k (Hk : In k []) => False_ind _ Hk)) as [Hn Hk].
    split; [exact Hn|]. intros k Hin. destruct (Hk k Hin) as [Hne (r & Hr & Ek)].
    split; [exact Hne|]. exists w1, metas, meta, r. auto.
  - intro E. injection E as _ <-. split; [constructor|intros k []].
Qed.

End ScanTheorems.

Module WriteBackExtras.
Import Bitable Specs BitableFacts ExtraSpecs.

Section Facts.
Context {W Cell : Type} `{Table W Cell}.

Lemma fold_set_nth_length (l : list (nat * string)) ids :
  List.length (fold_left (fun ids ir => set_nth ids (fst ir) (snd ir)) l ids) = List.length ids.
Proof.
  revert ids. induction l as [|[i s] l IH]; intro ids; simpl; [reflexivity|].
  rewrite IH. apply set_nth_length.
Qed.

Lemma record_batch_ids_length (chunk : list (@Pending Cell)) res ids :
  List.length (record_batch_ids chunk res ids) = List.length ids.
Proof.
  revert res ids. induction chunk as [|t chunk IH]; intros [|e res] ids; simpl; auto.
  rewrite IH. destruct e as [s| [s|] |]; auto; try apply set_nth_length.
  destruct (String.eqb s ""); auto; apply set_nth_length.
Qed.

Lemma add_one_by_one_length w (chunk : list (@Pending Cell)) ids w' ids' :
  add_one_by_one w chunk ids = Some (w', ids') -> List.length ids' = List.length ids.
Proof.
  revert w ids. induction chunk as [|t chunk IH]; intros w ids E; simpl in E.
  - now injection E as _ <-.
  - destruct (addRecord w (snd t)) as [[w1 e]|]; [|discriminate].
    rewrite (IH _ _ E). destruct e as [s| [s|] |]; auto; apply set_nth_length.
Qed.

Lemma append_chunks_length stopRef w (chunks : list (list (@Pending Cell))) a ids w' n ids' :
  append_chunks stopRef w chunks a ids = Some (w', n, ids') ->
  List.length ids' = List.length ids.
Proof.
  revert w a ids. induction chunks as [|c cs IH]; intros w a ids E; simpl in E.
  - now injection E as _ _ <-.
  - destruct (match stopRef with Some stop => stop w | None => false end);
      [now injection E as _ _ <-|].
    destruct addRecords as [fn|].
    + destruct (fn w (map snd c)) as [[w1 [|res]]|]; [| |discriminate].
      * exact (IH _ _ _ E).
      * rewrite (IH _ _ _ E). apply record_batch_ids_length.
    + destruct (add_one_by_one w c ids) as [[w1 ids1]|] eqn:A; [|discriminate].
      rewrite (IH _ _ _ E). exact (add_one_by_one_length _ _ _ _ _ A).
Qed.

Lemma append_chunks_count stopRef w (chunks : list (list (@Pending Cell))) a ids w' n ids' :
  (forall s w, stopRef = Some s -> s w = false) ->
  append_chunks stopRef w chunks a ids = Some (w', n, ids') ->
  n = a + List.length (List.concat chunks).
Proof.
  intro Hs. revert w a ids. induction chunks as [|c cs IH]; intros w a ids E; simpl in E.
  - injection E as _ <- _. simpl. lia.
  - assert (Hst : match stopRef with Some stop => stop w | None => false end = false)
      by (destruct stopRef as [s|]; [now apply Hs|reflexivity]).
    rewrite Hst in E. simpl. rewrite length_app.
    destruct addRecords as [fn|].
    + destruct (fn w (map snd c)) as [[w1 [|res]]|]; [| |discriminate];
        rewrite (IH _ _ _ E); lia.
    + destruct (add_one_by_one w c ids) as [[w1 ids1]|]; [|discriminate].
      rewrite (IH _ _ _ E). lia.
Qed.

Lemma fill_count stop w ids (records : list (@Pending Cell)) :
  let '(_, res) := fillEmptyRecords w ids records stop in
  filledCount res + List.length (remainingRecords res) = List.length records.
Proof.
  unfold fillEmptyRecords. pose proof (fill_loop_conserve stop w ids records 0 []) as C.
  destruct (fill_loop stop w ids records 0 []) as [w' res]. destruct C as [P C].
  apply Permutation_length in P. rewrite !length_app, !length_map in P.
  simpl in C, P. unfold Pending, Fields in *. lia.
Qed.

Lemma nodup_snd_fill stop w ids (rem : list (@Pending Cell)) filled fids :
  NoDup (app (map snd fids) ids) ->
  let '(_, res) := fill_loop stop w ids rem filled fids in
  NoDup (map snd (filledRecordIds res)) /\
  incl (map snd (filledRecordIds res)) (app (map snd fids) ids).
Proof.
  revert w rem filled fids. induction ids as [|id ids IH]; intros w rem filled fids Hn;
    cbn [fill_loop].
  - simpl. rewrite app_nil_r in *. split; [exact Hn|apply incl_refl].
  - destruct (stop w); [simpl; split; [|apply incl_appl, incl_refl]|].
    { eapply NoDup_app_remove_r. exact Hn. }
    destruct rem as [|r rest]; [simpl; split; [|apply incl_appl, incl_refl]|].
    { eapply NoDup_app_remove_r. exact Hn. }
    destruct (write_fields stop w id (snd r)) as [w' ok]. destruct ok.
    + specialize (IH w' rest (S filled) (app fids [(fst r, id)])).
      rewrite map_app, <- app_assoc in IH. specialize (IH Hn).
      destruct (fill_loop _ _ _ _ _ _) as [w2 res]. destruct IH as [N I].
      split; [exact N|exact I].
    + specialize (IH w' (app rest [r]) filled fids).
      destruct (fill_loop _ _ _ _ _ _) as [w2 res].
      destruct IH as [N I]; [now apply NoDup_remove_1 with id|].
      split; [exact N|]. intros x Hx. apply I in Hx. apply in_app_or in Hx as [Hx|Hx];
        apply in_or_app; [now left|right; now right].
Qed.


Lemma append_tail stopRef w1 filled (remaining : list (@Pending Cell)) ids1
    (empty1 : option (list string)) bs w' res e' :
  (if Nat.ltb 0 (List.length remaining)
      && negb (match stopRef with Some stop => stop w1 | None => false end) then
     if Nat.eqb bs 0 then None else
     match append_chunks stopRef w1 (chunks_of (List.length remaining) bs remaining) 0 ids1 with
     | None => None
     | Some (w2, appended, ids2) => Some (w2, mkAdd filled appended ids2, empty1)
     end
   else Some (w1, mkAdd filled 0 ids1, empty1)) = Some (w', res, e') ->
  List.length (recordIds res) = List.length ids1 /\ res_filledCount res = filled /\
  e' = empty1 /\
  ((forall s w, stopRef = Some s -> s w = false) ->
   appendedCount res = List.length remaining).
Proof.
  intro E.
  destruct (Nat.ltb 0 (List.length remaining)
      && negb (match stopRef with Some stop => stop w1 | None => false end)) eqn:C.
  - destruct (Nat.eqb_spec bs 0) as [|Hb]; [discriminate|].
    destruct (append_chunks _ _ _ _ _) as [[[w2 n] ids2]|] eqn:A; [|discriminate].
    injection E as <- <- <-. cbn [recordIds res_filledCount appendedCount].
    split; [exact (append_chunks_length _ _ _ _ _ _ _ _ A)|].
    split; [reflexivity|]. split; [reflexivity|]. intro Hs.
    rewrite (append_chunks_count _ _ _ _ _ _ _ _ Hs A).
    rewrite chunks_of_concat by lia. reflexivity.
  - injection E as <- <- <-. cbn [recordIds res_filledCount appendedCount].
    split; [reflexivity|]. split; [reflexivity|]. split; [reflexivity|]. intro Hs.
    assert (Hst : match stopRef with Some stop => stop w1 | None => false end = false)
      by (destruct stopRef as [s|]; [now apply Hs|reflexivity]).
    rewrite Hst, andb_true_r in C. apply Nat.ltb_ge in C. lia.
Qed.

Lemma addRecordsInBatches_shape w (records : list (@Fields Cell)) bs emptyRecordIds stopRef
    w' res e' :
  addRecordsInBatches w records bs emptyRecordIds stopRef = Some (w', res, e') ->
  List.length (recordIds res) = List.length records /\
  ((forall s w, stopRef = Some s -> s w = false) ->
   res_filledCount res + appendedCount res = List.length records).
Proof.
  unfold addRecordsInBatches. cbv zeta.
  assert (Plain : forall e, (if Nat.ltb 0 (List.length (indexed records))
      && negb (match stopRef with Some stop => stop w | None => false end) then
     if Nat.eqb bs 0 then None else
     match append_chunks stopRef w (chunks_of (List.length (indexed records)) bs (indexed records))
             0 (repeat "" (List.length records)) with
     | None => None
     | Some (w2, appended, ids2) => Some (w2, mkAdd 0 appended ids2, e)
     end
   else Some (w, mkAdd 0 0 (repeat "" (List.length records)), e)) = Some (w', res, e') ->
    List.length (recordIds res) = List.length records /\
    ((forall s w, stopRef = Some s -> s w = false) ->
     res_filledCount res + appendedCount res = List.length records)).
  { intros e E.
    destruct (append_tail stopRef w 0 (indexed records) (repeat "" (List.length records))
                e bs w' res e' E) as (L & F & _ & A).
    rewrite L, repeat_length. split; [reflexivity|].
    intro Hs. rewrite F, (A Hs), length_indexed. reflexivity. }
  destruct emptyRecordIds as [empty|]; [destruct stopRef as [stop|]|];
    [|intro E; cbv beta iota in E; exact (Plain _ E) ..].
  destruct (Nat.ltb 0 (List.length empty));
    [|intro E; cbv beta iota in E; exact (Plain _ E)].
  destruct (Nat.ltb 0 (List.length (firstn (List.length (indexed records)) empty)));
    [|intro E; cbv beta iota in E; exact (Plain _ E)].
  pose proof (fill_count stop w (firstn (List.length (indexed records)) empty)
                (indexed records)) as Fc.
  destruct (fillEmptyRecords _ _ _ _) as [w1 fres].
  intro E. cbv beta iota in E.
  destruct (append_tail (Some stop) w1 (filledCount fres) (remainingRecords fres)
              (fold_left (fun ids ir => set_nth ids (fst ir) (snd ir))
                 (filledRecordIds fres) (repeat "" (List.length records)))
              _ bs w' res e' E) as (L & F & _ & A).
  rewrite L, fold_set_nth_length, repeat_length. split; [reflexivity|].
  intro Hs. rewrite F, (A Hs). rewrite length_indexed in Fc. exact Fc.
Qed.

Lemma fillEmptyRecords_distinct_shape w ids (records : list (@Pending Cell)) stop :
  NoDup (map fst records) -> NoDup ids ->
  let '(_, res) := fillEmptyRecords w ids records stop in
  NoDup (map fst (filledRecordIds res)) /\ NoDup (map snd (filledRecordIds res)) /\
  incl (map fst (filledRecordIds res)) (map fst records) /\
  incl (map snd (filledRecordIds res)) ids.
Proof.
  intros Hr Hi. unfold fillEmptyRecords.
  pose proof (fill_loop_conserve stop w ids records 0 []) as C.
  pose proof (nodup_snd_fill stop w ids records 0 [] Hi) as D.
  destruct (fill_loop stop w ids records 0 []) as [w' res].
  destruct C as [P _]. destruct D as [D I]. simpl in P, I. rewrite app_nil_r in P.
  assert (N : NoDup (map fst (remainingRecords res) ++ map fst (filledRecordIds res)))
    by (eapply Permutation_NoDup; [symmetry; exact P|exact Hr]).
  split; [eapply NoDup_app_remove_l; exact N|].
  split; [exact D|]. split; [|exact I].
  intros x Hx. eapply Permutation_in; [exact P|]. apply in_or_app. now right.
Qed.

End Facts.
End WriteBackExtras.

Module WriteBackTheorems.
Import Bitable Specs BitableFacts WriteBackExtras ExtraSpecs.

Section Thms.
Context {W Cell : Type} `{Table W Cell}.

(** X14: the id array [addRecordsInBatches] returns always has one entry
    per input record, whatever the fill and append calls return. *)
Theorem addRecordsInBatches_ids_length w (records : list (@Fields Cell)) bs emptyRecordIds
    stopRef w' res e' :
  addRecordsInBatches w records bs emptyRecordIds stopRef = Some (w', res, e') ->
  List.length (recordIds res) = List.length records.
Proof. intro E. exact (proj1 (addRecordsInBatches_shape _ _ _ _ _ _ _ _ E)). Qed.

(** X15: when the stop flag is never raised, [filledCount + appendedCount]
    is the number of input records: every record is written by exactly one
    of the two phases. *)
Theorem addRecordsInBatches_counts w (records : list (@Fields Cell)) bs emptyRecordIds
    stopRef w' res e' :
  (forall s w, stopRef = Some s -> s w = false) ->
  addRecordsInBatches w records bs emptyRecordIds stopRef = Some (w', res, e') ->
  res_filledCount res + appendedCount res = List.length records.
Proof. intros Hs E. exact (proj2 (addRecordsInBatches_shape _ _ _ _ _ _ _ _ E) Hs). Qed.

(** X17: with the stop flag already raised, [addRecordsInBatches] makes no
    table call, returns zero filled and appended records and an all-empty id
    array, and still removes the ids it took from [emptyRecordIds]. *)
Theorem addRecordsInBatches_stopped w (records : list (@Fields Cell)) bs empty stop :
  stop w = true ->
  addRecordsInBatches w records bs (Some empty) (Some stop) =
  Some (w, mkAdd 0 0 (repeat "" (List.length records)),
        Some (if Nat.ltb 0 (List.length empty)
              then skipn (List.length records) empty else empty)).
Proof.
  intro Hs. unfold addRecordsInBatches. cbv zeta. rewrite length_indexed.
  destruct (Nat.ltb 0 (List.length empty)).
  - destruct (Nat.ltb 0 (List.length (firstn (List.length records) empty))) eqn:L.
    + destruct (firstn (List.length records) empty) as [|id ids]; [discriminate|].
      unfold fillEmptyRecords. cbn [fill_loop]. rewrite Hs.
      cbv beta iota. rewrite Hs. rewrite andb_false_r. reflexivity.
    + cbv beta iota. rewrite Hs, andb_false_r. reflexivity.
  - cbv beta iota. rewrite Hs, andb_false_r. reflexivity.
Qed.

(** X18: for distinct record indices and distinct empty-row ids,
    [fillEmptyRecords] reports distinct indices, each of an input record,
    paired with distinct row ids, each from the given ids. *)
Theorem fillEmptyRecords_distinct w ids (records : list (@Pending Cell)) stop :
  NoDup (map fst records) -> NoDup ids ->
  let '(_, res) := fillEmptyRecords w ids records stop in
  NoDup (map fst (filledRecordIds res)) /\ NoDup (map snd (filledRecordIds res)) /\
  incl (map fst (filledRecordIds res)) (map fst records) /\
  incl (map snd (filledRecordIds res)) ids.
Proof. exact (fillEmptyRecords_distinct_shape w ids records stop). Qed.

End Thms.
End WriteBackTheorems.

Module KeywordExtras.
Import Js Collect CollectFacts ExtraSpecs.
Local Open Scope list_scope.

Lemma grows_refl ex : grows ex ex.
Proof. exists []. simpl. tauto. Qed.

Lemma grows_trans a b c : grows a b -> grows b c -> grows a c.
Proof.
  intros (x & -> & Hx & Nx) (y & -> & Hy & Ny). exists (y ++ x).
  split; [apply app_assoc|]. split.
  - intro Hin. apply in_app_or in Hin as [|]; tauto.
  - intro N. apply Ny, Nx, N.
Qed.


Section Loop.
Context `{Runtime}.
Variable url_parse : string -> option Url.URL.
Variable shareLink : value -> string.
Variable buildRecord : value -> bool.
Variable writeBatch : nat -> nat.
Variable toNewTable : bool.
Variable server : nat -> string -> Response.

Lemma advance_keeps g st data :
  existingLinks (snd (advance g st data)) = existingLinks st /\
  fetched (snd (advance g st data)) = fetched st.
Proof.
  unfold advance. destruct (truthy _); [|split; reflexivity].
  destruct (_ || _); [|split; reflexivity].
  destruct (missingNextCursorOffset st) as [o|]; [destruct (String.eqb o _)|]; split; reflexivity.
Qed.

Lemma item_loop_grows g items ex n ex' n' b :
  item_loop url_parse shareLink buildRecord g items ex n = (ex', n', b) -> grows ex ex'.
Proof.
  revert ex n. induction items as [|it items IH]; intros ex n E; simpl in E.
  - injection E as <- _ _. apply grows_refl.
  - destruct (keywordStop g); [injection E as <- _ _; apply grows_refl|].
    set (k := Url.normalizeUrlKey url_parse (shareLink (get it "aweme_info"))) in E.
    destruct (String.eqb k "" || existsb (String.eqb k) ex) eqn:C; [exact (IH _ _ E)|].
    apply orb_false_iff in C as [C1 C2].
    assert (G : grows ex (k :: ex)).
    { exists [k]. split; [reflexivity|]. split.
      - intros [e|[]]. rewrite e in C1. discriminate.
      - intro N. constructor; [|exact N]. intro Hin.
        assert (existsb (String.eqb k) ex = true) by
          (apply existsb_exists; exists k; split; [exact Hin|apply String.eqb_refl]).
        congruence. }
    destruct (buildRecord it); eapply grows_trans; [exact G|exact (IH _ _ E)|exact G|exact (IH _ _ E)].
Qed.

Lemma step_keeps g st :
  let st' := step_state (step url_parse shareLink buildRecord writeBatch toNewTable server g st) in
  fetched st' = fetched st ++ [offset st] /\ grows (existingLinks st) (existingLinks st') /\
  pageCount st' <= S (pageCount st).
Proof.
  unfold step. cbv zeta.
  destruct (handle429Error g _).
  2,3: cbn; split; [reflexivity|split; [apply grows_refl|lia]].
  destruct (negb (ok _)); [cbn; split; [reflexivity|split; [apply grows_refl|lia]]|].
  destruct (body _) as [data|]; [|cbn; split; [reflexivity|split; [apply grows_refl|lia]]].
  destruct (get data "search_item_list") as [| | | | |xs|];
    try (cbn; split; [reflexivity|split; [apply grows_refl|lia]]).
  cbn [existingLinks fetched hasMore offset pageCount missingNextCursorOffset totalWritten].
  destruct (filter valid_item xs) as [|v vs] eqn:Ef;
    [assert (G : grows (existingLinks st) (existingLinks st)) by apply grows_refl
    |destruct (item_loop url_parse shareLink buildRecord g (v :: vs) (existingLinks st) 0)
       as [[ex' n] stopped] eqn:Il;
     pose proof (item_loop_grows _ _ _ _ _ _ _ Il) as G]; cbv beta iota.
  2: destruct stopped; [cbn; split; [reflexivity|split; [exact G|lia]]|].
  all: cbv beta iota.
  all: match goal with |- context [match ?q with Some _ => _ | None => _ end] => destruct q end;
    [|cbn; split; [reflexivity|split; [exact G|lia]]].
  all: match goal with |- context [if keywordStop ?g1 then _ else _] => destruct (keywordStop g1) end;
    [cbn; split; [reflexivity|split; [exact G|lia]]|].
  all: match goal with |- context [advance ?g1 ?st1 ?data] =>
    pose proof (advance_keeps g1 st1 data) as [K1 K2];
    assert (Pc : pageCount (snd (advance g1 st1 data)) <= S (pageCount st1))
      by (unfold advance; destruct (truthy _); [|cbn; lia];
          destruct (_ || _); [|cbn; lia];
          destruct (missingNextCursorOffset st1) as [o|]; [destruct (String.eqb o _)|]; cbn; lia);
    destruct (advance g1 st1 data) as [g2 st2] end.
  all: cbn [snd existingLinks fetched pageCount] in K1, K2, Pc.
  all: destruct (keywordStop g2); cbn; (split; [exact K2|split; [rewrite K1; exact G|exact Pc]]).
Qed.

Lemma advance_total g st data :
  totalWritten (snd (advance g st data)) = totalWritten st.
Proof.
  unfold advance. destruct (truthy _); [|reflexivity].
  destruct (_ || _); [|reflexivity].
  destruct (missingNextCursorOffset st) as [o|]; [destruct (String.eqb o _)|]; reflexivity.
Qed.

(** A quota call that returns has a zero written count. *)
Lemma quota_some_zero n k x :
  (if Nat.eqb n 0 then Some (None, [])
   else Helpers.applyQuotaConsumption Helpers.consumeQuotaPoints [] None
          (count_q (if Nat.eqb n 0 then 0 else k))) = Some x ->
  (if Nat.eqb n 0 then 0 else k) = 0.
Proof.
  destruct (Nat.eqb n 0); [reflexivity|]. destruct k as [|k]; [reflexivity|].
  rewrite quota_call_throws by lia. discriminate.
Qed.

Lemma step_total g st :
  totalWritten (step_state (step url_parse shareLink buildRecord writeBatch toNewTable server g st))
    = totalWritten st.
Proof.
  unfold step. cbv zeta.
  destruct (handle429Error g _). 2,3: reflexivity.
  destruct (negb (ok _)); [reflexivity|].
  destruct (body _) as [data|]; [|reflexivity].
  destruct (get data "search_item_list") as [| | | | |xs|]; try reflexivity.
  cbn [existingLinks fetched hasMore offset pageCount missingNextCursorOffset totalWritten].
  destruct (filter valid_item xs) as [|v vs];
    [|destruct (item_loop url_parse shareLink buildRecord g (v :: vs) (existingLinks st) 0)
       as [[ex' n] stopped]; destruct stopped; [reflexivity|]]; cbv beta iota.
  all: match goal with |- context [match ?q with Some _ => _ | None => _ end] =>
         destruct q as [x|] eqn:Q end; [|reflexivity].
  all: apply quota_some_zero in Q; rewrite Q.
  all: match goal with |- context [if keywordStop ?g1 then _ else _] => destruct (keywordStop g1) end;
    [cbn; lia|].
  all: match goal with |- context [advance ?g1 ?st1 ?data] =>
    pose proof (advance_total g1 st1 data) as T; destruct (advance g1 st1 data) as [g2 st2] end.
  all: cbn [snd totalWritten] in T; destruct (keywordStop g2); cbn; lia.
Qed.

Lemma step_continue_shape g st g' st' :
  step url_parse shareLink buildRecord writeBatch toNewTable server g st = Continue g' st' ->
  exists g1 st1 data, advance g1 st1 data = (g', st') /\ keywordStop g' = false /\
    hasMore st1 = hasMore st /\ offset st1 = offset st /\ pageCount st1 = pageCount st /\
    missingNextCursorOffset st1 = missingNextCursorOffset st.
Proof.
  unfold step. cbv zeta.
  destruct (handle429Error g _); [|discriminate|discriminate].
  destruct (negb (ok _)); [discriminate|].
  destruct (body _) as [data|]; [|discriminate].
  destruct (get data "search_item_list") as [| | | | |xs|]; try discriminate.
  cbn [existingLinks fetched hasMore offset pageCount missingNextCursorOffset totalWritten].
  destruct (filter valid_item xs) as [|v vs];
    [|destruct (item_loop url_parse shareLink buildRecord g (v :: vs) (existingLinks st) 0)
       as [[ex' n] stopped]; destruct stopped; [discriminate|]]; cbv beta iota.
  all: match goal with |- context [match ?q with Some _ => _ | None => _ end] => destruct q end;
    [|discriminate].
  all: match goal with |- context [if keywordStop ?g1 then _ else _] => destruct (keywordStop g1) end;
    [discriminate|].
  all: match goal with |- context [advance ?g1 ?st1 ?data] =>
    destruct (advance g1 st1 data) as [g2 st2] eqn:A end.
  all: destruct (keywordStop g2) eqn:K; intro E; [discriminate|]; injection E as <- <-.
  all: do 3 eexists; split; [exact A|]; split; [exact K|]; repeat split.
Qed.

End Loop.

Lemma budget_pos g st :
  keyword_may_fetch g (hasMore st) (pageCount st) = true -> 2 <= budget g st.
Proof.
  intro K. unfold budget. rewrite K. unfold keyword_may_fetch in K.
  apply andb_true_iff in K as [_ K]. apply Nat.ltb_lt in K. lia.
Qed.

Lemma advance_budget `{Runtime} g1 st1 data g' st' :
  pageCount st1 < maxPages ->
  advance g1 st1 data = (g', st') ->
  budget g' st' < 2 * (maxPages - pageCount st1) + stall_credit st1.
Proof.
  intros Hp. unfold advance. unfold maxPages in *.
  destruct (truthy _).
  2:{ intro E; injection E as <- <-; unfold budget, keyword_may_fetch; cbn [hasMore andb]. lia. }
  destruct (_ || _).
  - destruct (missingNextCursorOffset st1) as [o|] eqn:Mo;
      [destruct (String.eqb o (offset st1)) eqn:Eo|].
    + intro E; injection E as <- <-. unfold budget, keyword_may_fetch, maxPages. cbn [hasMore andb]. lia.
    + intro E; injection E as <- <-. unfold budget, stall_credit, maxPages. cbn [missingNextCursorOffset offset pageCount].
      rewrite String.eqb_refl, Mo, Eo. cbv beta iota. destruct (keyword_may_fetch _ _ _); lia.
    + intro E; injection E as <- <-. unfold budget, stall_credit, maxPages. cbn [missingNextCursorOffset offset pageCount].
      rewrite String.eqb_refl, Mo. cbv beta iota. destruct (keyword_may_fetch _ _ _); lia.
  - intro E; injection E as <- <-. unfold budget, stall_credit, maxPages. cbn [missingNextCursorOffset pageCount].
    destruct (keyword_may_fetch _ _ _); destruct (missingNextCursorOffset st1) as [o|];
      try destruct (String.eqb o _); lia.
Qed.
Section Run.
Context `{Runtime}.
Variable url_parse : string -> option Url.URL.
Variable shareLink : value -> string.
Variable buildRecord : value -> bool.
Variable writeBatch : nat -> nat.
Variable toNewTable : bool.
Variable server : nat -> string -> Response.

Abbreviation main_loop := (main_loop url_parse shareLink buildRecord writeBatch toNewTable server).
Abbreviation step := (step url_parse shareLink buildRecord writeBatch toNewTable server).

Lemma step_continue_budget g st g' st' :
  keyword_may_fetch g (hasMore st) (pageCount st) = true ->
  step g st = Continue g' st' -> budget g' st' < budget g st.
Proof.
  intros K E.
  destruct (step_continue_shape url_parse shareLink buildRecord writeBatch toNewTable server
              g st g' st' E) as (g1 & st1 & data & A & _ & _ & Eo & Ep & Em).
  assert (Hp : pageCount st1 < maxPages).
  { rewrite Ep. unfold keyword_may_fetch in K. apply andb_true_iff in K as [_ K].
    apply Nat.ltb_lt in K. exact K. }
  pose proof (advance_budget g1 st1 data g' st' Hp A) as B.
  unfold budget at 2. rewrite K. unfold stall_credit in B |- *. rewrite Eo, Ep, Em in B. exact B.
Qed.

Lemma main_loop_stable n g st m :
  budget g st <= n -> n <= m -> main_loop m g st = main_loop n g st.
Proof.
  revert g st m. induction n as [|n IH]; intros g st m Hb Hm.
  - destruct (keyword_may_fetch g (hasMore st) (pageCount st)) eqn:K.
    + pose proof (budget_pos g st K). lia.
    + destruct m; simpl; [reflexivity|]. rewrite K. reflexivity.
  - destruct m as [|m]; [lia|]. simpl.
    destruct (keyword_may_fetch g (hasMore st) (pageCount st)) eqn:K; [|reflexivity].
    destruct (step g st) as [g' st'|g' st'|g' st'] eqn:E; try reflexivity.
    pose proof (step_continue_budget g st g' st' K E). apply IH; lia.
Qed.

Lemma main_loop_trace n g st g' st' b :
  main_loop n g st = (g', st', b) ->
  List.length (fetched st') <= List.length (fetched st) + n /\
  (pageCount st <= maxPages -> pageCount st' <= maxPages) /\
  grows (existingLinks st) (existingLinks st').
Proof.
  revert g st. induction n as [|n IH]; intros g st E; simpl in E.
  - injection E as <- <- _. split; [lia|]. split; [tauto|apply grows_refl].
  - destruct (keyword_may_fetch g (hasMore st) (pageCount st)) eqn:K;
      [|injection E as <- <- _; split; [lia|]; split; [tauto|apply grows_refl]].
    assert (Hp : pageCount st < maxPages).
    { unfold keyword_may_fetch in K. apply andb_true_iff in K as [_ K].
      apply Nat.ltb_lt in K. exact K. }
    pose proof (step_keeps url_parse shareLink buildRecord writeBatch toNewTable server g st)
      as (F & G & P).
    destruct (step g st) as [g1 st1|g1 st1|g1 st1]; cbn [step_state] in F, G, P.
    + destruct (IH g1 st1 E) as (F' & P' & G').
      rewrite F, length_app in F'. cbn [List.length] in F'.
      split; [lia|]. split; [intros _; apply P'; lia|]. eapply grows_trans; eassumption.
    + injection E as <- <- _. rewrite F, length_app. cbn [List.length].
      split; [lia|]. split; [intros _; lia|exact G].
    + injection E as <- <- _. rewrite F, length_app. cbn [List.length].
      split; [lia|]. split; [intros _; lia|exact G].
Qed.

Lemma main_loop_total n g st g' st' b :
  main_loop n g st = (g', st', b) -> totalWritten st' = totalWritten st.
Proof.
  revert g st. induction n as [|n IH]; intros g st E; simpl in E.
  - injection E as <- <- _. reflexivity.
  - destruct (keyword_may_fetch g (hasMore st) (pageCount st));
      [|injection E as <- <- _; reflexivity].
    pose proof (step_total url_parse shareLink buildRecord writeBatch toNewTable server g st) as T.
    destruct (step g st) as [g1 st1|g1 st1|g1 st1]; cbn [step_state] in T.
    + rewrite (IH g1 st1 E). exact T.
    + injection E as <- <- _. exact T.
    + injection E as <- <- _. exact T.
Qed.

End Run.

End KeywordExtras.

Module KeywordTheorems.
Import Js Collect KeywordExtras ExtraSpecs.
Local Open Scope list_scope.

Section Thms.
Context `{Runtime}.
Variable url_parse : string -> option Url.URL.
Variable shareLink : value -> string.
Variable buildRecord : value -> bool.
Variable writeBatch : nat -> nat.
Variable toNewTable : bool.
Variable server : nat -> string -> Response.

Lemma run_from_state fuel g st :
  snd (run_from url_parse shareLink buildRecord writeBatch toNewTable server fuel g st) =
  snd (fst (main_loop url_parse shareLink buildRecord writeBatch toNewTable server fuel g st)).
Proof.
  unfold run_from. destruct (main_loop _ _ _ _ _ _ _ _ _) as [[g' st'] []]; reflexivity.
Qed.

(** X19: the keyword loop ends within [2 * maxPages + 1] iterations:
    allowing any more leaves the run unchanged. *)
Theorem writeKeywordTikTokData_terminates g existing m :
  2 * maxPages + 1 <= m ->
  run_from url_parse shareLink buildRecord writeBatch toNewTable server m g
    (mkKLoop true "0" 0 None 0 existing []) =
  writeKeywordTikTokData url_parse shareLink buildRecord writeBatch toNewTable server g existing.
Proof.
  intro Hm. unfold writeKeywordTikTokData, run_from.
  rewrite (main_loop_stable url_parse shareLink buildRecord writeBatch toNewTable server
             (2 * maxPages + 1) g _ m); [reflexivity| |exact Hm].
  unfold budget. destruct (keyword_may_fetch _ _ _); cbn; lia.
Qed.

(** X20: a keyword run makes at most [2 * maxPages + 1] search requests
    and counts at most [maxPages] pages. *)
Theorem writeKeywordTikTokData_bounded g existing :
  let st' := snd (writeKeywordTikTokData url_parse shareLink buildRecord writeBatch
                    toNewTable server g existing) in
  List.length (fetched st') <= 2 * maxPages + 1 /\ pageCount st' <= maxPages.
Proof.
  cbv zeta. unfold writeKeywordTikTokData. rewrite run_from_state.
  destruct (main_loop _ _ _ _ _ _ _ _ _) as [[g' st'] b] eqn:E.
  destruct (main_loop_trace url_parse shareLink buildRecord writeBatch toNewTable server
              _ _ _ _ _ _ E) as (F & P & _).
  cbn [fst snd fetched List.length pageCount] in F, P |- *. split; [lia|apply P; unfold maxPages; lia].
Qed.

(** X21: the seen-link list of a keyword run only grows by non-empty
    links put in front of the initial list, and stays free of duplicates. *)
Theorem writeKeywordTikTokData_links g existing :
  NoDup existing ->
  let st' := snd (writeKeywordTikTokData url_parse shareLink buildRecord writeBatch
                    toNewTable server g existing) in
  NoDup (existingLinks st') /\
  exists added, existingLinks st' = added ++ existing /\ ~ In "" added.
Proof.
  intros N. cbv zeta. unfold writeKeywordTikTokData. rewrite run_from_state.
  destruct (main_loop _ _ _ _ _ _ _ _ _) as [[g' st'] b] eqn:E.
  destruct (main_loop_trace url_parse shareLink buildRecord writeBatch toNewTable server
              _ _ _ _ _ _ E) as (_ & _ & (added & Ea & He & Hn)).
  cbn [fst snd existingLinks] in Ea, Hn |- *.
  split; [exact (Hn N)|]. exists added. split; assumption.
Qed.

(** X27: no keyword run counts a written record: every batch write of a
    positive number of records is followed by [applyQuotaConsumption], whose
    call of [consumeQuotaPoints] throws, before [totalWritten] is
    increased.  A run therefore ends either with "写入数据失败: {{error}}" or
    with a final message whose count is 0. *)
Theorem writeKeywordTikTokData_total_zero g existing :
  let '(g', st') :=
    writeKeywordTikTokData url_parse shareLink buildRecord writeBatch toNewTable server
      g existing in
  totalWritten st' = 0 /\
  (message g' = Tr "写入数据失败: {{error}}" [] \/
   message g' = Tr (if keywordStop g' then "已停止采集，成功写入 {{count}} 条数据"
                    else "成功写入 {{count}} 条数据") [("count", 0); ("used", 0)]).
Proof.
  unfold writeKeywordTikTokData, run_from.
  destruct (main_loop _ _ _ _ _ _ _ _ _) as [[g' st'] b] eqn:E.
  pose proof (main_loop_total url_parse shareLink buildRecord writeBatch toNewTable server
                _ _ _ _ _ _ E) as T.
  cbn [totalWritten] in T.
  destruct b; cbn [message keywordStop set_message]; rewrite T; split; auto.
Qed.

End Thms.
End KeywordTheorems.

Module HelperTheorems.
Import Helpers ExtraSpecs.

Lemma split_at_any_no_stop c stops s :
  Str.has_char c stops = true -> Str.has_char c (fst (Url.split_at_any stops s)) = false.
Proof.
  intro Hc. induction s as [|d s IH]; simpl; [reflexivity|].
  destruct (Str.has_char d stops) eqn:Hd; [reflexivity|].
  destruct (Url.split_at_any stops s) as [a b]. simpl in *. rewrite IH, orb_false_r.
  destruct (Ascii.eqb_spec c d) as [<-|]; [congruence|reflexivity].
Qed.

Lemma normalizeLink_no_query u : Str.has_char "?" (normalizeLink u) = false.
Proof.
  destruct u as [u|]; [|reflexivity]. unfold normalizeLink.
  destruct (String.eqb u ""); [reflexivity|].
  destruct (String.eqb (Str.trim u) ""); [reflexivity|].
  apply split_at_any_no_stop. reflexivity.
Qed.

Lemma obj_get_set {A} (kvs : list (string * A)) k v k' :
  obj_get (obj_set kvs k v) k' = if String.eqb k' k then Some v else obj_get kvs k'.
Proof.
  induction kvs as [|[k0 v0] kvs IH]; simpl.
  - destruct (String.eqb k' k); reflexivity.
  - destruct (String.eqb_spec k k0) as [->|Hne]; simpl.
    + destruct (String.eqb k' k0); reflexivity.
    + rewrite IH. destruct (String.eqb_spec k' k0) as [->|]; [|reflexivity].
      destruct (String.eqb_spec k0 k); [congruence|reflexivity].
Qed.

(** X22: [consumeQuotaPoints] is not a member of what [useQuota] returns,
    so [applyQuotaConsumption] throws for every positive count and returns
    [currentRemaining] for the others. *)
Theorem applyQuotaConsumption_throws calls currentRemaining count :
  applyQuotaConsumption consumeQuotaPoints calls currentRemaining count =
  if Qle_bool count 0 then Some (currentRemaining, calls) else None.
Proof.
  unfold applyQuotaConsumption.
  replace consumeQuotaPoints with Undefined by reflexivity.
  destruct (Qeq_bool count 0) eqn:E; simpl; [|destruct (Qle_bool count 0); reflexivity].
  apply Qeq_bool_iff in E. replace (Qle_bool count 0) with true; [reflexivity|].
  symmetry. apply Qle_bool_iff. rewrite E. apply Qle_refl.
Qed.

(** X23: after [ensureRequiredSelections], every required field is
    selected and every other field keeps its entry. *)
Theorem ensureRequiredSelections_get selectedFields requiredFields k :
  obj_get (ensureRequiredSelections selectedFields requiredFields) k =
  if existsb (String.eqb k) requiredFields then Some true else obj_get selectedFields k.
Proof.
  unfold ensureRequiredSelections.
  destruct (Nat.eqb_spec (List.length requiredFields) 0) as [L|_].
  { destruct requiredFields; [reflexivity|discriminate]. }
  revert selectedFields. induction requiredFields as [|f fs IH]; intro sel; simpl; [reflexivity|].
  rewrite IH, obj_get_set. destruct (String.eqb k f); simpl; [|reflexivity].
  destruct (existsb _ fs); reflexivity.
Qed.

(** X24: a link [buildVideoShareLink] returns holds no [?] unless it is
    the link built from [authorId] and [awemeId]: share links lose their
    query. *)
Theorem buildVideoShareLink_query shareUrl shareInfoUrl awemeId authorId :
  Str.has_char "?" (buildVideoShareLink shareUrl shareInfoUrl awemeId authorId) = true ->
  exists a u, awemeId = Some a /\ authorId = Some u /\
    buildVideoShareLink shareUrl shareInfoUrl awemeId authorId =
    "https://www.tiktok.com/@" ++ u ++ "/video/" ++ a.
Proof.
  unfold buildVideoShareLink.
  destruct (negb (String.eqb (normalizeLink shareUrl) ""));
    [rewrite normalizeLink_no_query; discriminate|].
  destruct (negb (String.eqb (normalizeLink shareInfoUrl) ""));
    [rewrite normalizeLink_no_query; discriminate|].
  destruct awemeId as [a|]; [|discriminate]. destruct authorId as [u|]; [|discriminate].
  destruct (_ && _); [|discriminate]. intros _. exists a, u. auto.
Qed.

End HelperTheorems.

Module AccountTheorems.
Import Account ExtraSpecs.

Lemma handle_char_facts c :
  is_handle_char c = true ->
  Str.is_ws c = false /\ Ascii.eqb c "@" = false /\ Ascii.eqb c "/" = false /\
  is_handle_char (Str.lower_ascii c) = true.
Proof. destruct c as [[] [] [] [] [] [] [] []]; vm_compute; try discriminate; auto. Qed.

Lemma lower_ascii_idem c : Str.lower_ascii (Str.lower_ascii c) = Str.lower_ascii c.
Proof. destruct c as [[] [] [] [] [] [] [] []]; reflexivity. Qed.

Lemma toLowerCase_idem s : Str.toLowerCase (Str.toLowerCase s) = Str.toLowerCase s.
Proof. induction s as [|c s IH]; simpl; [reflexivity|]. rewrite lower_ascii_idem, IH. reflexivity. Qed.

Lemma toLowerCase_app_lower a b : Str.toLowerCase (a ++ b) = Str.toLowerCase a ++ Str.toLowerCase b.
Proof. induction a as [|c a IH]; simpl; [reflexivity|]. rewrite IH. reflexivity. Qed.

Lemma all_handle_lower s : all_handle s = true -> all_handle (Str.toLowerCase s) = true.
Proof.
  induction s as [|c s IH]; simpl; [reflexivity|]. intro H.
  apply andb_true_iff in H as [Hc Hs]. apply handle_char_facts in Hc as (_ & _ & _ & Hl).
  rewrite Hl, IH by exact Hs. reflexivity.
Qed.

Lemma toLowerCase_nonempty s : s <> "" -> Str.toLowerCase s <> "".
Proof. destruct s; simpl; congruence. Qed.

Lemma list_ascii_of_string_app a b :
  list_ascii_of_string (a ++ b) = app (list_ascii_of_string a) (list_ascii_of_string b).
Proof. induction a as [|c a IH]; simpl; [reflexivity|]. rewrite IH. reflexivity. Qed.

Lemma no_ws_list s : no_ws s = forallb (fun c => negb (Str.is_ws c)) (list_ascii_of_string s).
Proof. induction s as [|c s IH]; simpl; [reflexivity|]. rewrite IH. reflexivity. Qed.

Lemma trim_start_no_ws s : no_ws s = true -> Str.trim_start s = s.
Proof.
  destruct s as [|c s]; simpl; [reflexivity|]. intro H.
  apply andb_true_iff in H as [H _]. destruct (Str.is_ws c); [discriminate|reflexivity].
Qed.

Lemma no_ws_rev s : no_ws s = true -> no_ws (Str.rev_str s) = true.
Proof.
  intro H. unfold Str.rev_str. rewrite no_ws_list, list_ascii_of_string_of_list_ascii.
  rewrite no_ws_list in H. apply forallb_forall. intros c Hc.
  apply in_rev in Hc. exact (proj1 (forallb_forall _ _) H c Hc).
Qed.

Lemma rev_str_rev_str s : Str.rev_str (Str.rev_str s) = s.
Proof.
  unfold Str.rev_str. rewrite list_ascii_of_string_of_list_ascii, rev_involutive.
  apply string_of_list_ascii_of_string.
Qed.

Lemma trim_no_ws s : no_ws s = true -> Str.trim s = s.
Proof.
  intro H. unfold Str.trim. rewrite (trim_start_no_ws s H).
  rewrite (trim_start_no_ws _ (no_ws_rev s H)). apply rev_str_rev_str.
Qed.

Lemma all_handle_no_ws s : all_handle s = true -> no_ws s = true.
Proof.
  induction s as [|c s IH]; simpl; [reflexivity|]. intro H.
  apply andb_true_iff in H as [Hc Hs]. apply handle_char_facts in Hc as (Hw & _).
  rewrite Hw, IH by exact Hs. reflexivity.
Qed.

Lemma all_handle_no_slash s : all_handle s = true -> Str.has_char "/" s = false.
Proof.
  induction s as [|c s IH]; cbn [Str.has_char all_handle]; [reflexivity|]. intro H.
  apply andb_true_iff in H as [Hc Hs]. apply handle_char_facts in Hc as (_ & _ & Hsl & _).
  rewrite IH by exact Hs. rewrite Ascii.eqb_sym, Hsl. reflexivity.
Qed.

Lemma starts_with_has_char c p s :
  Str.starts_with p s = true -> Str.has_char c p = true -> Str.has_char c s = true.
Proof.
  revert s. induction p as [|a p IH]; intros s Hp Hc; [discriminate|].
  destruct s as [|b s]; [discriminate|]. simpl in Hp, Hc |- *.
  apply andb_true_iff in Hp as [Hab Hp]. apply Ascii.eqb_eq in Hab as ->.
  apply orb_true_iff in Hc as [Hc|Hc]; [rewrite Hc; reflexivity|].
  rewrite (IH s Hp Hc). apply orb_true_r.
Qed.

Lemma includes_slash_free s n :
  Str.has_char "/" n = true -> Str.has_char "/" s = false -> Str.includes s n = false.
Proof.
  intros Hn. induction s as [|c s IH]; intro Hs.
  - destruct n as [|a n]; [discriminate|reflexivity].
  - simpl. destruct (Str.starts_with n (String c s)) eqn:E.
    + pose proof (starts_with_has_char "/" _ _ E Hn) as C. congruence.
    + simpl in Hs. apply orb_false_iff in Hs as [_ Hs]. exact (IH Hs).
Qed.

Lemma take_non_slash_free s : Str.has_char "/" s = false -> take_non_slash s = s.
Proof.
  induction s as [|c s IH]; cbn [Str.has_char take_non_slash]; [reflexivity|]. intro H.
  apply orb_false_iff in H as [Hc Hs]. rewrite Ascii.eqb_sym, Hc, IH by exact Hs. reflexivity.
Qed.

Lemma strip_at_handle s : all_handle s = true -> strip_at s = s.
Proof.
  destruct s as [|c s]; [reflexivity|]. simpl. intro H.
  apply andb_true_iff in H as [Hc _]. apply handle_char_facts in Hc as (_ & Ha & _).
  unfold strip_at. destruct (Ascii.eqb_spec c "@") as [->|]; [discriminate|].
  destruct c as [[] [] [] [] [] [] [] []]; try reflexivity. congruence.
Qed.

Section Keys.
Variable url_parse : string -> option Url.URL.

Lemma normalizeAccountKey_bare name :
  all_handle name = true -> name <> "" ->
  normalizeAccountKey url_parse name = toAccountUrl name.
Proof.
  intros Hh Hne. unfold normalizeAccountKey.
  rewrite (trim_no_ws _ (all_handle_no_ws _ Hh)).
  destruct (String.eqb_spec name ""); [contradiction|].
  rewrite !strip_at_handle by exact Hh.
  rewrite (includes_slash_free name "tiktok.com/") by (reflexivity || exact (all_handle_no_slash _ Hh)).
  destruct (String.eqb_spec name ""); [contradiction|reflexivity].
Qed.

Lemma normalizeAccountKey_handle_key pre name :
  (pre = "" \/ pre = "@") -> all_handle name = true -> name <> "" ->
  normalizeAccountKey url_parse (pre ++ name) = account_prefix ++ Str.toLowerCase name.
Proof.
  intros Hat Hh Hne.
  replace (account_prefix ++ Str.toLowerCase name) with (toAccountUrl name)
    by (unfold toAccountUrl; rewrite toLowerCase_app_lower; reflexivity).
  destruct Hat as [->| ->]; [exact (normalizeAccountKey_bare name Hh Hne)|].
  unfold normalizeAccountKey.
  assert (Hw : no_ws ("@" ++ name) = true) by (simpl; exact (all_handle_no_ws _ Hh)).
  rewrite (trim_no_ws _ Hw). cbn [append String.eqb strip_at].
  rewrite strip_at_handle by exact Hh.
  rewrite (includes_slash_free name "tiktok.com/") by (reflexivity || exact (all_handle_no_slash _ Hh)).
  destruct (String.eqb_spec name ""); [contradiction|reflexivity].
Qed.

(** X25: a bare handle or [@handle] is keyed as the lower-cased
    [https://www.tiktok.com/@handle]. *)
Theorem normalizeAccountKey_handle pre name :
  (pre = "" \/ pre = "@") -> all_handle name = true -> name <> "" ->
  normalizeAccountKey url_parse (pre ++ name) = account_prefix ++ Str.toLowerCase name.
Proof. exact (normalizeAccountKey_handle_key pre name). Qed.

(** X26: [extractAccountName] gives back the lower-cased handle of a bare
    handle or [@handle], and keying that name gives the same key as the
    input. *)
Theorem extractAccountName_roundtrip pre name u :
  (pre = "" \/ pre = "@") -> all_handle name = true -> name <> "" ->
  url_parse (account_prefix ++ Str.toLowerCase name) = Some u ->
  Url.pathname u = "/@" ++ Str.toLowerCase name ->
  extractAccountName url_parse (pre ++ name) = Str.toLowerCase name /\
  normalizeAccountKey url_parse (extractAccountName url_parse (pre ++ name)) =
  normalizeAccountKey url_parse (pre ++ name).
Proof.
  intros Hat Hh Hne Hu Hp.
  pose proof (normalizeAccountKey_handle_key pre name Hat Hh Hne) as Hk.
  assert (Hl : all_handle (Str.toLowerCase name) = true) by exact (all_handle_lower _ Hh).
  assert (Hln : Str.toLowerCase name <> "") by exact (toLowerCase_nonempty _ Hne).
  assert (E : extractAccountName url_parse (pre ++ name) = Str.toLowerCase name).
  { unfold extractAccountName. rewrite Hk.
    destruct (String.eqb_spec (account_prefix ++ Str.toLowerCase name) "") as [e|_];
      [discriminate e|].
    rewrite Hu, Hp. cbn [at_capture Ascii.eqb Bool.eqb append].
    rewrite (take_non_slash_free _ (all_handle_no_slash _ Hl)).
    destruct (Str.toLowerCase name) as [|c r]; [contradiction|reflexivity]. }
  split; [exact E|]. rewrite E, Hk.
  rewrite (normalizeAccountKey_handle_key "" _ (or_introl eq_refl) Hl Hln : normalizeAccountKey url_parse (Str.toLowerCase name) = _).
  rewrite toLowerCase_idem. reflexivity.
Qed.

End Keys.
End AccountTheorems.

Module ProductIdTheorems.
Import Commerce CommerceExtraFacts ExtraSpecs.

Lemma substring_0_all s m : String.length s <= m -> substring 0 m s = s.
Proof.
  revert m. induction s as [|c s IH]; intros m Hm; destruct m; simpl in *; try reflexivity; [lia|].
  rewrite IH by lia. reflexivity.
Qed.

Lemma substring_app_r a b : substring (String.length a) (String.length (a ++ b)) (a ++ b) = b.
Proof.
  assert (G : forall m, String.length b <= m -> substring (String.length a) m (a ++ b) = b).
  { induction a as [|c a IH]; intros m Hm; simpl; [apply substring_0_all; exact Hm|].
    apply IH. exact Hm. }
  apply G. clear G. induction a as [|c a IH]; simpl; lia.
Qed.

Lemma starts_with_app_self a b : Str.starts_with a (a ++ b) = true.
Proof. induction a as [|c a IH]; simpl; [reflexivity|]. rewrite Ascii.eqb_refl. exact IH. Qed.

Lemma take_digits_app_digits d t :
  digits_only d = true ->
  (match t with String c _ => is_digit c = false | EmptyString => True end) ->
  take_digits (d ++ t) = d.
Proof.
  intros Hd Ht. induction d as [|c d IH]; simpl in *.
  - destruct t as [|c t]; simpl; [reflexivity|]. rewrite Ht. reflexivity.
  - apply andb_true_iff in Hd as [Hc Hd]. rewrite Hc, IH by exact Hd. reflexivity.
Qed.

Lemma digit_not_ws c : is_digit c = true -> Str.is_ws c = false.
Proof. destruct c as [[] [] [] [] [] [] [] []]; vm_compute; congruence. Qed.

Lemma digits_only_all d : digits_only d = true -> all_digits d.
Proof.
  unfold all_digits. induction d as [|c d IH]; simpl; [constructor|].
  intro H. apply andb_true_iff in H as [Hc Hd]. constructor; auto.
Qed.

(** X1: what [extractProductIdFromJson] returns is a string of at least
    15 decimal digits. *)
Theorem extractProductIdFromJson_digits jsonStr d :
  extractProductIdFromJson jsonStr = Some d ->
  15 <= String.length d /\ digits_only d = true.
Proof.
  unfold extractProductIdFromJson. intro E.
  destruct (first_match_digits jsonStr d E) as [L A]. split; [exact L|].
  unfold all_digits in A. clear -A. induction d as [|c d IH]; simpl in *; [reflexivity|].
  inversion A as [|? ? Hc Hd]; subst. rewrite Hc. exact (IH Hd).
Qed.

(** X2: a JSON text that starts with ["product_id":] followed by 15 or
    more digits yields exactly those digits. *)
Theorem extractProductIdFromJson_reads d t :
  15 <= String.length d -> digits_only d = true ->
  (match t with String c _ => is_digit c = false | EmptyString => True end) ->
  extractProductIdFromJson (product_id_key ++ ":" ++ d ++ t) = Some d.
Proof.
  intros L Hd Ht. unfold extractProductIdFromJson.
  assert (M : match_at (product_id_key ++ ":" ++ d ++ t) = Some d).
  { unfold match_at. rewrite starts_with_app_self, substring_app_r.
    cbn [skip_ws append Str.is_ws].
    replace (Str.is_ws ":") with false by reflexivity.
    destruct d as [|c d']; [simpl in L; lia|].
    simpl in Hd. apply andb_true_iff in Hd as [Hc Hd'].
    cbn [append skip_ws]. rewrite (digit_not_ws c Hc).
    change (String c (d' ++ t)) with (String c d' ++ t).
    rewrite (take_digits_app_digits (String c d') t) by first [exact Ht | cbn [digits_only]; rewrite Hc; exact Hd'].
    apply Nat.leb_le in L. rewrite L. reflexivity. }
  unfold product_id_key in M |- *. simpl append in M |- *. simpl first_match. 
  destruct (match_at _) eqn:E; [congruence|discriminate].
Qed.

End ProductIdTheorems.

Module ExtraWitnesses.
Import Js Url Commerce Bitable Collect Specs Examples ExtraSpecs CommerceLabels Cells Scan
  Helpers Account ExtraExamples.
#[local] Existing Instance BasicRuntime.runtime.

Ltac not_in_list :=
  let H := fresh in
  intro H; repeat (destruct H as [H|H]; [discriminate H|]); destruct H.

(** Every record [scan_pages] delivers is one of its [r] records. *)
Lemma scan_pages_records : forall w t w' page,
  scan_pages w pageSize t = Some (w', page) ->
  forall r, In r (page_records page) -> (fun _ : RecordItem => True) r.
Proof. intros. exact I. Qed.

Lemma scan_pages_nonempty : forall w t w' page,
  scan_pages w pageSize t = Some (w', page) -> page_records page <> [].
Proof. intros w t w' page E. injection E as _ <-. cbn. discriminate. Qed.

Lemma extractProductIdFromJson_digits_witness :
  15 <= String.length "123456789012345678" /\ digits_only "123456789012345678" = true.
Proof.
  apply (ProductIdTheorems.extractProductIdFromJson_digits long_id_json).
  vm_compute. reflexivity.
Defined.

Lemma extractProductIdFromJson_reads_witness :
  extractProductIdFromJson (product_id_key ++ ":" ++ "123456789012345678" ++ "}")
    = Some "123456789012345678".
Proof.
  apply ProductIdTheorems.extractProductIdFromJson_reads.
  - apply Nat.leb_le. reflexivity.
  - reflexivity.
  - reflexivity.
Defined.

Lemma commerceFromAweme_reasons_translated_witness :
  reasons (commerceFromAweme goods_aweme) = ["commerce_goods_flag"] /\
  exists t, translateCommerceReason "commerce_goods_flag" = TText t /\ t <> "commerce_goods_flag".
Proof.
  split; [vm_compute; reflexivity|].
  apply (CommerceExtras.commerceFromAweme_reasons_translated goods_aweme).
  vm_compute. left. reflexivity.
Defined.

Lemma dedupeProducts_keeps_ids_witness :
  exists q, In q (dedupeProducts [pA; pA; pT]) /\ productId q = productId pA.
Proof.
  apply (DedupeExtra.dedupeProducts_keeps_ids [pA; pA; pT] pA).
  - repeat constructor.
  - left. reflexivity.
  - reflexivity.
Defined.

Lemma getEmptyRecords_only_empty_witness :
  getEmptyRecords scan_pages 5 0 None (Some 3) = Done 3 ["r0"; "r2"] /\
  forall i, In i ["r0"; "r2"] ->
    exists r, True /\ recordId r = i /\ isRecordEmpty (fields r) = true.
Proof.
  split; [vm_compute; reflexivity|].
  apply (ScanTheorems.getEmptyRecords_only_empty scan_pages (fun _ => True)
           scan_pages_records 5 0 None (Some 3) 3).
  vm_compute. reflexivity.
Defined.

Lemma isRecordEmpty_content_witness :
  isRecordEmpty (Some [("t", Str " "); ("n", Num 0)]) = false.
Proof.
  apply (ScanTheorems.isRecordEmpty_content _ "n" (Num 0)).
  - right. left. reflexivity.
  - exact I.
Defined.

Lemma scans_never_end_on_empty_pages_witness :
  getEmptyRecords empty_pages 10 0 None (Some 3) = OutOfFuel /\
  collectExistingKeys empty_pages scan_meta scan_normalizer 10 0 "link" (Some 3) = OutOfFuel.
Proof.
  apply (ScanTheorems.scans_never_end_on_empty_pages empty_pages scan_meta scan_normalizer
           0 None 3 "link" 0 [mkFieldMeta "fid" "link"] (mkFieldMeta "fid" "link")).
  - apply Nat.ltb_lt. reflexivity.
  - intros w t. eexists _, _. split; [reflexivity|]. split; reflexivity.
  - intros s w E. discriminate E.
  - reflexivity.
  - reflexivity.
Defined.

Lemma scans_bounded_by_maxScan_witness :
  (forall fuel, Nat.max 1 3 <= fuel -> getEmptyRecords scan_pages fuel 0 None (Some 3) <> OutOfFuel) /\
  (forall fuel, S 3 <= fuel ->
     collectExistingKeys scan_pages scan_meta scan_normalizer fuel 0 "link" (Some 3)
       <> OutOfFuel).
Proof.
  apply (ScanTheorems.scans_bounded_by_maxScan scan_pages scan_meta scan_normalizer
           0 None 3 "link").
  exact scan_pages_nonempty.
Defined.

Lemma collectExistingKeys_sound_witness :
  collectExistingKeys scan_pages scan_meta scan_normalizer 10 0 "link" (Some 4)
    = Done 4 ["k1"; "k3"] /\
  NoDup ["k1"; "k3"] /\
  forall k, In k ["k1"; "k3"] -> k <> "" /\
    exists w1 metas meta r,
      scan_meta 0 = Some (w1, metas) /\
      find (fun meta => String.eqb (name meta) "link") metas = Some meta /\
      True /\ scan_normalizer (extractTextFromCell (cell_of r (id meta))) = Some k.
Proof.
  split; [vm_compute; reflexivity|].
  apply (ScanTheorems.collectExistingKeys_sound scan_pages scan_meta scan_normalizer
           (fun _ => True) scan_pages_records 10 0 "link" (Some 4) 4).
  vm_compute. reflexivity.
Defined.

Lemma addRecordsInBatches_ids_length_witness :
  exists w' res e',
    @addRecordsInBatches nat unit demo_table 0 [[("f", tt)]; [("f", tt)]; [("f", tt)]] 2
      (Some ["e1"]) (Some no_stop) = Some (w', res, e') /\
    List.length (recordIds res) = 3.
Proof.
  eexists _, _, _. split; [vm_compute; reflexivity|].
  refine (@WriteBackTheorems.addRecordsInBatches_ids_length nat unit demo_table 0
            [[("f", tt)]; [("f", tt)]; [("f", tt)]] 2 (Some ["e1"]) (Some no_stop) _ _ _ _).
  vm_compute. reflexivity.
Defined.

Lemma addRecordsInBatches_counts_witness :
  exists w' res e',
    @addRecordsInBatches nat unit demo_table 0 [[("f", tt)]; [("f", tt)]; [("f", tt)]] 2
      (Some ["e1"]) (Some no_stop) = Some (w', res, e') /\
    res_filledCount res + appendedCount res = 3.
Proof.
  eexists _, _, _. split; [vm_compute; reflexivity|].
  refine (@WriteBackTheorems.addRecordsInBatches_counts nat unit demo_table 0
            [[("f", tt)]; [("f", tt)]; [("f", tt)]] 2 (Some ["e1"]) (Some no_stop) _ _ _ _ _).
  - intros s w E. injection E as <-. reflexivity.
  - vm_compute. reflexivity.
Defined.

Lemma addRecordsInBatches_stopped_witness :
  @addRecordsInBatches nat unit demo_table 0 [[("f", tt)]] 2 (Some ["e1"; "e2"])
    (Some (fun _ => true)) = Some (0, mkAdd 0 0 [""], Some ["e2"]).
Proof.
  exact (@WriteBackTheorems.addRecordsInBatches_stopped nat unit demo_table 0 [[("f", tt)]] 2
           ["e1"; "e2"] (fun _ => true) eq_refl).
Defined.

Lemma fillEmptyRecords_distinct_witness :
  let '(_, res) := @fillEmptyRecords nat unit demo_table 0 ["e1"; "e2"]
                     [(0, [("f", tt)]); (1, [("f", tt)])] no_stop in
  NoDup (map fst (filledRecordIds res)) /\ NoDup (map snd (filledRecordIds res)) /\
  incl (map fst (filledRecordIds res)) [0; 1] /\
  incl (map snd (filledRecordIds res)) ["e1"; "e2"].
Proof.
  refine (@WriteBackTheorems.fillEmptyRecords_distinct nat unit demo_table 0 ["e1"; "e2"]
            [(0, [("f", tt)]); (1, [("f", tt)])] no_stop _ _).
  - cbn. repeat (apply NoDup_cons; [not_in_list|]). apply NoDup_nil.
  - repeat (apply NoDup_cons; [not_in_list|]). apply NoDup_nil.
Defined.

Lemma writeKeywordTikTokData_terminates_witness :
  run_from Url.parse_basic demo_share (fun _ => true) (fun n => n) false two_page_server
    250 demo_gov (mkKLoop true "0" 0 None 0 seen_keys []) =
  writeKeywordTikTokData Url.parse_basic demo_share (fun _ => true) (fun n => n) false
    two_page_server demo_gov seen_keys.
Proof.
  apply KeywordTheorems.writeKeywordTikTokData_terminates.
  apply Nat.leb_le. reflexivity.
Defined.

Lemma writeKeywordTikTokData_links_witness :
  let st' := snd (writeKeywordTikTokData Url.parse_basic demo_share (fun _ => true)
                    (fun n => n) false two_page_server demo_gov seen_keys) in
  NoDup (existingLinks st') /\
  exists added, existingLinks st' = app added seen_keys /\ ~ In "" added.
Proof.
  apply KeywordTheorems.writeKeywordTikTokData_links.
  vm_compute. repeat (apply NoDup_cons; [not_in_list|]). apply NoDup_nil.
Defined.

Lemma buildVideoShareLink_query_witness :
  exists a u, Some "7" = Some a /\ Some "a?b" = Some u /\
    buildVideoShareLink None (Some " ") (Some "7") (Some "a?b") =
    "https://www.tiktok.com/@" ++ u ++ "/video/" ++ a.
Proof.
  apply HelperTheorems.buildVideoShareLink_query. vm_compute. reflexivity.
Defined.

Lemma normalizeAccountKey_handle_witness :
  normalizeAccountKey Url.parse_basic ("@" ++ "Alice_1") = account_prefix ++ Str.toLowerCase "Alice_1".
Proof.
  apply AccountTheorems.normalizeAccountKey_handle.
  - right. reflexivity.
  - reflexivity.
  - discriminate.
Defined.

Lemma extractAccountName_roundtrip_witness :
  extractAccountName Url.parse_basic ("" ++ "Alice_1") = Str.toLowerCase "Alice_1" /\
  normalizeAccountKey Url.parse_basic (extractAccountName Url.parse_basic ("" ++ "Alice_1")) =
  normalizeAccountKey Url.parse_basic ("" ++ "Alice_1").
Proof.
  apply (AccountTheorems.extractAccountName_roundtrip Url.parse_basic "" "Alice_1"
           (mkURL "https:" "www.tiktok.com" "/@alice_1" "" "")).
  - left. reflexivity.
  - reflexivity.
  - discriminate.
  - vm_compute. reflexivity.
  - reflexivity.
Defined.

End ExtraWitnesses.
